(** * my_stl::SharedPtr / my_stl::WeakPtr: a shallow embedding

    The development follows SmartPointers.hpp and SmartPointers.ipp.
    Control blocks live in a store indexed by their address, handles
    (SharedPtr and WeakPtr objects) live in a second store indexed by the
    address of the handle object, so that [this == &other] and the sharing
    of one block by many handles are modelled as they are in the program.
    Every member function is a computation in a state-and-error monad:
    a failed [assert] aborts, a dereference of a null or freed block
    pointer is undefined behaviour, and an allocator may throw. *)

From Stdlib Require Import NArith Lia.
From stdpp Require Import base option gmap strings list fin_maps.

Local Open Scope N_scope.

(** ** size_t *)

Definition size_t_modulus : N := 2 ^ 64.
Definition SIZE_MAX : N := size_t_modulus - 1.

(** [++n] and [--n] on a size_t. *)
Definition incr (n : N) : N := (n + 1) mod size_t_modulus.
Definition decr (n : N) : N := (n + SIZE_MAX) mod size_t_modulus.

(** ** Addresses and values *)

(** The address of a control block; a null [ControlBlockBase*] is [None]. *)
Definition loc := positive.

(** The address of a handle object (what [this] and [&other] compare). *)
Definition var := string.

(** A [T*] / [void*]: null, an object made by [new], or the [value] member
    embedded in the control block at the given address. *)
Inductive pointer :=
| nullptr
| object (a : N)
| embedded (l : loc).

(** The managed type.  The library never inspects a value of [T];
    integers stand for them. *)
Definition T := Z.

(** A deleter is a callable on the stored pointer.  Its effect is on
    the objects made by [new]; where the call has undefined behaviour it
    has no result. *)
Definition Deleter := pointer → gmap N T → option (gmap N T).

(** [DefaultDelete<T>::operator()]: [delete data].  On a null pointer
    [delete] does nothing; any other pointer must point at an object
    made by [new] that has not been deleted. *)
Definition DefaultDelete : Deleter := λ data objs,
  match data with
  | nullptr => Some objs
  | object a =>
      match objs !! a with
      | Some _ => Some (delete a objs)
      | None => None
      end
  | embedded _ => None
  end.

(** ** Control blocks *)

(** The two final classes derived from ControlBlockBase, with the members
    they add ([alloc_] is stateless in the model: its effect is counted in
    the state). *)
Inductive derived :=
| PtrControlBlock (deleter_ : Deleter)
| ValueControlBlock (value : option T).

(** ControlBlockBase.  [delete_data_calls] and [delete_block_calls] count
    the calls of the two virtual functions on this object; a block whose
    [delete_block] has run is freed storage. *)
Record ControlBlockBase := mkBlock {
  data_ : pointer;
  strong_count_ : N;
  weak_count_ : N;
  dyn : derived;
  delete_data_calls : nat;
  delete_block_calls : nat
}.

Definition with_data (p : pointer) (b : ControlBlockBase) :=
  mkBlock p (strong_count_ b) (weak_count_ b) (dyn b)
          (delete_data_calls b) (delete_block_calls b).
Definition with_strong (n : N) (b : ControlBlockBase) :=
  mkBlock (data_ b) n (weak_count_ b) (dyn b)
          (delete_data_calls b) (delete_block_calls b).
Definition with_weak (n : N) (b : ControlBlockBase) :=
  mkBlock (data_ b) (strong_count_ b) n (dyn b)
          (delete_data_calls b) (delete_block_calls b).
Definition with_dyn (d : derived) (b : ControlBlockBase) :=
  mkBlock (data_ b) (strong_count_ b) (weak_count_ b) d
          (delete_data_calls b) (delete_block_calls b).
Definition data_deleted (b : ControlBlockBase) :=
  mkBlock (data_ b) (strong_count_ b) (weak_count_ b) (dyn b)
          (S (delete_data_calls b)) (delete_block_calls b).
Definition block_deleted (b : ControlBlockBase) :=
  mkBlock (data_ b) (strong_count_ b) (weak_count_ b) (dyn b)
          (delete_data_calls b) (S (delete_block_calls b)).

(** Storage holds a block object from its construction to [delete_block]. *)
Definition live (b : ControlBlockBase) : bool :=
  match delete_block_calls b with O => true | S _ => false end.

(** ** Program state *)

Record state := mkState {
  blocks : gmap loc ControlBlockBase;
  objects : gmap N T;                    (* objects made by new *)
  shared_ptrs : gmap var (option loc);   (* SharedPtr::ctl_block_ *)
  weak_ptrs : gmap var (option loc);     (* WeakPtr::ctl_block_ *)
  new_calls : nat;
  allocate_calls : nat;
  deallocate_calls : nat
}.

Definition initial : state := mkState ∅ ∅ ∅ ∅ 0 0 0.

Definition with_blocks (m : gmap loc ControlBlockBase) (σ : state) :=
  mkState m (objects σ) (shared_ptrs σ) (weak_ptrs σ)
          (new_calls σ) (allocate_calls σ) (deallocate_calls σ).
Definition with_objects (m : gmap N T) (σ : state) :=
  mkState (blocks σ) m (shared_ptrs σ) (weak_ptrs σ)
          (new_calls σ) (allocate_calls σ) (deallocate_calls σ).
Definition with_shared_ptrs (m : gmap var (option loc)) (σ : state) :=
  mkState (blocks σ) (objects σ) m (weak_ptrs σ)
          (new_calls σ) (allocate_calls σ) (deallocate_calls σ).
Definition with_weak_ptrs (m : gmap var (option loc)) (σ : state) :=
  mkState (blocks σ) (objects σ) (shared_ptrs σ) m
          (new_calls σ) (allocate_calls σ) (deallocate_calls σ).
Definition count_new (σ : state) :=
  mkState (blocks σ) (objects σ) (shared_ptrs σ) (weak_ptrs σ)
          (S (new_calls σ)) (allocate_calls σ) (deallocate_calls σ).
Definition count_allocate (σ : state) :=
  mkState (blocks σ) (objects σ) (shared_ptrs σ) (weak_ptrs σ)
          (new_calls σ) (S (allocate_calls σ)) (deallocate_calls σ).
Definition count_deallocate (σ : state) :=
  mkState (blocks σ) (objects σ) (shared_ptrs σ) (weak_ptrs σ)
          (new_calls σ) (allocate_calls σ) (S (deallocate_calls σ)).

(** ** Outcomes and the monad *)

Inductive result (A : Type) :=
| Ok (a : A)
| AssertionFailed      (* a failed assert: the program aborts *)
| UndefinedBehavior    (* a read through a null, dangling or missing object *)
| BadAlloc.            (* thrown by the allocator *)
Arguments Ok {A} a.
Arguments AssertionFailed {A}.
Arguments UndefinedBehavior {A}.
Arguments BadAlloc {A}.

Definition M (A : Type) : Type := state → result (A * state).

Global Instance M_ret : MRet M := λ A a σ, Ok (a, σ).
Global Instance M_bind : MBind M := λ A B f m σ,
  match m σ with
  | Ok (a, σ') => f a σ'
  | AssertionFailed => AssertionFailed
  | UndefinedBehavior => UndefinedBehavior
  | BadAlloc => BadAlloc
  end.

Definition assert (c : bool) : M unit := λ σ,
  if c then Ok (tt, σ) else AssertionFailed.

Definition undefined {A} : M A := λ _, UndefinedBehavior.

(** Access to the block object at [l]. *)
Definition load (l : loc) : M ControlBlockBase := λ σ,
  match blocks σ !! l with
  | Some b => if live b then Ok (b, σ) else UndefinedBehavior
  | None => UndefinedBehavior
  end.

Definition store (l : loc) (b : ControlBlockBase) : M unit := λ σ,
  Ok (tt, with_blocks (<[l := b]> (blocks σ)) σ).

Definition modify (l : loc) (f : ControlBlockBase → ControlBlockBase) : M unit :=
  b ← load l; store l (f b).

Definition get_objects : M (gmap N T) := λ σ, Ok (objects σ, σ).

Definition set_objects (objs : gmap N T) : M unit := λ σ,
  Ok (tt, with_objects objs σ).

(** [new T(v)], as the callers of the raw-pointer constructor write it. *)
Definition operator_new (v : T) : M pointer := λ σ,
  let a := fresh (dom (objects σ)) in
  Ok (object a, count_new (with_objects (<[a := v]> (objects σ)) σ)).

(** An allocator picks the address of the unit it hands out, or throws. *)
Definition Alloc := state → option loc.

(** [allocator_traits::allocate(alloc, 1)]. *)
Definition allocate (alloc : Alloc) : M loc := λ σ,
  match alloc σ with
  | Some l => Ok (l, count_allocate σ)
  | None => BadAlloc
  end.

(** [allocator_traits::deallocate(alloc, this, 1)]. *)
Definition deallocate (l : loc) : M unit := λ σ,
  Ok (tt, count_deallocate σ).

(** [std::allocator]: storage that holds no block object. *)
Definition std_allocator : Alloc := λ σ,
  Some (fresh (dom (filter (λ kv, live kv.2 = true) (blocks σ)))).

(** ** ControlBlockBase (SmartPointers.hpp) *)

Module ControlBlockBase.

Definition get_use_count (this : loc) : M N :=
  b ← load this; mret (strong_count_ b).

Definition is_valid (this : loc) : M bool :=
  n ← get_use_count this; mret (0 <? n).

Definition add_strong_link (this : loc) : M unit :=
  modify this (λ b, with_strong (incr (strong_count_ b)) b).

Definition add_weak_link (this : loc) : M unit :=
  modify this (λ b, with_weak (incr (weak_count_ b)) b).

(** The virtual [delete_data]: PtrControlBlock calls the deleter on the
    stored pointer, ValueControlBlock runs [value.~T()], which is
    undefined on a value whose lifetime has ended. *)
Definition delete_data (this : loc) : M unit :=
  b ← load this;
  match dyn b with
  | PtrControlBlock deleter =>
      objs ← get_objects;
      match deleter (data_ b) objs with
      | Some objs' => set_objects objs'
      | None => undefined
      end;;
      modify this data_deleted
  | ValueControlBlock (Some _) =>
      modify this (λ b, data_deleted (with_dyn (ValueControlBlock None) b))
  | ValueControlBlock None => undefined
  end.

(** The virtual [delete_block], the same in both derived classes:
    destroy [*this], then deallocate the unit. *)
Definition delete_block (this : loc) : M unit :=
  modify this block_deleted;;
  deallocate this.

Definition remove_strong_link (this : loc) : M unit :=
  v ← is_valid this;
  assert v;;
  modify this (λ b, with_strong (decr (strong_count_ b)) b);;
  b ← load this;
  if strong_count_ b =? 0 then
    delete_data this;;
    b ← load this;
    if weak_count_ b =? 0 then delete_block this else mret tt
  else mret tt.

Definition remove_weak_link (this : loc) : M unit :=
  v ← is_valid this;
  b ← load this;
  assert (v || (0 <? weak_count_ b));;
  modify this (λ b, with_weak (decr (weak_count_ b)) b);;
  b ← load this;
  if (strong_count_ b =? 0) && (weak_count_ b =? 0)
  then delete_block this
  else mret tt.

Definition get_data (this : loc) : M pointer :=
  b ← load this; mret (data_ b).

Definition set_data (this : loc) (data : pointer) : M unit :=
  modify this (with_data data).

End ControlBlockBase.

(** ** PtrControlBlock and ValueControlBlock (SmartPointers.ipp) *)

Module PtrControlBlock.

(** The constructor: [ControlBlockBase(ptr)], counts from their default
    member initialisers. *)
Definition ctor (ptr : pointer) (deleter : Deleter) : ControlBlockBase :=
  mkBlock ptr 0 0 (PtrControlBlock deleter) 0 0.

Definition make_block (data : pointer) (deleter : Deleter) (alloc : Alloc)
  : M loc :=
  block ← allocate alloc;
  store block (ctor data deleter);;
  mret block.

End PtrControlBlock.

Module ValueControlBlock.

(** The constructor: [ControlBlockBase(nullptr)], [value(args...)], and
    [set_data(&value)] in its body.  [v] is the value [T(args...)]. *)
Definition ctor (this : loc) (v : T) : M unit :=
  store this (mkBlock nullptr 0 0 (ValueControlBlock (Some v)) 0 0);;
  ControlBlockBase.set_data this (embedded this).

Definition make_block (alloc : Alloc) (v : T) : M loc :=
  block ← allocate alloc;
  ctor block v;;
  mret block.

End ValueControlBlock.

(** Reading [*p] for a [T* p]. *)
Definition read (p : pointer) : M T := λ σ,
  match p with
  | nullptr => UndefinedBehavior
  | object a =>
      match objects σ !! a with
      | Some v => Ok (v, σ)
      | None => UndefinedBehavior
      end
  | embedded l =>
      match blocks σ !! l with
      | Some b =>
          match live b, dyn b with
          | true, ValueControlBlock (Some v) => Ok (v, σ)
          | _, _ => UndefinedBehavior
          end
      | None => UndefinedBehavior
      end
  end.

(** Writing [*p = v] for a [T* p]. *)
Definition write (p : pointer) (v : T) : M unit := λ σ,
  match p with
  | nullptr => UndefinedBehavior
  | object a =>
      match objects σ !! a with
      | Some _ => Ok (tt, with_objects (<[a := v]> (objects σ)) σ)
      | None => UndefinedBehavior
      end
  | embedded l =>
      match blocks σ !! l with
      | Some b =>
          match live b, dyn b with
          | true, ValueControlBlock (Some _) =>
              Ok (tt, with_blocks
                        (<[l := with_dyn (ValueControlBlock (Some v)) b]> (blocks σ)) σ)
          | _, _ => UndefinedBehavior
          end
      | None => UndefinedBehavior
      end
  end.

(** ** SharedPtr (SmartPointers.hpp) *)

Module SharedPtr.

(** Reading and writing the member [ctl_block_] of the handle at [this]. *)
Definition ctl_block_ (this : var) : M (option loc) := λ σ,
  match shared_ptrs σ !! this with
  | Some c => Ok (c, σ)
  | None => UndefinedBehavior
  end.

Definition set_ctl_block_ (this : var) (c : option loc) : M unit := λ σ,
  Ok (tt, with_shared_ptrs (<[this := c]> (shared_ptrs σ)) σ).

(** The end of the lifetime of the handle object. *)
Definition destroy (this : var) : M unit := λ σ,
  Ok (tt, with_shared_ptrs (delete this (shared_ptrs σ)) σ).

(** [SharedPtr()] and [SharedPtr(std::nullptr_t)]. *)
Definition ctor_default (this : var) : M unit :=
  set_ctl_block_ this None.

(** The private [SharedPtr(detail::ControlBlockBase* ctl_block)]. *)
Definition ctor_block (this : var) (ctl_block : option loc) : M unit :=
  set_ctl_block_ this ctl_block;;
  match ctl_block with
  | Some l => ControlBlockBase.add_strong_link l
  | None => mret tt
  end.

Definition reset (this : var) : M unit :=
  c ← ctl_block_ this;
  match c with
  | Some l => ControlBlockBase.remove_strong_link l
  | None => mret tt
  end;;
  set_ctl_block_ this None.

(** [SharedPtr(const SharedPtr&)] and [SharedPtr(const SharedPtr<U>&)]. *)
Definition ctor_copy (this other : var) : M unit :=
  c ← ctl_block_ other;
  ctor_block this c.

(** [operator=(const SharedPtr&)]. *)
Definition assign_copy (this other : var) : M unit :=
  if bool_decide (this = other) then mret tt
  else
    reset this;;
    c ← ctl_block_ other;
    set_ctl_block_ this c;;
    match c with
    | Some l => ControlBlockBase.add_strong_link l
    | None => undefined
    end.

(** [SharedPtr(SharedPtr&&)] and [SharedPtr(SharedPtr<U>&&)]. *)
Definition ctor_move (this other : var) : M unit :=
  c ← ctl_block_ other;
  ctor_block this c;;
  reset other.

(** [std::swap(ctl_block_, other.ctl_block_)]. *)
Definition swap_ctl_block_ (this other : var) : M unit :=
  a ← ctl_block_ this;
  b ← ctl_block_ other;
  set_ctl_block_ this b;;
  set_ctl_block_ other a.

(** [operator=(SharedPtr&&)]. *)
Definition assign_move (this other : var) : M unit :=
  if bool_decide (this = other) then mret tt
  else
    reset this;;
    swap_ctl_block_ this other.

(** [SharedPtr(T*, Deleter, Alloc)] and [SharedPtr(U*, Deleter, Alloc)]. *)
Definition ctor_ptr (this : var) (ptr : pointer) (deleter : Deleter)
    (alloc : Alloc) : M unit :=
  block ← PtrControlBlock.make_block ptr deleter alloc;
  ctor_block this (Some block).

(** The template [operator=(const SharedPtr<U>&)]. *)
Definition assign_copy_U (this other : var) : M unit :=
  reset this;;
  c ← ctl_block_ other;
  set_ctl_block_ this c;;
  match c with
  | Some l => ControlBlockBase.add_strong_link l
  | None => undefined
  end.

(** The template [operator=(SharedPtr<U>&&)]. *)
Definition assign_move_U (this other : var) : M unit :=
  reset this;;
  swap_ctl_block_ this other.

(** [~SharedPtr()]. *)
Definition dtor (this : var) : M unit :=
  reset this;;
  destroy this.

Definition use_count (this : var) : M N :=
  c ← ctl_block_ this;
  match c with
  | None => mret 0
  | Some l => ControlBlockBase.get_use_count l
  end.

Definition get (this : var) : M pointer :=
  c ← ctl_block_ this;
  match c with
  | None => mret nullptr
  | Some l => ControlBlockBase.get_data l
  end.

(** [operator*], read as an rvalue. *)
Definition deref (this : var) : M T :=
  c ← ctl_block_ this;
  assert (bool_decide (c ≠ None));;
  match c with
  | Some l =>
      v ← ControlBlockBase.is_valid l;
      assert v;;
      p ← ControlBlockBase.get_data l;
      read p
  | None => undefined
  end.

(** [operator*], assigned through: [*this = v]. *)
Definition deref_assign (this : var) (v : T) : M unit :=
  c ← ctl_block_ this;
  assert (bool_decide (c ≠ None));;
  match c with
  | Some l =>
      ok ← ControlBlockBase.is_valid l;
      assert ok;;
      p ← ControlBlockBase.get_data l;
      write p v
  | None => undefined
  end.

End SharedPtr.

(** [AllocateShared<T>(alloc, args...)] and [MakeShared<T>(args...)]; the
    returned handle is constructed at [ret]. *)
Definition AllocateShared (ret : var) (alloc : Alloc) (v : T) : M unit :=
  block ← ValueControlBlock.make_block alloc v;
  SharedPtr.ctor_block ret (Some block).

Definition MakeShared (ret : var) (v : T) : M unit :=
  AllocateShared ret std_allocator v.

(** ** WeakPtr (SmartPointers.hpp) *)

Module WeakPtr.

Definition ctl_block_ (this : var) : M (option loc) := λ σ,
  match weak_ptrs σ !! this with
  | Some c => Ok (c, σ)
  | None => UndefinedBehavior
  end.

Definition set_ctl_block_ (this : var) (c : option loc) : M unit := λ σ,
  Ok (tt, with_weak_ptrs (<[this := c]> (weak_ptrs σ)) σ).

Definition destroy (this : var) : M unit := λ σ,
  Ok (tt, with_weak_ptrs (delete this (weak_ptrs σ)) σ).

(** The private [WeakPtr(detail::ControlBlockBase* ctl_block)]. *)
Definition ctor_block (this : var) (ctl_block : option loc) : M unit :=
  set_ctl_block_ this ctl_block;;
  match ctl_block with
  | Some l => ControlBlockBase.add_weak_link l
  | None => mret tt
  end.

(** [WeakPtr()]. *)
Definition ctor_default (this : var) : M unit :=
  ctor_block this None.

Definition reset (this : var) : M unit :=
  c ← ctl_block_ this;
  match c with
  | Some l =>
      ControlBlockBase.remove_weak_link l;;
      set_ctl_block_ this None
  | None => mret tt
  end.

(** The member template [WeakPtr(const WeakPtr<U>&)].  A template is
    never the copy constructor: for [U = T] overload resolution prefers
    the implicit one below, and for another [U] the body does not
    compile, [ctl_block_] being private; no program runs this body. *)
Definition ctor_copy_U (this other : var) : M unit :=
  c ← ctl_block_ other;
  ctor_block this c.

(** The member template [operator=(const WeakPtr<U>&)].  It is not the
    copy assignment operator either; a program reaches it only by
    naming it, [w.operator=<T>(v)]. *)
Definition assign_copy_U (this other : var) : M unit :=
  reset this;;
  c ← ctl_block_ other;
  set_ctl_block_ this c;;
  match c with
  | Some l => ControlBlockBase.add_weak_link l
  | None => undefined
  end.

(** The copy constructor that the class has implicitly, as it declares
    none: [WeakPtr<T> w2(w)] copies the member [ctl_block_]. *)
Definition ctor_copy (this other : var) : M unit :=
  c ← ctl_block_ other;
  set_ctl_block_ this c.

(** The implicit copy assignment operator, which [w2 = w] calls: it
    assigns the member [ctl_block_]. *)
Definition assign_copy (this other : var) : M unit :=
  c ← ctl_block_ other;
  set_ctl_block_ this c.

(** [WeakPtr(WeakPtr<U>&&)]. *)
Definition ctor_move (this other : var) : M unit :=
  c ← ctl_block_ other;
  ctor_block this c;;
  reset other.

Definition swap_ctl_block_ (this other : var) : M unit :=
  a ← ctl_block_ this;
  b ← ctl_block_ other;
  set_ctl_block_ this b;;
  set_ctl_block_ other a.

(** [operator=(WeakPtr<U>&&)]. *)
Definition assign_move (this other : var) : M unit :=
  reset this;;
  swap_ctl_block_ this other.

(** [WeakPtr(const SharedPtr<U>& owner)]. *)
Definition ctor_owner (this owner : var) : M unit :=
  c ← SharedPtr.ctl_block_ owner;
  ctor_block this c.

(** [~WeakPtr()]. *)
Definition dtor (this : var) : M unit :=
  reset this;;
  destroy this.

Definition expired (this : var) : M bool :=
  c ← ctl_block_ this;
  match c with
  | None => mret true
  | Some l => v ← ControlBlockBase.is_valid l; mret (negb v)
  end.

(** [lock()]; the returned SharedPtr is constructed at [ret]. *)
Definition lock (this ret : var) : M unit :=
  c ← ctl_block_ this;
  SharedPtr.ctor_block ret c.

End WeakPtr.

(** ** Programs over the handles

    One operation that a program performs on named handle objects: a
    public member function of SharedPtr or WeakPtr, [AllocateShared],
    or one of the two copies that WeakPtr has implicitly.
    [SharedFromNew] is [SharedPtr<T> p(new T(v), deleter, alloc)].
    [WeakCopy] and [WeakAssignCopy] are [WeakPtr<T> w2(w)] and
    [w2 = w], which run the implicit copy constructor and copy
    assignment operator; [WeakAssignCopyU] is the member template called
    by name, [w2.operator=<T>(w)].  A move of a WeakPtr does run the
    member templates, an rvalue binding better to their parameter than
    to that of the implicit copy.  A constructor runs on storage that
    holds no live handle of its class; that is what the language gives a
    variable or a temporary. *)

Inductive op :=
| SharedDefault (this : var)
| SharedFromPtr (this : var) (ptr : pointer) (deleter : Deleter) (alloc : Alloc)
| SharedFromNew (this : var) (v : T) (deleter : Deleter) (alloc : Alloc)
| SharedAllocate (this : var) (alloc : Alloc) (v : T)
| SharedCopy (this other : var)
| SharedMove (this other : var)
| SharedAssignCopy (this other : var)
| SharedAssignMove (this other : var)
| SharedAssignCopyU (this other : var)
| SharedAssignMoveU (this other : var)
| SharedReset (this : var)
| SharedDtor (this : var)
| WeakDefault (this : var)
| WeakFromShared (this owner : var)
| WeakCopy (this other : var)
| WeakMove (this other : var)
| WeakAssignCopy (this other : var)
| WeakAssignCopyU (this other : var)
| WeakAssignMove (this other : var)
| WeakReset (this : var)
| WeakDtor (this : var)
| WeakLock (this ret : var).

Definition new_shared (this : var) (ctor : M unit) : M unit := λ σ,
  match shared_ptrs σ !! this with
  | None => ctor σ
  | Some _ => UndefinedBehavior
  end.

Definition new_weak (this : var) (ctor : M unit) : M unit := λ σ,
  match weak_ptrs σ !! this with
  | None => ctor σ
  | Some _ => UndefinedBehavior
  end.

Definition step (o : op) : M unit :=
  match o with
  | SharedDefault this => new_shared this (SharedPtr.ctor_default this)
  | SharedFromPtr this ptr deleter alloc =>
      new_shared this (SharedPtr.ctor_ptr this ptr deleter alloc)
  | SharedFromNew this v deleter alloc =>
      new_shared this (ptr ← operator_new v;
                       SharedPtr.ctor_ptr this ptr deleter alloc)
  | SharedAllocate this alloc v => new_shared this (AllocateShared this alloc v)
  | SharedCopy this other => new_shared this (SharedPtr.ctor_copy this other)
  | SharedMove this other => new_shared this (SharedPtr.ctor_move this other)
  | SharedAssignCopy this other => SharedPtr.assign_copy this other
  | SharedAssignMove this other => SharedPtr.assign_move this other
  | SharedAssignCopyU this other => SharedPtr.assign_copy_U this other
  | SharedAssignMoveU this other => SharedPtr.assign_move_U this other
  | SharedReset this => SharedPtr.reset this
  | SharedDtor this => SharedPtr.dtor this
  | WeakDefault this => new_weak this (WeakPtr.ctor_default this)
  | WeakFromShared this owner => new_weak this (WeakPtr.ctor_owner this owner)
  | WeakCopy this other => new_weak this (WeakPtr.ctor_copy this other)
  | WeakMove this other => new_weak this (WeakPtr.ctor_move this other)
  | WeakAssignCopy this other => WeakPtr.assign_copy this other
  | WeakAssignCopyU this other => WeakPtr.assign_copy_U this other
  | WeakAssignMove this other => WeakPtr.assign_move this other
  | WeakReset this => WeakPtr.reset this
  | WeakDtor this => WeakPtr.dtor this
  | WeakLock this ret => new_shared ret (WeakPtr.lock this ret)
  end.

Fixpoint exec (ops : list op) : M unit :=
  match ops with
  | [] => mret tt
  | o :: ops => step o;; exec ops
  end.

(** An allocator never hands out storage that still holds a block. *)
Definition sound_alloc (alloc : Alloc) : Prop :=
  ∀ σ l b, alloc σ = Some l → blocks σ !! l = Some b → live b = false.

Definition sound_op (o : op) : Prop :=
  match o with
  | SharedFromPtr _ _ _ alloc | SharedFromNew _ _ _ alloc
  | SharedAllocate _ alloc _ => sound_alloc alloc
  | _ => True
  end.

(** The number of live SharedPtr handles whose [ctl_block_] is [l]. *)
Definition strong_handles (l : loc) (sp : gmap var (option loc)) : nat :=
  size (filter (λ kv, kv.2 = Some l) sp).

(** ** Reasoning about computations in [M] *)

(** Partial correctness: every result of [m] from [σ] satisfies [Q]. *)
Definition wp {A} (m : M A) (Q : A → state → Prop) (σ : state) : Prop :=
  ∀ a σ', m σ = Ok (a, σ') → Q a σ'.

Definition hoare {A} (P : state → Prop) (m : M A) (Q : A → state → Prop) :=
  ∀ σ, P σ → wp m Q σ.

(** ** ControlBlockBase as SharedPtr.hpp declares it

    The older, declaration-only header starts a block at strong count 1
    and keeps assertions that SmartPointers.hpp, where a block starts at
    strong count 0, no longer has. *)

Module SharedPtr_hpp.

Definition add_strong_link (this : loc) : M unit :=
  v ← ControlBlockBase.is_valid this;
  assert v;;
  modify this (λ b, with_strong (incr (strong_count_ b)) b).

Definition add_weak_link (this : loc) : M unit :=
  v ← ControlBlockBase.is_valid this;
  b ← load this;
  assert (v || (0 <? weak_count_ b));;
  modify this (λ b, with_weak (incr (weak_count_ b)) b).

End SharedPtr_hpp.

(** ** Invariants *)

(** The state after an operation on the block at [l]: that block is
    replaced by [b'], the two handle stores are untouched. *)
Definition block_update (σ σ' : state) (l : loc) (b' : ControlBlockBase) :=
  blocks σ' = <[l := b']> (blocks σ) ∧
  shared_ptrs σ' = shared_ptrs σ ∧
  weak_ptrs σ' = weak_ptrs σ.

(** Every block that has not been freed counts exactly the SharedPtr
    handles pointing at it, and no SharedPtr points at freed storage. *)
Record counted (bs : gmap loc ControlBlockBase) (sp : gmap var (option loc))
  : Prop := mkCounted {
  counted_strong : ∀ l b, bs !! l = Some b → live b = true →
    strong_count_ b = N.of_nat (strong_handles l sp);
  counted_live : ∀ l, (0 < strong_handles l sp)%nat →
    ∃ b, bs !! l = Some b ∧ live b = true
}.

(** The invariant carried along a program: the counts are right and the
    number of SharedPtr objects stays below the range of size_t. *)
Definition Inv (n : nat) (σ : state) : Prop :=
  counted (blocks σ) (shared_ptrs σ) ∧ (size (shared_ptrs σ) ≤ n)%nat.

(** Computations that touch no SharedPtr and no strong count. *)
Definition strong_neutral {A} (m : M A) : Prop :=
  ∀ σ, wp m (λ _ σ', shared_ptrs σ' = shared_ptrs σ ∧
                     ∀ sp, counted (blocks σ) sp → counted (blocks σ') sp) σ.

(** The state after the raw-pointer constructor: one allocation, the new
    block stored at the address the allocator gave, then its first strong
    link. *)
Definition after_ctor_ptr (σ : state) (this : var) (ptr : pointer)
    (deleter : Deleter) (l : loc) : state :=
  with_blocks
    (<[l := with_strong 1 (PtrControlBlock.ctor ptr deleter)]>
       (<[l := PtrControlBlock.ctor ptr deleter]> (blocks σ)))
    (with_shared_ptrs (<[this := Some l]> (shared_ptrs σ))
       (with_blocks (<[l := PtrControlBlock.ctor ptr deleter]> (blocks σ))
          (count_allocate σ))).

(** ** The control block as a state machine

    The four mutators of ControlBlockBase, and the runs of them on the
    block at [l] in which every call is one its caller is entitled to:
    a link is added to a block that is valid (or, for a weak link, has
    weak links), a link is removed only where there is one, and no count
    is at SIZE_MAX when it is incremented. *)

Inductive mutator := AddStrong | AddWeak | RemoveStrong | RemoveWeak.

Definition call (m : mutator) (this : loc) : M unit :=
  match m with
  | AddStrong => ControlBlockBase.add_strong_link this
  | AddWeak => ControlBlockBase.add_weak_link this
  | RemoveStrong => ControlBlockBase.remove_strong_link this
  | RemoveWeak => ControlBlockBase.remove_weak_link this
  end.

Definition entitled (m : mutator) (b : ControlBlockBase) : bool :=
  match m with
  | AddStrong => (0 <? strong_count_ b) && (strong_count_ b <? SIZE_MAX)
  | AddWeak =>
      ((0 <? strong_count_ b) || (0 <? weak_count_ b))
      && (weak_count_ b <? SIZE_MAX)
  | RemoveStrong => 0 <? strong_count_ b
  | RemoveWeak => 0 <? weak_count_ b
  end.

Inductive reaches (l : loc) : state → state → Prop :=
| reaches_refl σ : reaches l σ σ
| reaches_step σ σ1 σ2 m b :
    reaches l σ σ1 →
    blocks σ1 !! l = Some b → live b = true → entitled m b = true →
    call m l σ1 = Ok (tt, σ2) →
    reaches l σ σ2.

(** The value is destroyed, once, exactly at strong count 0, and the
    block is freed exactly when both counts are 0. *)
Definition destroyed_as_counted (b : ControlBlockBase) : Prop :=
  strong_count_ b ≤ SIZE_MAX ∧ weak_count_ b ≤ SIZE_MAX ∧
  delete_data_calls b = (if (strong_count_ b =? 0)%N then 1 else 0)%nat ∧
  delete_block_calls b
  = (if ((strong_count_ b =? 0) && (weak_count_ b =? 0))%N then 1 else 0)%nat.

(** ** Concrete programs and states *)

(** The scenario of the specification: a SharedPtr, a WeakPtr taken
    from it, and the SharedPtr reset. *)
Definition expire_prog : M unit :=
  p ← operator_new 1%Z;
  SharedPtr.ctor_ptr "a" p DefaultDelete std_allocator;;
  WeakPtr.ctor_owner "w" "a";;
  SharedPtr.reset "a".

(** A state in which [w] outlives the last SharedPtr of its block. *)
Definition dead_block : ControlBlockBase :=
  mkBlock (object 0) 0 1 (PtrControlBlock DefaultDelete) 1 0.

Definition expired_state : state :=
  mkState {[ 1%positive := dead_block ]} ∅ {[ "a" := None ]}
          {[ "w" := Some 1%positive ]} 1 1 0.

(** A state with one SharedPtr, the only owner of its block. *)
Definition sole_owner_state : state :=
  mkState {[ 1%positive := mkBlock (object 0) 1 0 (PtrControlBlock DefaultDelete) 0 0 ]}
          {[ 0 := 1%Z ]} {[ "p" := Some 1%positive ]} ∅ 1 1 0.

(** A program for the witness: [a] from a raw pointer, two copies, a
    copy-assignment, a move, a weak pointer and a reset. *)
Definition sample_ops : list op :=
  [ SharedFromPtr "a" (object 0) DefaultDelete std_allocator;
    SharedCopy "b" "a";
    SharedDefault "c";
    SharedAssignCopy "c" "a";
    SharedMove "d" "b";
    WeakFromShared "w" "a";
    SharedReset "a";
    SharedAllocate "e" std_allocator 5%Z ].

Definition sample_state : state :=
  match exec sample_ops initial with
  | Ok (_, σ) => σ
  | _ => initial
  end.

(** [main] of src/Main.cpp, up to what it prints. *)
Definition main_moved_from : M (T * N) :=
  raw ← operator_new 10%Z;
  new_shared "ptr" (SharedPtr.ctor_ptr "ptr" raw DefaultDelete std_allocator);;
  new_shared "ptr2" (SharedPtr.ctor_move "ptr2" "ptr");;
  v ← SharedPtr.deref "ptr";
  n ← SharedPtr.use_count "ptr";
  mret (v, n).

(** The other [main] of the repository, up to what it prints. *)
Definition main_copies : M (T * N) :=
  raw ← operator_new 1%Z;
  new_shared "ptr" (SharedPtr.ctor_ptr "ptr" raw DefaultDelete std_allocator);;
  SharedPtr.deref_assign "ptr" 3%Z;;
  new_shared "copy" (SharedPtr.ctor_copy "copy" "ptr");;
  new_shared "copy2" (SharedPtr.ctor_default "copy2");;
  SharedPtr.assign_copy "copy" "ptr";;
  v ← SharedPtr.deref "ptr";
  n ← SharedPtr.use_count "ptr";
  mret (v, n).

(** The block of a SharedPtr that is being constructed from a raw
    pointer, between [make_block] and the first [add_strong_link]. *)
Definition new_block_state : state :=
  mkState {[ 1%positive := PtrControlBlock.ctor (object 0) DefaultDelete ]} {[ 0 := 1%Z ]}
          {[ "a" := Some 1%positive ]} ∅ 1 1 0.

(** Empty handles of both classes. *)
Definition empty_handles_state : state :=
  mkState ∅ ∅ {[ "a" := None; "b" := None ]} {[ "v" := None; "w" := None ]} 0 0 0.

(** Three SharedPtr objects on two blocks, and an empty one. *)
Definition two_block_state : state :=
  mkState {[ 1%positive := mkBlock (object 0) 2 0 (PtrControlBlock DefaultDelete) 0 0;
             2%positive := mkBlock (object 1) 1 0 (PtrControlBlock DefaultDelete) 0 0 ]}
          {[ 0 := 10%Z; 1 := 20%Z ]}
          {[ "a" := Some 1%positive; "b" := Some 1%positive;
             "c" := Some 2%positive; "e" := None ]}
          ∅ 2 2 0.

(** ** The states after the removal of a link *)

(** The block once [delete_data] has run on it, and the objects after
    that call; there are none where the value cannot be destroyed: the
    deleter does not apply, or the embedded value is gone. *)
Definition value_deleted (b : ControlBlockBase) : ControlBlockBase :=
  data_deleted
    match dyn b with
    | PtrControlBlock _ => b
    | ValueControlBlock _ => with_dyn (ValueControlBlock None) b
    end.

Definition objects_after_delete (b : ControlBlockBase) (objs : gmap N T)
  : option (gmap N T) :=
  match dyn b with
  | PtrControlBlock deleter => deleter (data_ b) objs
  | ValueControlBlock (Some _) => Some objs
  | ValueControlBlock None => None
  end.

(** The state after [remove_strong_link] on the block [b] at [l], where
    the last link is not removed from a value that cannot be destroyed. *)
Definition after_remove_strong (σ : state) (l : loc) (b : ControlBlockBase)
  : state :=
  let b1 := with_strong (strong_count_ b - 1) b in
  if strong_count_ b =? 1 then
    let b2 := value_deleted b1 in
    let σ2 := with_blocks (<[l := b2]> (blocks σ))
                (with_objects
                   (default (objects σ) (objects_after_delete b (objects σ))) σ) in
    if weak_count_ b =? 0
    then count_deallocate (with_blocks (<[l := block_deleted b2]> (blocks σ)) σ2)
    else σ2
  else with_blocks (<[l := b1]> (blocks σ)) σ.

(** The state after [remove_weak_link] on the block [b] at [l]. *)
Definition after_remove_weak (σ : state) (l : loc) (b : ControlBlockBase)
  : state :=
  let b1 := with_weak (weak_count_ b - 1) b in
  if (strong_count_ b =? 0) && (weak_count_ b =? 1)
  then count_deallocate (with_blocks (<[l := block_deleted b1]> (blocks σ)) σ)
  else with_blocks (<[l := b1]> (blocks σ)) σ.

(** A SharedPtr [a] that alone owns a block, and no WeakPtr. *)
Definition value_owner_state : state :=
  mkState {[ 1%positive := mkBlock (embedded 1%positive) 1 0
                             (ValueControlBlock (Some 5%Z)) 0 0 ]}
          ∅ {[ "a" := Some 1%positive ]} ∅ 0 1 0.

(** ** What a WeakPtr leaves alone *)

(** From [σ] to [σ'] no managed object, no SharedPtr and no allocation
    count has changed, and every block has its strong count, its data
    pointer, its deleter or embedded value and its number of
    [delete_data] calls. *)
Definition value_untouched (σ σ' : state) : Prop :=
  objects σ' = objects σ ∧
  shared_ptrs σ' = shared_ptrs σ ∧
  new_calls σ' = new_calls σ ∧
  allocate_calls σ' = allocate_calls σ ∧
  ∀ l b', blocks σ' !! l = Some b' →
    ∃ b, blocks σ !! l = Some b ∧
         strong_count_ b' = strong_count_ b ∧
         data_ b' = data_ b ∧
         dyn b' = dyn b ∧
         delete_data_calls b' = delete_data_calls b.

Definition value_neutral {A} (m : M A) : Prop :=
  ∀ σ, wp m (λ _ σ', value_untouched σ σ') σ.

(** The operations of WeakPtr other than [lock()]. *)
Definition weak_only (o : op) : bool :=
  match o with
  | WeakDefault _ | WeakFromShared _ _ | WeakCopy _ _ | WeakMove _ _
  | WeakAssignCopy _ _ | WeakAssignCopyU _ _ | WeakAssignMove _ _
  | WeakReset _ | WeakDtor _ => true
  | _ => false
  end.

(** A block with a WeakPtr on it and two SharedPtr objects. *)
Definition weak_state : state :=
  mkState {[ 1%positive := mkBlock (object 0) 2 1 (PtrControlBlock DefaultDelete) 0 0 ]}
          {[ 0 := 10%Z ]}
          {[ "a" := Some 1%positive; "b" := Some 1%positive ]}
          {[ "w" := Some 1%positive ]} 1 1 0.

(** ** Both counts, and the lifetime of a block *)

(** The number of live WeakPtr handles whose [ctl_block_] is [l]. *)
Definition weak_handles (l : loc) (wp : gmap var (option loc)) : nat :=
  size (filter (λ kv, kv.2 = Some l) wp).

(** The number of control blocks that have been made and not freed. *)
Definition live_blocks (bs : gmap loc ControlBlockBase) : nat :=
  size (filter (λ kv, live kv.2 = true) bs).

(** Every block that has not been freed counts the SharedPtr and the
    WeakPtr objects that point at it and is pointed at by one at least;
    no handle of either class points at freed storage. *)
Record tracked (bs : gmap loc ControlBlockBase) (sp wp : gmap var (option loc))
  : Prop := mkTracked {
  tracked_strong : ∀ l b, bs !! l = Some b → live b = true →
    strong_count_ b = N.of_nat (strong_handles l sp);
  tracked_weak : ∀ l b, bs !! l = Some b → live b = true →
    weak_count_ b = N.of_nat (weak_handles l wp);
  tracked_used : ∀ l b, bs !! l = Some b → live b = true →
    (0 < strong_handles l sp + weak_handles l wp)%nat;
  tracked_live : ∀ l, (0 < strong_handles l sp + weak_handles l wp)%nat →
    ∃ b, bs !! l = Some b ∧ live b = true
}.

(** The invariant of a program: the handles are tracked, every unit
    that was allocated is either deallocated or a block that is not
    freed, and there are at most [n] handles of each class. *)
Definition Tracked (n : nat) (σ : state) : Prop :=
  tracked (blocks σ) (shared_ptrs σ) (weak_ptrs σ) ∧
  allocate_calls σ = (deallocate_calls σ + live_blocks (blocks σ))%nat ∧
  (size (shared_ptrs σ) ≤ n)%nat ∧
  (size (weak_ptrs σ) ≤ n)%nat.

(** Whether the storage at [l] holds a block that is not freed. *)
Definition live_at (bs : gmap loc ControlBlockBase) (l : loc) : bool :=
  match bs !! l with
  | Some b => live b
  | None => false
  end.

(** ** Calls a program may make *)

(** A handle object of the class lives at [h]. *)
Definition handle_at (m : gmap var (option loc)) (h : var) : bool :=
  match m !! h with
  | Some _ => true
  | None => false
  end.

(** A handle object lives at [h] and its [ctl_block_] is not null. *)
Definition holds_block (m : gmap var (option loc)) (h : var) : bool :=
  match m !! h with
  | Some (Some _) => true
  | _ => false
  end.

(** What a call takes for granted: a constructor runs on storage that
    holds no handle of its class, every other handle it names is a live
    object, the allocator hands out a unit, and the source of a
    copy-assignment that goes through the block holds one; the template
    assignment operators that copy are given another object than
    [*this]. *)
Definition ready (o : op) (σ : state) : bool :=
  match o with
  | SharedDefault this => negb (handle_at (shared_ptrs σ) this)
  | SharedFromPtr this _ _ alloc | SharedAllocate this alloc _ =>
      negb (handle_at (shared_ptrs σ) this)
      && match alloc σ with Some _ => true | None => false end
  | SharedFromNew this v _ alloc =>
      negb (handle_at (shared_ptrs σ) this)
      && match operator_new v σ with
         | Ok (_, σ1) => match alloc σ1 with Some _ => true | None => false end
         | _ => false
         end
  | SharedCopy this other | SharedMove this other =>
      negb (handle_at (shared_ptrs σ) this) && handle_at (shared_ptrs σ) other
  | SharedAssignCopy this other =>
      bool_decide (this = other)
      || handle_at (shared_ptrs σ) this && holds_block (shared_ptrs σ) other
  | SharedAssignMove this other =>
      bool_decide (this = other)
      || handle_at (shared_ptrs σ) this && handle_at (shared_ptrs σ) other
  | SharedAssignCopyU this other =>
      bool_decide (this ≠ other)
      && handle_at (shared_ptrs σ) this && holds_block (shared_ptrs σ) other
  | SharedAssignMoveU this other =>
      handle_at (shared_ptrs σ) this && handle_at (shared_ptrs σ) other
  | SharedReset this | SharedDtor this => handle_at (shared_ptrs σ) this
  | WeakDefault this => negb (handle_at (weak_ptrs σ) this)
  | WeakFromShared this owner =>
      negb (handle_at (weak_ptrs σ) this) && handle_at (shared_ptrs σ) owner
  | WeakCopy this other | WeakMove this other =>
      negb (handle_at (weak_ptrs σ) this) && handle_at (weak_ptrs σ) other
  | WeakAssignCopy this other =>
      handle_at (weak_ptrs σ) this && handle_at (weak_ptrs σ) other
  | WeakAssignCopyU this other =>
      bool_decide (this ≠ other)
      && handle_at (weak_ptrs σ) this && holds_block (weak_ptrs σ) other
  | WeakAssignMove this other =>
      handle_at (weak_ptrs σ) this && handle_at (weak_ptrs σ) other
  | WeakReset this | WeakDtor this => handle_at (weak_ptrs σ) this
  | WeakLock this ret =>
      negb (handle_at (shared_ptrs σ) ret) && handle_at (weak_ptrs σ) this
  end.

(** The operations other than the two implicit copies of a WeakPtr,
    which take no weak link for the copy they make. *)
Definition no_weak_copy (o : op) : bool :=
  match o with
  | WeakCopy _ _ | WeakAssignCopy _ _ => false
  | _ => true
  end.

(** A program that leaves a WeakPtr behind on a block whose only
    SharedPtr is gone. *)
Definition survivor_ops : list op :=
  [ SharedFromNew "a" 1%Z DefaultDelete std_allocator;
    WeakFromShared "w" "a";
    SharedDtor "a" ].

Definition survivor_state : state :=
  match exec survivor_ops initial with
  | Ok (_, σ) => σ
  | _ => initial
  end.

(** A program that gives up every block it made. *)
Definition release_ops : list op :=
  [ SharedAllocate "a" std_allocator 7%Z;
    SharedFromNew "p" 1%Z DefaultDelete std_allocator;
    SharedCopy "b" "a";
    WeakFromShared "w" "a";
    SharedReset "a";
    SharedDtor "p";
    SharedDtor "b";
    WeakDtor "w";
    SharedDtor "a" ].

Definition released_state : state :=
  match exec release_ops initial with
  | Ok (_, σ) => σ
  | _ => initial
  end.

(** A deleter that leaves the object alone, as one does that only counts
    its calls, and the expired block of [expired_state] with it. *)
Definition keep_object : Deleter := λ _ objs, Some objs.

Definition expired_kept_state : state :=
  mkState {[ 1%positive := mkBlock (object 0) 0 1 (PtrControlBlock keep_object) 1 0 ]}
          {[ 0 := 1%Z ]} {[ "a" := None ]} {[ "w" := Some 1%positive ]} 1 1 0.

(** The SharedPtr at [h] holds the last strong link of a block whose
    value cannot be destroyed: it has been destroyed already, or the
    deleter does not apply to the stored pointer. *)
Definition undeletable (σ : state) (h : var) : bool :=
  match shared_ptrs σ !! h with
  | Some (Some l) =>
      match blocks σ !! l with
      | Some b =>
          live b && (strong_count_ b =? 1)
          && match objects_after_delete b (objects σ) with
             | Some _ => false
             | None => true
             end
      | None => false
      end
  | _ => false
  end.

(** The SharedPtr whose link a call releases, if it releases one that
    can be the last of its block. *)
Definition releases (o : op) : option var :=
  match o with
  | SharedAssignCopy this other | SharedAssignMove this other =>
      if bool_decide (this = other) then None else Some this
  | SharedAssignCopyU this _ | SharedAssignMoveU this _
  | SharedReset this | SharedDtor this => Some this
  | _ => None
  end.

(** The call does not release the last link of a value that cannot be
    destroyed. *)
Definition releasable (o : op) (σ : state) : bool :=
  match releases o with
  | Some h => negb (undeletable σ h)
  | None => true
  end.



(** The only SharedPtr of a block and a WeakPtr on it. *)
Definition weak_owner_state : state :=
  mkState {[ 1%positive := mkBlock (object 0) 1 1 (PtrControlBlock DefaultDelete) 0 0 ]}
          {[ 0 := 10%Z ]} {[ "a" := Some 1%positive ]}
          {[ "w" := Some 1%positive ]} 1 1 0.

Lemma bind_Ok {A B} (m : M A) (f : A → M B) σ r :
  (m ≫= f) σ = Ok r → ∃ a σ1, m σ = Ok (a, σ1) ∧ f a σ1 = Ok r.
Proof.
  unfold mbind, M_bind. destruct (m σ) as [[a σ1]| | |]; try discriminate.
  intros H. by exists a, σ1.
Qed.

Lemma bind_Ok_l {A B} (m : M A) (f : A → M B) σ a σ1 :
  m σ = Ok (a, σ1) → (m ≫= f) σ = f a σ1.
Proof. unfold mbind, M_bind. by intros ->. Qed.

Lemma bind_undefined {A B} (m : M A) (f : A → M B) σ :
  m σ = UndefinedBehavior → (m ≫= f) σ = UndefinedBehavior.
Proof. intros H. unfold mbind, M_bind. by rewrite H. Qed.

Lemma wp_ret {A} (a : A) Q σ : Q a σ → wp (mret a) Q σ.
Proof. intros H a' σ' [= <- <-]. done. Qed.

Lemma wp_bind {A B} (m : M A) (f : A → M B) Q σ :
  wp m (λ a, wp (f a) Q) σ → wp (m ≫= f) Q σ.
Proof.
  intros H b σ' Hb. apply bind_Ok in Hb as (a & σ1 & Hm & Hf).
  by apply (H a σ1 Hm).
Qed.

Lemma wp_mono {A} (m : M A) (Q Q' : A → state → Prop) σ :
  wp m Q σ → (∀ a σ', Q a σ' → Q' a σ') → wp m Q' σ.
Proof. intros H HQ a σ' Hm. apply HQ, H, Hm. Qed.

Lemma wp_undefined {A} (Q : A → state → Prop) σ : wp undefined Q σ.
Proof. intros a σ' [=]. Qed.

Lemma wp_assert c Q σ : (c = true → Q tt σ) → wp (assert c) Q σ.
Proof. intros H a σ'. unfold assert. destruct c; [|done]. intros [= <- <-]. auto. Qed.

Lemma wp_load l Q σ :
  (∀ b, blocks σ !! l = Some b → live b = true → Q b σ) → wp (load l) Q σ.
Proof.
  intros H b σ'. unfold load. destruct (blocks σ !! l) as [b'|] eqn:E; [|done].
  destruct (live b') eqn:L; [|done]. intros [= <- <-]. auto.
Qed.

Lemma wp_store l b Q σ :
  Q tt (with_blocks (<[l := b]> (blocks σ)) σ) → wp (store l b) Q σ.
Proof. intros H a σ' [= <- <-]. done. Qed.

Lemma wp_modify l f Q σ :
  (∀ b, blocks σ !! l = Some b → live b = true →
        Q tt (with_blocks (<[l := f b]> (blocks σ)) σ)) →
  wp (modify l f) Q σ.
Proof.
  intros H. apply wp_bind, wp_load. intros b Hb Hl. apply wp_store. auto.
Qed.

Lemma hoare_bind {A B} P (m : M A) (f : A → M B) R Q :
  hoare P m R → (∀ a, hoare (R a) (f a) Q) → hoare P (m ≫= f) Q.
Proof.
  intros Hm Hf σ HP. apply wp_bind. eapply wp_mono; [by apply Hm|].
  intros a σ' HR. by apply Hf.
Qed.

Lemma hoare_conseq {A} (P P' : state → Prop) (m : M A) (Q Q' : A → state → Prop) :
  hoare P' m Q' → (∀ σ, P σ → P' σ) → (∀ a σ, Q' a σ → Q a σ) → hoare P m Q.
Proof. intros H HP HQ σ Hσ. eapply wp_mono; [apply H, HP, Hσ|]. auto. Qed.

(** ** Counting handles *)

Section handles.
Implicit Types (l : loc) (h : var) (c : option loc) (sp : gmap var (option loc)).

Lemma strong_handles_empty l : strong_handles l ∅ = 0%nat.
Proof. unfold strong_handles. by rewrite map_filter_empty, map_size_empty. Qed.

Lemma strong_handles_le l sp : (strong_handles l sp ≤ size sp)%nat.
Proof. apply map_subseteq_size, map_filter_subseteq. Qed.

Lemma strong_handles_delete l h sp :
  (strong_handles l (delete h sp)
   + (if decide (sp !! h = Some (Some l)) then 1 else 0))%nat
  = strong_handles l sp.
Proof.
  unfold strong_handles. rewrite map_filter_delete, map_size_delete.
  destruct (filter _ sp !! h) as [c|] eqn:E.
  - assert (size (filter (λ kv : var * option loc, kv.2 = Some l) sp) ≠ 0%nat) as Hne
      by (eapply map_size_ne_0_lookup_2; by rewrite E).
    apply map_lookup_filter_Some in E as [E1 E2]. simpl in E2. subst c.
    rewrite decide_True by done. lia.
  - rewrite decide_False; [simpl; lia|].
    intros Hh. eapply (map_lookup_filter_Some_2 (λ kv, kv.2 = Some l)) in Hh; [|done].
    rewrite E in Hh. discriminate.
Qed.

Lemma strong_handles_insert_fresh l h c sp :
  sp !! h = None →
  strong_handles l (<[h := c]> sp)
  = (strong_handles l sp + (if decide (c = Some l) then 1 else 0))%nat.
Proof.
  intros Hh. unfold strong_handles. rewrite map_filter_insert. simpl.
  destruct (decide (c = Some l)) as [->|Hc].
  - rewrite map_size_insert_None; [lia|].
    apply map_lookup_filter_None_2. by left.
  - rewrite delete_id by done. lia.
Qed.

Lemma strong_handles_insert l h c sp :
  (strong_handles l (<[h := c]> sp)
   + (if decide (sp !! h = Some (Some l)) then 1 else 0))%nat
  = (strong_handles l sp + (if decide (c = Some l) then 1 else 0))%nat.
Proof.
  rewrite <- (insert_delete_eq sp).
  rewrite strong_handles_insert_fresh by apply lookup_delete_eq.
  pose proof (strong_handles_delete l h sp). lia.
Qed.

Lemma strong_handles_pos l h sp :
  sp !! h = Some (Some l) → (0 < strong_handles l sp)%nat.
Proof.
  intros Hh. pose proof (strong_handles_delete l h sp) as H.
  rewrite decide_True in H by done. lia.
Qed.

End handles.

(** ** What the control-block operations do to the state *)

Section control_block_rules.
Import ControlBlockBase.

Lemma wp_get_use_count l Q σ :
  (∀ b, blocks σ !! l = Some b → live b = true → Q (strong_count_ b) σ) →
  wp (get_use_count l) Q σ.
Proof.
  intros H. apply wp_bind, wp_load. intros b Hb Hl. apply wp_ret. auto.
Qed.

Lemma wp_is_valid l Q σ :
  (∀ b, blocks σ !! l = Some b → live b = true → Q (0 <? strong_count_ b) σ) →
  wp (is_valid l) Q σ.
Proof.
  intros H. apply wp_bind, wp_get_use_count. intros b Hb Hl. apply wp_ret. auto.
Qed.

Lemma wp_add_strong_link l Q σ :
  (∀ b σ', blocks σ !! l = Some b → live b = true →
     block_update σ σ' l (with_strong (incr (strong_count_ b)) b) → Q tt σ') →
  wp (add_strong_link l) Q σ.
Proof.
  intros H. apply wp_modify. intros b Hb Hl. by eapply H.
Qed.

Lemma wp_add_weak_link l Q σ :
  (∀ b σ', blocks σ !! l = Some b → live b = true →
     block_update σ σ' l (with_weak (incr (weak_count_ b)) b) → Q tt σ') →
  wp (add_weak_link l) Q σ.
Proof.
  intros H. apply wp_modify. intros b Hb Hl. by eapply H.
Qed.

Lemma wp_delete_data l Q σ :
  (∀ b b' σ', blocks σ !! l = Some b → live b = true →
     strong_count_ b' = strong_count_ b → weak_count_ b' = weak_count_ b →
     live b' = true →
     block_update σ σ' l b' → Q tt σ') →
  wp (delete_data l) Q σ.
Proof.
  intros H. apply wp_bind, wp_load. intros b Hb Hl.
  destruct (dyn b) as [deleter|[v|]].
  - apply wp_bind. intros objs ? [= <- <-]. apply wp_bind.
    destruct (deleter (data_ b) (objects σ)) as [objs'|]; [|apply wp_undefined].
    intros [] ? [= <-]. apply wp_modify. simpl. intros b0 Hb0 _.
    assert (b0 = b) as -> by congruence.
    by eapply (H b (data_deleted b)).
  - apply wp_modify. intros b0 Hb0 _. assert (b0 = b) as -> by congruence.
    by eapply (H b (data_deleted (with_dyn (ValueControlBlock None) b))).
  - apply wp_undefined.
Qed.

Lemma wp_delete_block l Q σ :
  (∀ b σ', blocks σ !! l = Some b → live b = true →
     block_update σ σ' l (block_deleted b) → Q tt σ') →
  wp (delete_block l) Q σ.
Proof.
  intros H. apply wp_bind, wp_modify. intros b Hb Hl.
  intros [] ? [= <-]. by eapply H.
Qed.

Lemma block_update_trans σ σ1 σ2 l b1 b2 :
  block_update σ σ1 l b1 → block_update σ1 σ2 l b2 → block_update σ σ2 l b2.
Proof.
  intros (Hb & Hs & Hw) (Hb' & Hs' & Hw'). repeat split; [|congruence..].
  by rewrite Hb', Hb, insert_insert_eq.
Qed.

Lemma block_update_lookup σ σ' l b' :
  block_update σ σ' l b' → blocks σ' !! l = Some b'.
Proof. intros (-> & _). apply lookup_insert_eq. Qed.

(** [remove_strong_link]: the count goes down by one from a positive
    value, and the block is freed only at count zero. *)
Lemma wp_remove_strong_link l Q σ :
  (∀ b b' σ', blocks σ !! l = Some b → live b = true →
     0 < strong_count_ b →
     strong_count_ b' = decr (strong_count_ b) →
     (live b' = false → strong_count_ b' = 0) →
     block_update σ σ' l b' → Q tt σ') →
  wp (remove_strong_link l) Q σ.
Proof.
  intros H. unfold remove_strong_link.
  apply wp_bind, wp_is_valid. intros b Hb Hl.
  apply wp_bind, wp_assert. intros Hv%N.ltb_lt.
  apply wp_bind, wp_modify. intros b0 Hb0 _. assert (b0 = b) as -> by congruence.
  set (b1 := with_strong (decr (strong_count_ b)) b).
  set (σ1 := with_blocks _ σ).
  assert (block_update σ σ1 l b1) as U1 by done.
  apply wp_bind, wp_load. intros b2 Hb2 _.
  rewrite (block_update_lookup _ _ _ _ U1) in Hb2. injection Hb2 as <-.
  destruct (strong_count_ b1 =? 0) eqn:E0.
  - apply N.eqb_eq in E0.
    apply wp_bind, wp_delete_data. intros b2 b3 σ2 Hb2 _ Hs3 Hw3 Hl3 U2.
    rewrite (block_update_lookup _ _ _ _ U1) in Hb2. injection Hb2 as <-.
    pose proof (block_update_trans _ _ _ _ _ _ U1 U2) as U12.
    apply wp_bind, wp_load. intros b4 Hb4 _.
    rewrite (block_update_lookup _ _ _ _ U2) in Hb4. injection Hb4 as <-.
    destruct (weak_count_ b3 =? 0).
    + apply wp_delete_block. intros b4 σ3 Hb4 _ U3.
      rewrite (block_update_lookup _ _ _ _ U2) in Hb4. injection Hb4 as <-.
      eapply (H b (block_deleted b3)); eauto using block_update_trans.
      simpl. by rewrite Hs3.
    + apply wp_ret. eapply (H b b3); eauto. congruence.
  - apply wp_ret. eapply (H b b1); eauto.
    change (live b1) with (live b). congruence.
Qed.

(** [remove_weak_link] leaves the strong count alone, and frees the
    block only at strong count zero. *)
Lemma wp_remove_weak_link l Q σ :
  (∀ b b' σ', blocks σ !! l = Some b → live b = true →
     strong_count_ b' = strong_count_ b →
     (live b' = false → strong_count_ b' = 0) →
     block_update σ σ' l b' → Q tt σ') →
  wp (remove_weak_link l) Q σ.
Proof.
  intros H. unfold remove_weak_link.
  apply wp_bind, wp_is_valid. intros b Hb Hl.
  apply wp_bind, wp_load. intros b0 Hb0 _. assert (b0 = b) as -> by congruence.
  apply wp_bind, wp_assert. intros _.
  apply wp_bind, wp_modify. intros b0 Hb0' _. assert (b0 = b) as -> by congruence.
  set (b1 := with_weak (decr (weak_count_ b)) b).
  set (σ1 := with_blocks _ σ).
  assert (block_update σ σ1 l b1) as U1 by done.
  apply wp_bind, wp_load. intros b2 Hb2 _.
  rewrite (block_update_lookup _ _ _ _ U1) in Hb2. injection Hb2 as <-.
  destruct (strong_count_ b1 =? 0) eqn:E0; cbn [andb].
  - apply N.eqb_eq in E0. destruct (weak_count_ b1 =? 0).
    + apply wp_delete_block. intros b4 σ3 Hb4 _ U3.
      rewrite (block_update_lookup _ _ _ _ U1) in Hb4. injection Hb4 as <-.
      eapply (H b (block_deleted b1)); eauto using block_update_trans.
    + apply wp_ret. eapply (H b b1); eauto.
  - apply wp_ret. eapply (H b b1); eauto.
    change (live b1) with (live b). congruence.
Qed.

End control_block_rules.

(** ** The counting invariant *)

Section counting.
Implicit Types (l : loc) (h : var) (c : option loc)
  (bs : gmap loc ControlBlockBase) (sp : gmap var (option loc)).

Lemma strong_handles_none l sp :
  (∀ h, sp !! h ≠ Some (Some l)) → strong_handles l sp = 0%nat.
Proof.
  intros H. unfold strong_handles. apply map_size_empty_iff, map_empty.
  intros h. apply map_lookup_filter_None. right. intros c Hc ?.
  simpl in *. subst c. by apply (H h).
Qed.

Lemma strong_handles_insert_other l h c sp :
  sp !! h ≠ Some (Some l) → c ≠ Some l →
  strong_handles l (<[h := c]> sp) = strong_handles l sp.
Proof.
  intros H1 H2. pose proof (strong_handles_insert l h c sp) as H.
  rewrite !decide_False in H by done. lia.
Qed.

Lemma counted_handle bs sp h l :
  counted bs sp → sp !! h = Some (Some l) →
  ∃ b, bs !! l = Some b ∧ live b = true.
Proof. intros [_ H] Hh. eapply H, strong_handles_pos, Hh. Qed.

Lemma counted_empty : counted ∅ ∅.
Proof.
  split.
  - intros l b. by rewrite lookup_empty.
  - intros l. rewrite strong_handles_empty. lia.
Qed.

(** The block at [l] is replaced and the handles change: what is left
    to check is the block at [l]. *)
Lemma counted_update bs sp l b' sp' :
  counted bs sp →
  (∀ l0, l0 ≠ l → strong_handles l0 sp' = strong_handles l0 sp) →
  (live b' = true → strong_count_ b' = N.of_nat (strong_handles l sp')) →
  ((0 < strong_handles l sp')%nat → live b' = true) →
  counted (<[l := b']> bs) sp'.
Proof.
  intros [H1 H2] Hother Hcount Hlive. split.
  - intros l0 b0. destruct (decide (l0 = l)) as [->|Hne].
    + rewrite lookup_insert_eq. intros [= <-]. done.
    + rewrite lookup_insert_ne by done. rewrite Hother by done. apply H1.
  - intros l0 Hpos. destruct (decide (l0 = l)) as [->|Hne].
    + exists b'. rewrite lookup_insert_eq. auto.
    + rewrite lookup_insert_ne by done. apply H2. by rewrite <- Hother.
Qed.

(** Only the handles change, and no count with them. *)
Lemma counted_handles bs sp sp' :
  counted bs sp →
  (∀ l, strong_handles l sp' = strong_handles l sp) →
  counted bs sp'.
Proof.
  intros [H1 H2] Heq. split.
  - intros l b. rewrite Heq. apply H1.
  - intros l. rewrite Heq. apply H2.
Qed.

Lemma decr_pos n : 0 < n → n ≤ size_t_modulus → decr n = n - 1.
Proof.
  intros H1 H2. unfold decr, SIZE_MAX.
  replace (n + (size_t_modulus - 1)) with ((n - 1) + 1 * size_t_modulus) by lia.
  rewrite N.Div0.mod_add. apply N.mod_small. lia.
Qed.

Lemma incr_small n : n < SIZE_MAX → incr n = n + 1.
Proof.
  intros H. unfold incr. apply N.mod_small. unfold SIZE_MAX in H. lia.
Qed.

(** A SharedPtr lets go of its block. *)
Lemma counted_release bs sp h l b b' :
  counted bs sp →
  N.of_nat (size sp) ≤ SIZE_MAX →
  sp !! h = Some (Some l) → bs !! l = Some b → live b = true →
  strong_count_ b' = decr (strong_count_ b) →
  (live b' = false → strong_count_ b' = 0) →
  counted (<[l := b']> bs) (<[h := None]> sp).
Proof.
  intros Hc Hsz Hh Hb Hl Hs Hd.
  pose proof (strong_handles_insert l h None sp) as Hn.
  rewrite decide_True, decide_False in Hn by done.
  pose proof (strong_handles_le l sp) as Hle.
  assert (strong_count_ b' = N.of_nat (strong_handles l (<[h := None]> sp))) as Hs'.
  { rewrite Hs, (counted_strong _ _ Hc l b Hb Hl).
    rewrite decr_pos; unfold SIZE_MAX in *; lia. }
  apply (counted_update bs sp); auto.
  - intros l0 Hne. apply strong_handles_insert_other; congruence.
  - intros Hpos. destruct (live b'); [done|]. specialize (Hd eq_refl). lia.
Qed.

(** A SharedPtr that held nothing takes a link on the block at [l]. *)
Lemma counted_acquire bs sp h l b :
  counted bs sp →
  N.of_nat (size (<[h := Some l]> sp)) ≤ SIZE_MAX →
  sp !! h = None ∨ sp !! h = Some None →
  bs !! l = Some b → live b = true →
  counted (<[l := with_strong (incr (strong_count_ b)) b]> bs)
          (<[h := Some l]> sp).
Proof.
  intros Hc Hsz Hh Hb Hl.
  pose proof (strong_handles_insert l h (Some l) sp) as Hn.
  rewrite decide_False, decide_True in Hn by (done || (destruct Hh; congruence)).
  pose proof (strong_handles_le l (<[h := Some l]> sp)) as Hle.
  apply (counted_update bs sp); auto.
  - intros l0 Hne.
    apply strong_handles_insert_other; destruct Hh; congruence.
  - intros _. simpl. rewrite (counted_strong _ _ Hc l b Hb Hl).
    rewrite incr_small; unfold SIZE_MAX in *; lia.
Qed.

(** The block at [l] changes, its strong count does not. *)
Lemma counted_block bs sp l b b' :
  counted bs sp → bs !! l = Some b → live b = true →
  strong_count_ b' = strong_count_ b →
  (live b' = false → strong_count_ b' = 0) →
  counted (<[l := b']> bs) sp.
Proof.
  intros Hc Hb Hl Hs Hd. apply (counted_update bs sp); auto.
  - intros _. rewrite Hs. by apply (counted_strong _ _ Hc).
  - intros Hpos. destruct (live b'); [done|]. specialize (Hd eq_refl).
    rewrite Hs, (counted_strong _ _ Hc l b Hb Hl) in Hd. lia.
Qed.

(** A new block, with no strong link yet, in storage that held none. *)
Lemma counted_new_block bs sp l b' :
  counted bs sp →
  (∀ b, bs !! l = Some b → live b = false) →
  strong_count_ b' = 0 → live b' = true →
  counted (<[l := b']> bs) sp.
Proof.
  intros Hc Hfree Hs Hl.
  assert (strong_handles l sp = 0%nat) as H0.
  { destruct (strong_handles l sp) eqn:E; [done|].
    destruct (counted_live _ _ Hc l) as (b & Hb & Hlb); [lia|].
    apply Hfree in Hb. congruence. }
  apply (counted_update bs sp); auto.
  intros _. rewrite Hs, H0. done.
Qed.

End counting.

(** ** Rules for the handle operations *)

Section neutral.
Import ControlBlockBase.

Lemma neutral_ret {A} (a : A) : strong_neutral (mret a).
Proof. intros σ. apply wp_ret. auto. Qed.

Lemma neutral_bind {A B} (m : M A) (f : A → M B) :
  strong_neutral m → (∀ a, strong_neutral (f a)) → strong_neutral (m ≫= f).
Proof.
  intros Hm Hf σ. apply wp_bind. eapply wp_mono; [apply Hm|].
  intros a σ1 [Hs Hc]. eapply wp_mono; [apply Hf|].
  intros b σ2 [Hs' Hc']. split; [congruence|auto].
Qed.

Lemma neutral_undefined {A} : strong_neutral (@undefined A).
Proof. intros σ. apply wp_undefined. Qed.

Lemma neutral_assert c : strong_neutral (assert c).
Proof. intros σ. apply wp_assert. auto. Qed.

Lemma neutral_load l : strong_neutral (load l).
Proof. intros σ. apply wp_load. auto. Qed.

Lemma neutral_is_valid l : strong_neutral (is_valid l).
Proof. intros σ. apply wp_is_valid. auto. Qed.

Lemma neutral_get_use_count l : strong_neutral (get_use_count l).
Proof. intros σ. apply wp_get_use_count. auto. Qed.

Lemma neutral_get_data l : strong_neutral (get_data l).
Proof. apply neutral_bind; [apply neutral_load|]. intros b. apply neutral_ret. Qed.

Lemma neutral_block_update σ σ' l b b' :
  blocks σ !! l = Some b → live b = true →
  strong_count_ b' = strong_count_ b →
  (live b' = false → strong_count_ b' = 0) →
  block_update σ σ' l b' →
  shared_ptrs σ' = shared_ptrs σ ∧
  ∀ sp, counted (blocks σ) sp → counted (blocks σ') sp.
Proof.
  intros Hb Hl Hs Hd (-> & -> & _). split; [done|].
  intros sp Hc. by eapply counted_block.
Qed.

Lemma neutral_add_weak_link l : strong_neutral (add_weak_link l).
Proof.
  intros σ. apply wp_add_weak_link. intros b σ' Hb Hl U.
  eapply (neutral_block_update σ σ' l b (with_weak (incr (weak_count_ b)) b) Hb Hl);
    [done| |exact U].
  intros Hd. change (live b = false) in Hd. congruence.
Qed.

Lemma neutral_remove_weak_link l : strong_neutral (remove_weak_link l).
Proof.
  intros σ. apply wp_remove_weak_link. intros b b' σ' Hb Hl Hs Hd U.
  eapply neutral_block_update; eauto.
Qed.

Lemma neutral_set_data l p : strong_neutral (set_data l p).
Proof.
  intros σ. apply wp_modify. intros b Hb Hl.
  eapply (neutral_block_update σ _ l b (with_data p b) Hb Hl); [done| |done].
  intros Hd. change (live b = false) in Hd. congruence.
Qed.

Lemma neutral_allocate_store alloc b' :
  sound_alloc alloc → strong_count_ b' = 0 → live b' = true →
  strong_neutral (block ← allocate alloc; store block b';; mret block).
Proof.
  intros Ha Hs Hl σ. apply wp_bind. intros l σ1. unfold allocate.
  destruct (alloc σ) as [l'|] eqn:E; [|done]. intros [= <- <-].
  apply wp_bind, wp_store, wp_ret. split; [done|].
  intros sp Hc. simpl. apply counted_new_block; auto.
  intros b Hb. by eapply Ha.
Qed.

Lemma neutral_operator_new v : strong_neutral (operator_new v).
Proof. intros σ p σ' [= <- <-]. by split. Qed.

Lemma neutral_ptr_make_block data deleter alloc :
  sound_alloc alloc → strong_neutral (PtrControlBlock.make_block data deleter alloc).
Proof. intros Ha. by apply neutral_allocate_store. Qed.

Lemma neutral_value_make_block alloc v :
  sound_alloc alloc → strong_neutral (ValueControlBlock.make_block alloc v).
Proof.
  intros Ha σ. unfold ValueControlBlock.make_block, ValueControlBlock.ctor.
  apply wp_bind. intros l σ1. unfold allocate.
  destruct (alloc σ) as [l'|] eqn:E; [|done]. intros [= <- <-].
  apply wp_bind, wp_bind, wp_store, wp_modify. intros b.
  simpl. rewrite lookup_insert_eq. intros [= <-] _. apply wp_ret. simpl.
  split; [done|]. intros sp Hc. rewrite insert_insert_eq.
  apply counted_new_block; auto. intros b Hb. by eapply Ha.
Qed.

Lemma neutral_shared_ctl_block_ h : strong_neutral (SharedPtr.ctl_block_ h).
Proof.
  intros σ c σ'. unfold SharedPtr.ctl_block_.
  destruct (shared_ptrs σ !! h); [|done]. intros [= <- <-]. auto.
Qed.

Lemma neutral_weak_ctl_block_ h : strong_neutral (WeakPtr.ctl_block_ h).
Proof.
  intros σ c σ'. unfold WeakPtr.ctl_block_.
  destruct (weak_ptrs σ !! h); [|done]. intros [= <- <-]. auto.
Qed.

Lemma neutral_weak_set_ctl_block_ h c : strong_neutral (WeakPtr.set_ctl_block_ h c).
Proof. intros σ [] σ' [= <-]. auto. Qed.

Lemma neutral_weak_destroy h : strong_neutral (WeakPtr.destroy h).
Proof. intros σ [] σ' [= <-]. auto. Qed.

Lemma neutral_new_weak h m : strong_neutral m → strong_neutral (new_weak h m).
Proof.
  intros Hm σ. unfold new_weak. intros a σ'.
  destruct (weak_ptrs σ !! h); [done|]. apply Hm.
Qed.

End neutral.

Create HintDb neutral.
#[export] Hint Resolve neutral_ret neutral_undefined neutral_assert neutral_load
  neutral_is_valid neutral_get_use_count neutral_get_data
  neutral_add_weak_link neutral_remove_weak_link neutral_set_data
  neutral_shared_ctl_block_ neutral_weak_ctl_block_
  neutral_weak_set_ctl_block_ neutral_weak_destroy : neutral.

(** Splits a neutral computation at its binds and matches. *)
Ltac neutral :=
  repeat first
    [ solve [eauto with neutral]
    | match goal with
      | |- strong_neutral (match ?c with _ => _ end) => destruct c
      end
    | apply neutral_bind; [|intros ?] ].

Section weak_neutral.

Lemma neutral_weak_ctor_block h c : strong_neutral (WeakPtr.ctor_block h c).
Proof. unfold WeakPtr.ctor_block. neutral. Qed.

Lemma neutral_weak_reset h : strong_neutral (WeakPtr.reset h).
Proof. unfold WeakPtr.reset. neutral. Qed.

Lemma neutral_weak_step o :
  match o with
  | WeakDefault _ | WeakFromShared _ _ | WeakCopy _ _ | WeakMove _ _
  | WeakAssignCopy _ _ | WeakAssignCopyU _ _ | WeakAssignMove _ _
  | WeakReset _ | WeakDtor _ => True
  | _ => False
  end → strong_neutral (step o).
Proof.
  pose proof neutral_weak_ctor_block. pose proof neutral_weak_reset.
  destruct o; try done; intros _; simpl;
    try apply neutral_new_weak;
    unfold WeakPtr.ctor_default, WeakPtr.ctor_owner, WeakPtr.ctor_copy,
      WeakPtr.ctor_move, WeakPtr.assign_copy, WeakPtr.assign_copy_U,
      WeakPtr.assign_move, WeakPtr.swap_ctl_block_, WeakPtr.dtor;
    neutral.
Qed.

End weak_neutral.

Section shared_rules.
Variable n : nat.
Implicit Types (h this other : var) (c : option loc).

Lemma Inv_mono m σ : (n ≤ m)%nat → Inv n σ → Inv m σ.
Proof. intros Hle [Hc Hs]. split; [done|lia]. Qed.

(** A neutral computation keeps the invariant and whatever is known of
    the SharedPtr store. *)
Lemma hoare_neutral {A} (m : M A) (P : gmap var (option loc) → Prop) :
  strong_neutral m →
  hoare (λ σ, Inv n σ ∧ P (shared_ptrs σ)) m
        (λ _ σ, Inv n σ ∧ P (shared_ptrs σ)).
Proof.
  intros Hm σ [[Hc Hs] HP]. eapply wp_mono; [apply Hm|].
  intros a σ' [Heq Hc']. unfold Inv. rewrite Heq. split; [split|]; auto.
Qed.

Lemma hoare_neutral_Inv {A} (m : M A) :
  strong_neutral m → hoare (Inv n) m (λ _, Inv n).
Proof.
  intros Hm σ [Hc Hs]. eapply wp_mono; [apply Hm|].
  intros a σ' [Heq Hc']. split; [rewrite Heq; auto|by rewrite Heq].
Qed.

Lemma wp_shared_ctl_block_ h Q σ :
  (∀ c, shared_ptrs σ !! h = Some c → Q c σ) →
  wp (SharedPtr.ctl_block_ h) Q σ.
Proof.
  intros H c σ'. unfold SharedPtr.ctl_block_.
  destruct (shared_ptrs σ !! h) eqn:E; [|done]. intros [= <- <-]. auto.
Qed.

Lemma wp_shared_set_ctl_block_ h c Q σ :
  Q tt (with_shared_ptrs (<[h := c]> (shared_ptrs σ)) σ) →
  wp (SharedPtr.set_ctl_block_ h c) Q σ.
Proof. intros H a σ' [= <- <-]. done. Qed.

Lemma hoare_new_shared this (m : M unit) P Q :
  hoare (λ σ, P σ ∧ shared_ptrs σ !! this = None) m Q →
  hoare P (new_shared this m) Q.
Proof.
  intros H σ HP a σ'. unfold new_shared.
  destruct (shared_ptrs σ !! this) eqn:E; [done|]. by apply H.
Qed.

Lemma Inv_insert_None_fresh h σ :
  Inv n σ → shared_ptrs σ !! h = None →
  Inv (S n) (with_shared_ptrs (<[h := None]> (shared_ptrs σ)) σ).
Proof.
  intros [Hc Hs] Hh. split; simpl.
  - eapply counted_handles; [done|]. intros l.
    apply strong_handles_insert_other; congruence.
  - rewrite map_size_insert_None by done. lia.
Qed.

Hypothesis bound : N.of_nat n ≤ SIZE_MAX.

(** [reset] keeps the counts right and leaves the handle empty. *)
Lemma hoare_reset h :
  hoare (Inv n) (SharedPtr.reset h)
        (λ _ σ, Inv n σ ∧ shared_ptrs σ !! h = Some None).
Proof.
  intros σ [Hc Hs]. unfold SharedPtr.reset.
  apply wp_bind, wp_shared_ctl_block_. intros [l|] Hh.
  - apply wp_bind, wp_remove_strong_link.
    intros b b' σ' Hb Hl Hpos Hdec Hd (Hb' & Hs' & _).
    apply wp_shared_set_ctl_block_. unfold Inv. simpl. rewrite Hb', Hs'.
    split; [split|].
    + eapply counted_release; eauto. lia.
    + rewrite map_size_insert_Some by (by rewrite Hh). done.
    + apply lookup_insert_eq.
  - apply wp_bind, wp_ret, wp_shared_set_ctl_block_. unfold Inv. simpl.
    rewrite insert_id by done. auto.
Qed.

(** The constructor from a block pointer, on an empty handle. *)
Lemma hoare_ctor_block_over h c :
  hoare (λ σ, Inv n σ ∧ shared_ptrs σ !! h = Some None)
        (SharedPtr.ctor_block h c) (λ _, Inv n).
Proof.
  intros σ [[Hc Hs] Hh]. unfold SharedPtr.ctor_block.
  apply wp_bind, wp_shared_set_ctl_block_. destruct c as [l|].
  - apply wp_add_strong_link. simpl. intros b σ' Hb Hl (Hb' & Hs' & _).
    simpl in *. assert (size (<[h:=Some l]> (shared_ptrs σ)) = size (shared_ptrs σ))
      as Hsz by (apply map_size_insert_Some; by rewrite Hh).
    split; [rewrite Hb', Hs'|rewrite Hs'].
    + apply counted_acquire; auto. lia.
    + lia.
  - apply wp_ret. unfold Inv. simpl. rewrite insert_id by done. done.
Qed.

(** The tail of the two copy-assignments is that constructor, except
    for a null source. *)
Lemma hoare_assign_tail h c :
  hoare (λ σ, Inv n σ ∧ shared_ptrs σ !! h = Some None)
        (SharedPtr.set_ctl_block_ h c;;
         match c with
         | Some l => ControlBlockBase.add_strong_link l
         | None => undefined
         end)
        (λ _, Inv n).
Proof.
  destruct c as [l|].
  - apply (hoare_ctor_block_over h (Some l)).
  - intros σ _. apply wp_bind, wp_shared_set_ctl_block_, wp_undefined.
Qed.

Lemma hoare_swap this other :
  hoare (λ σ, Inv n σ ∧ shared_ptrs σ !! this = Some None)
        (SharedPtr.swap_ctl_block_ this other) (λ _, Inv n).
Proof.
  intros σ [[Hc Hs] Hh]. unfold SharedPtr.swap_ctl_block_.
  apply wp_bind, wp_shared_ctl_block_. intros a Ha.
  apply wp_bind, wp_shared_ctl_block_. intros c Hother.
  apply wp_bind, wp_shared_set_ctl_block_, wp_shared_set_ctl_block_.
  unfold Inv. simpl.
  assert (a = None) as -> by congruence.
  destruct (decide (this = other)) as [<-|Hne].
  { assert (c = None) as -> by congruence.
    rewrite insert_insert_eq, insert_id by done. done. }
  split.
  - eapply counted_handles; [done|]. intros l.
    pose proof (strong_handles_insert l other None (<[this := c]> (shared_ptrs σ))) as H1.
    pose proof (strong_handles_insert l this c (shared_ptrs σ)) as H2.
    rewrite lookup_insert_ne, Hother in H1 by done. rewrite Hh in H2.
    rewrite (decide_False (P := None = Some l)) in H1 by done.
    rewrite (decide_False (P := Some None = Some (Some l))) in H2 by done.
    destruct (decide (c = Some l)) as [->|Hcl].
    + rewrite decide_True in H1 by done. lia.
    + rewrite decide_False in H1 by congruence. lia.
  - rewrite !map_size_insert_Some; [done|by rewrite Hh|].
    rewrite lookup_insert_ne by done. by rewrite Hother.
Qed.

Lemma hoare_destroy h :
  hoare (λ σ, Inv n σ ∧ shared_ptrs σ !! h = Some None)
        (SharedPtr.destroy h) (λ _, Inv n).
Proof.
  intros σ [[Hc Hs] Hh] [] σ' [= <-]. split; simpl.
  - eapply counted_handles; [done|]. intros l.
    pose proof (strong_handles_delete l h (shared_ptrs σ)) as H.
    rewrite Hh, decide_False in H by done. lia.
  - rewrite map_size_delete, Hh. simpl. lia.
Qed.

End shared_rules.

Section step_rules.
Variable n : nat.
Hypothesis bound : N.of_nat (S n) ≤ SIZE_MAX.

Lemma bound_n : N.of_nat n ≤ SIZE_MAX.
Proof using bound. lia. Qed.

(** The constructor from a block pointer, for a new handle. *)
Lemma hoare_ctor_block_fresh h c :
  hoare (λ σ, Inv n σ ∧ shared_ptrs σ !! h = None)
        (SharedPtr.ctor_block h c) (λ _, Inv (S n)).
Proof using bound.
  intros σ [[Hc Hs] Hh]. unfold SharedPtr.ctor_block.
  apply wp_bind, wp_shared_set_ctl_block_. destruct c as [l|].
  - apply wp_add_strong_link. simpl. intros b σ' Hb Hl (Hb' & Hs' & _).
    simpl in *.
    assert (size (<[h:=Some l]> (shared_ptrs σ)) = S (size (shared_ptrs σ)))
      as Hsz by (by apply map_size_insert_None).
    split; [rewrite Hb', Hs'|rewrite Hs'].
    + apply counted_acquire; auto. lia.
    + lia.
  - apply wp_ret. by apply Inv_insert_None_fresh.
Qed.

Lemma hoare_reset_S h :
  hoare (Inv (S n)) (SharedPtr.reset h) (λ _, Inv (S n)).
Proof using bound.
  eapply hoare_conseq; [by apply (hoare_reset (S n))|done|]. by intros ? σ [H _].
Qed.

Lemma Inv_S σ : Inv n σ → Inv (S n) σ.
Proof. apply Inv_mono. lia. Qed.

Lemma hoare_S {A} P (m : M A) :
  hoare P m (λ _, Inv n) → hoare P m (λ _, Inv (S n)).
Proof. intros H. eapply hoare_conseq; [exact H|done|]. intros ? σ. apply Inv_S. Qed.

Lemma hoare_reset_then (this : var) (k : M unit) :
  hoare (λ σ, Inv n σ ∧ shared_ptrs σ !! this = Some None) k (λ _, Inv n) →
  hoare (Inv n) (SharedPtr.reset this;; k) (λ _, Inv (S n)).
Proof using bound.
  intros Hk. apply hoare_S. eapply hoare_bind.
  - apply hoare_reset, bound_n.
  - intros ?. exact Hk.
Qed.

Lemma hoare_read_other_then (this other : var) (k : option loc → M unit) :
  (∀ c, hoare (λ σ, Inv n σ ∧ shared_ptrs σ !! this = Some None) (k c) (λ _, Inv n)) →
  hoare (λ σ, Inv n σ ∧ shared_ptrs σ !! this = Some None)
        (c ← SharedPtr.ctl_block_ other; k c) (λ _, Inv n).
Proof.
  intros Hk. eapply hoare_bind; [|exact Hk].
  apply (hoare_neutral n _ (λ sp, sp !! this = Some None)).
  apply neutral_shared_ctl_block_.
Qed.

(** Every operation keeps the counts right. *)
Lemma hoare_step o :
  sound_op o → hoare (Inv n) (step o) (λ _, Inv (S n)).
Proof using bound.
  pose proof bound_n as Hn.
  destruct o; intros Hsound;
    try (apply hoare_S, hoare_neutral_Inv, neutral_weak_step; done);
    simpl in *.
  - (* SharedPtr() *)
    apply hoare_new_shared. intros σ [HI Hh].
    apply wp_shared_set_ctl_block_. by apply Inv_insert_None_fresh.
  - (* SharedPtr(T*, Deleter, Alloc) *)
    apply hoare_new_shared. eapply hoare_bind.
    + apply (hoare_neutral n _ (λ sp, sp !! this = None)).
      by apply neutral_ptr_make_block.
    + intros l. apply hoare_ctor_block_fresh.
  - (* SharedPtr(new T(v), Deleter, Alloc) *)
    apply hoare_new_shared. eapply hoare_bind.
    + apply (hoare_neutral n _ (λ sp, sp !! this = None)).
      apply neutral_operator_new.
    + intros ptr. eapply hoare_bind.
      * apply (hoare_neutral n _ (λ sp, sp !! this = None)).
        by apply neutral_ptr_make_block.
      * intros l. apply hoare_ctor_block_fresh.
  - (* AllocateShared *)
    apply hoare_new_shared. eapply hoare_bind.
    + apply (hoare_neutral n _ (λ sp, sp !! this = None)).
      by apply neutral_value_make_block.
    + intros l. apply hoare_ctor_block_fresh.
  - (* SharedPtr(const SharedPtr&) *)
    apply hoare_new_shared. eapply hoare_bind.
    + apply (hoare_neutral n _ (λ sp, sp !! this = None)).
      apply neutral_shared_ctl_block_.
    + intros c. apply hoare_ctor_block_fresh.
  - (* SharedPtr(SharedPtr&&) *)
    apply hoare_new_shared. eapply hoare_bind.
    + apply (hoare_neutral n _ (λ sp, sp !! this = None)).
      apply neutral_shared_ctl_block_.
    + intros c. eapply hoare_bind; [apply hoare_ctor_block_fresh|].
      intros ?. apply hoare_reset_S.
  - (* operator=(const SharedPtr&) *)
    unfold SharedPtr.assign_copy. case_bool_decide.
    + intros σ HI. apply wp_ret. by apply Inv_S.
    + apply hoare_reset_then, hoare_read_other_then. intros c.
      by apply hoare_assign_tail.
  - (* operator=(SharedPtr&&) *)
    unfold SharedPtr.assign_move. case_bool_decide.
    + intros σ HI. apply wp_ret. by apply Inv_S.
    + apply hoare_reset_then. by apply hoare_swap.
  - (* operator=(const SharedPtr<U>&) *)
    apply hoare_reset_then, hoare_read_other_then. intros c.
    by apply hoare_assign_tail.
  - (* operator=(SharedPtr<U>&&) *)
    apply hoare_reset_then. by apply hoare_swap.
  - (* reset *)
    apply hoare_S. eapply hoare_conseq; [by apply (hoare_reset n)|done|].
    by intros ? σ [H _].
  - (* ~SharedPtr *)
    apply hoare_reset_then. by apply hoare_destroy.
  - (* lock *)
    apply hoare_new_shared. eapply hoare_bind.
    + apply (hoare_neutral n _ (λ sp, sp !! ret = None)).
      apply neutral_weak_ctl_block_.
    + intros c. apply hoare_ctor_block_fresh.
Qed.

End step_rules.

Lemma hoare_exec ops : ∀ n,
  N.of_nat (n + length ops) ≤ SIZE_MAX →
  Forall sound_op ops →
  hoare (Inv n) (exec ops) (λ _, Inv (n + length ops)).
Proof.
  induction ops as [|o ops IH]; intros n Hn Hs; simpl.
  - intros σ HI. apply wp_ret. by rewrite Nat.add_0_r.
  - apply Forall_cons in Hs as [Ho Hs]. simpl in Hn. eapply hoare_bind.
    + apply hoare_step; [lia|done].
    + intros ?. replace (n + S (length ops))%nat with (S n + length ops)%nat by lia.
      apply IH; [|done]. lia.
Qed.

Lemma Inv_initial : Inv 0 initial.
Proof. split; [apply counted_empty|done]. Qed.

Lemma std_allocator_sound : sound_alloc std_allocator.
Proof.
  intros σ l b [= <-] Hb. destruct (live b) eqn:E; [|done]. exfalso.
  eapply (is_fresh (dom (filter (λ kv, live kv.2 = true) (blocks σ)))).
  apply elem_of_dom. exists b. by apply map_lookup_filter_Some.
Qed.

(** ** Running the operations *)

Lemma incr_0 : incr 0 = 1.
Proof. reflexivity. Qed.

(** Unfolds the monad and the block and handle accessors, so that a
    computation on a state with known lookups reduces to its result. *)
Ltac run :=
  unfold ControlBlockBase.is_valid, ControlBlockBase.get_use_count,
    ControlBlockBase.get_data, ControlBlockBase.set_data,
    ControlBlockBase.add_strong_link, ControlBlockBase.add_weak_link,
    modify, load, store, allocate, deallocate, assert, undefined,
    SharedPtr.ctl_block_, SharedPtr.set_ctl_block_, SharedPtr.destroy,
    WeakPtr.ctl_block_, WeakPtr.set_ctl_block_, WeakPtr.destroy,
    mbind, M_bind, mret, M_ret in *;
  simpl in *.

Lemma shared_ctl_block_ok σ h c :
  shared_ptrs σ !! h = Some c → SharedPtr.ctl_block_ h σ = Ok (c, σ).
Proof. intros H. run. by rewrite H. Qed.

Lemma weak_ctl_block_ok σ h c :
  weak_ptrs σ !! h = Some c → WeakPtr.ctl_block_ h σ = Ok (c, σ).
Proof. intros H. run. by rewrite H. Qed.

Lemma load_ok σ l b :
  blocks σ !! l = Some b → live b = true → load l σ = Ok (b, σ).
Proof. intros Hb Hl. run. by rewrite Hb, Hl. Qed.

Lemma get_use_count_ok σ l b :
  blocks σ !! l = Some b → live b = true →
  ControlBlockBase.get_use_count l σ = Ok (strong_count_ b, σ).
Proof. intros Hb Hl. run. by rewrite Hb, Hl. Qed.

Lemma is_valid_ok σ l b :
  blocks σ !! l = Some b → live b = true →
  ControlBlockBase.is_valid l σ = Ok (0 <? strong_count_ b, σ).
Proof. intros Hb Hl. run. by rewrite Hb, Hl. Qed.

Lemma use_count_ok σ h l b :
  shared_ptrs σ !! h = Some (Some l) → blocks σ !! l = Some b → live b = true →
  SharedPtr.use_count h σ = Ok (strong_count_ b, σ).
Proof.
  intros Hh Hb Hl. unfold SharedPtr.use_count.
  rewrite (bind_Ok_l _ _ _ _ _ (shared_ctl_block_ok _ _ _ Hh)).
  by apply get_use_count_ok.
Qed.

Lemma use_count_empty σ h :
  shared_ptrs σ !! h = Some None → SharedPtr.use_count h σ = Ok (0, σ).
Proof. intros Hh. unfold SharedPtr.use_count. run. by rewrite Hh. Qed.

Lemma get_empty σ h :
  shared_ptrs σ !! h = Some None → SharedPtr.get h σ = Ok (nullptr, σ).
Proof. intros Hh. unfold SharedPtr.get. run. by rewrite Hh. Qed.

Lemma get_ok σ h l b :
  shared_ptrs σ !! h = Some (Some l) → blocks σ !! l = Some b → live b = true →
  SharedPtr.get h σ = Ok (data_ b, σ).
Proof. intros Hh Hb Hl. unfold SharedPtr.get. run. by rewrite Hh, Hb, Hl. Qed.

(** The two programs of the repository: the first dereferences a
    moved-from SharedPtr and stops at the assertion of [operator*], the
    second prints [3 2]. *)
Example main_moved_from_aborts : main_moved_from initial = AssertionFailed.
Proof. vm_compute. reflexivity. Qed.

Example main_copies_prints :
  ∃ σ, main_copies initial = Ok ((3%Z, 2), σ).
Proof. eexists. vm_compute. reflexivity. Qed.

(** * The claims *)

(** ** C2 *)

(** C2: after any sequence of SharedPtr (and WeakPtr) operations that
    runs to its end from the empty program state, [use_count()] on a live
    SharedPtr is the number of live SharedPtr objects that reference the
    same control block, and it is 0 on an empty one.  The sequence is
    shorter than the range of size_t, so that no count can wrap, and its
    allocators hand out unused storage. *)
Theorem use_count_is_number_of_handles (ops : list op) (σ : state) :
  Forall sound_op ops →
  N.of_nat (length ops) ≤ SIZE_MAX →
  exec ops initial = Ok (tt, σ) →
  ∀ h c, shared_ptrs σ !! h = Some c →
    SharedPtr.use_count h σ =
      Ok (match c with
          | Some l => N.of_nat (strong_handles l (shared_ptrs σ))
          | None => 0
          end, σ).
Proof.
  intros Hs Hn Hex h c Hh.
  destruct (hoare_exec ops 0 Hn Hs initial Inv_initial tt σ Hex) as [Hc _].
  destruct c as [l|].
  - destruct (counted_handle _ _ _ _ Hc Hh) as (b & Hb & Hl).
    rewrite <- (counted_strong _ _ Hc l b Hb Hl). by eapply use_count_ok.
  - by apply use_count_empty.
Qed.

Lemma use_count_is_number_of_handles_witness :
  SharedPtr.use_count "c" sample_state
  = Ok (N.of_nat (strong_handles 1%positive (shared_ptrs sample_state)), sample_state).
Proof.
  refine (use_count_is_number_of_handles sample_ops sample_state _ _ _
            "c" (Some 1%positive) _).
  - repeat constructor; apply std_allocator_sound.
  - vm_compute. discriminate.
  - vm_compute. reflexivity.
  - vm_compute. reflexivity.
Defined.

Example sample_use_counts :
  SharedPtr.use_count "c" sample_state = Ok (2, sample_state) ∧
  SharedPtr.use_count "d" sample_state = Ok (2, sample_state) ∧
  SharedPtr.use_count "a" sample_state = Ok (0, sample_state) ∧
  SharedPtr.use_count "b" sample_state = Ok (0, sample_state) ∧
  SharedPtr.use_count "e" sample_state = Ok (1, sample_state).
Proof. vm_compute. repeat split. Qed.

Lemma ctor_ptr_run σ this ptr deleter alloc l :
  alloc σ = Some l →
  SharedPtr.ctor_ptr this ptr deleter alloc σ
  = Ok (tt, after_ctor_ptr σ this ptr deleter l).
Proof.
  intros Ha.
  unfold SharedPtr.ctor_ptr, PtrControlBlock.make_block, SharedPtr.ctor_block. run.
  rewrite Ha. simpl. by rewrite lookup_insert_eq.
Qed.

Lemma after_ctor_ptr_block σ this ptr deleter l :
  blocks (after_ctor_ptr σ this ptr deleter l) !! l
  = Some (mkBlock ptr 1 0 (PtrControlBlock deleter) 0 0).
Proof. apply lookup_insert_eq. Qed.

Lemma after_ctor_ptr_handle σ this ptr deleter l :
  shared_ptrs (after_ctor_ptr σ this ptr deleter l) !! this = Some (Some l).
Proof. apply lookup_insert_eq. Qed.

(** ** C5 *)

(** C5: constructing a SharedPtr from a raw pointer, with a deleter and
    an allocator that does allocate, makes one pointer-owning control
    block whose strong count is 1; right after the construction
    [use_count()] is 1 and [get()] is the pointer that was given. *)
Theorem ctor_ptr_spec (σ : state) (this : var) (ptr : pointer)
    (deleter : Deleter) (alloc : Alloc) (l : loc) :
  alloc σ = Some l →
  ∃ σ', SharedPtr.ctor_ptr this ptr deleter alloc σ = Ok (tt, σ') ∧
    blocks σ' !! l = Some (mkBlock ptr 1 0 (PtrControlBlock deleter) 0 0) ∧
    allocate_calls σ' = S (allocate_calls σ) ∧
    shared_ptrs σ' !! this = Some (Some l) ∧
    SharedPtr.use_count this σ' = Ok (1, σ') ∧
    SharedPtr.get this σ' = Ok (ptr, σ').
Proof.
  intros Ha. exists (after_ctor_ptr σ this ptr deleter l).
  pose proof (after_ctor_ptr_block σ this ptr deleter l) as Hb.
  pose proof (after_ctor_ptr_handle σ this ptr deleter l) as Hh.
  split; [by apply ctor_ptr_run|].
  repeat split; try done.
  - by apply (use_count_ok _ _ _ _ Hh Hb).
  - by apply (get_ok _ _ _ _ Hh Hb).
Qed.

Lemma ctor_ptr_spec_witness :
  ∃ σ', SharedPtr.ctor_ptr "p" (object 7) DefaultDelete std_allocator initial
        = Ok (tt, σ') ∧
    blocks σ' !! 1%positive
      = Some (mkBlock (object 7) 1 0 (PtrControlBlock DefaultDelete) 0 0) ∧
    allocate_calls σ' = 1%nat ∧
    shared_ptrs σ' !! "p" = Some (Some 1%positive) ∧
    SharedPtr.use_count "p" σ' = Ok (1, σ') ∧
    SharedPtr.get "p" σ' = Ok (object 7, σ').
Proof.
  apply (ctor_ptr_spec initial "p" (object 7) DefaultDelete std_allocator 1%positive).
  vm_compute. reflexivity.
Defined.

(** ** C8 *)

(** C8: for a WeakPtr [w] whose block pointer is null or points at a
    block that has not been freed, [w.expired()] returns true exactly
    when [w] is empty or the strong count of its block is 0. *)
Theorem expired_iff_empty_or_no_strong (σ : state) (w : var) (c : option loc) :
  weak_ptrs σ !! w = Some c →
  (∀ l, c = Some l → ∃ b, blocks σ !! l = Some b ∧ live b = true) →
  ∃ r, WeakPtr.expired w σ = Ok (r, σ) ∧
       (r = true ↔
        c = None ∨
        ∃ l b, c = Some l ∧ blocks σ !! l = Some b ∧ strong_count_ b = 0).
Proof.
  intros Hw Hlive. unfold WeakPtr.expired.
  rewrite (bind_Ok_l _ _ _ _ _ (weak_ctl_block_ok _ _ _ Hw)).
  destruct c as [l|].
  - destruct (Hlive l eq_refl) as (b & Hb & Hl).
    rewrite (bind_Ok_l _ _ _ _ _ (is_valid_ok _ _ _ Hb Hl)).
    eexists. split; [reflexivity|]. rewrite negb_true_iff, N.ltb_ge. split.
    + intros H0. right. exists l, b. repeat split; auto. lia.
    + intros [?|(l' & b' & [= <-] & Hb' & H0)]; [done|].
      assert (b' = b) as -> by congruence. lia.
  - exists true. split; [done|]. split; auto.
Qed.

Lemma expired_iff_empty_or_no_strong_witness :
  ∃ r, WeakPtr.expired "w" expired_state = Ok (r, expired_state) ∧
       (r = true ↔
        Some 1%positive = None ∨
        ∃ l b, Some 1%positive = Some l ∧
               blocks expired_state !! l = Some b ∧ strong_count_ b = 0).
Proof.
  apply (expired_iff_empty_or_no_strong expired_state "w" (Some 1%positive)).
  - vm_compute. reflexivity.
  - intros l [= <-]. exists dead_block. vm_compute. split; reflexivity.
Defined.

(** ** C10 *)

Lemma with_shared_ptrs_id σ : with_shared_ptrs (shared_ptrs σ) σ = σ.
Proof. by destruct σ. Qed.

Lemma deref_ok σ h l b v :
  shared_ptrs σ !! h = Some (Some l) → blocks σ !! l = Some b → live b = true →
  0 < strong_count_ b → read (data_ b) σ = Ok (v, σ) →
  SharedPtr.deref h σ = Ok (v, σ).
Proof.
  intros Hh Hb Hl Hs Hr. unfold SharedPtr.deref. run. rewrite Hh. simpl.
  rewrite Hb, Hl. simpl. apply N.ltb_lt in Hs. rewrite Hs. simpl.
  by rewrite Hb, Hl.
Qed.

(** C10: [AllocateShared<T>(alloc, args...)] calls the allocator exactly
    once and [operator new] not at all: the value lives in the storage
    embedded in the value-embedding control block, to which the block's
    data pointer is set; [MakeShared<T>(args...)] is the same with the
    standard allocator.  The handle it returns is observed as the one
    made from [new T(args...)] is: use count 1 and the value [T(args...)]
    behind it, where that one costs an [operator new] and an allocator
    call. *)
Theorem AllocateShared_single_allocation (σ : state) (ret : var)
    (alloc : Alloc) (v : T) (l : loc) :
  alloc σ = Some l →
  (∃ σ', AllocateShared ret alloc v σ = Ok (tt, σ') ∧
     allocate_calls σ' = S (allocate_calls σ) ∧
     new_calls σ' = new_calls σ ∧
     objects σ' = objects σ ∧
     blocks σ' !! l
       = Some (mkBlock (embedded l) 1 0 (ValueControlBlock (Some v)) 0 0) ∧
     SharedPtr.get ret σ' = Ok (embedded l, σ') ∧
     SharedPtr.use_count ret σ' = Ok (1, σ') ∧
     SharedPtr.deref ret σ' = Ok (v, σ')) ∧
  MakeShared ret v = AllocateShared ret std_allocator v ∧
  (∀ p σ1 l1, operator_new v σ = Ok (p, σ1) → alloc σ1 = Some l1 →
     ∃ σ', SharedPtr.ctor_ptr ret p DefaultDelete alloc σ1 = Ok (tt, σ') ∧
       allocate_calls σ' = S (allocate_calls σ) ∧
       new_calls σ' = S (new_calls σ) ∧
       SharedPtr.use_count ret σ' = Ok (1, σ') ∧
       SharedPtr.deref ret σ' = Ok (v, σ')).
Proof.
  intros Ha. split; [|split; [done|]].
  - unfold AllocateShared, ValueControlBlock.make_block, ValueControlBlock.ctor,
      SharedPtr.ctor_block. run.
    rewrite Ha. simpl. rewrite !lookup_insert_eq. simpl.
    rewrite !lookup_insert_eq. simpl.
    eexists. split; [reflexivity|].
    set (b := mkBlock (embedded l) 1 0 (ValueControlBlock (Some v)) 0 0).
    match goal with |- context [with_blocks ?m _] => set (bs := m) end.
    assert (bs !! l = Some b) as Hb by apply lookup_insert_eq.
    repeat split; simpl; try done.
    + eapply (get_ok _ _ l b); simpl; [apply lookup_insert_eq|done..].
    + eapply (use_count_ok _ _ l b); simpl; [apply lookup_insert_eq|done..].
    + eapply (deref_ok _ _ l b); simpl; [apply lookup_insert_eq|done..| |].
      * reflexivity.
      * by rewrite Hb.
  - intros p σ1 l1 [= <- <-] Ha1.
    match type of Ha1 with alloc ?s = _ => set (σ1 := s) in * end.
    set (a := fresh (dom (objects σ))).
    exists (after_ctor_ptr σ1 ret (object a) DefaultDelete l1).
    pose proof (after_ctor_ptr_block σ1 ret (object a) DefaultDelete l1) as Hb.
    pose proof (after_ctor_ptr_handle σ1 ret (object a) DefaultDelete l1) as Hh.
    split; [by apply ctor_ptr_run|].
    repeat split; try done.
    + by apply (use_count_ok _ _ _ _ Hh Hb).
    + eapply (deref_ok _ _ _ _ v Hh Hb); [done..|].
      simpl. by rewrite lookup_insert_eq.
Qed.

Lemma AllocateShared_single_allocation_witness :
  ∃ σ', AllocateShared "p" std_allocator 5%Z initial = Ok (tt, σ') ∧
     allocate_calls σ' = 1%nat ∧
     new_calls σ' = 0%nat ∧
     SharedPtr.get "p" σ' = Ok (embedded 1%positive, σ') ∧
     SharedPtr.use_count "p" σ' = Ok (1, σ') ∧
     SharedPtr.deref "p" σ' = Ok (5%Z, σ').
Proof.
  destruct (AllocateShared_single_allocation initial "p" std_allocator 5%Z 1%positive)
    as [(σ' & H1 & H2 & H3 & H4 & H5 & H6 & H7 & H8) _].
  - vm_compute. reflexivity.
  - exists σ'. repeat split; assumption.
Defined.

(** ** C6 *)

(** C6: self-move-assignment [p = std::move(p)], which overload
    resolution gives to [operator=(SharedPtr&&)], is a no-op in every
    state: the handle, its control block and every count are as before. *)
Theorem self_move_assign_noop (σ : state) (p : var) :
  SharedPtr.assign_move p p σ = Ok (tt, σ).
Proof. unfold SharedPtr.assign_move. by rewrite bool_decide_eq_true_2. Qed.

(** The template [operator=(SharedPtr<U>&&)] has no identity test.  It is
    not what [p = std::move(p)] calls; called on one object explicitly it
    releases the link and leaves the handle empty. *)
Example assign_move_U_on_itself :
  ∃ σ', SharedPtr.assign_move_U "p" "p" sole_owner_state = Ok (tt, σ') ∧
        shared_ptrs σ' !! "p" = Some None ∧
        objects σ' !! 0 = None ∧
        deallocate_calls σ' = 1%nat.
Proof. eexists. vm_compute. repeat split. Qed.

(** ** C9 *)

Lemma decr_eq_0 n : 0 < n → n ≤ SIZE_MAX → (decr n =? 0) = (n =? 1).
Proof.
  intros H1 H2. rewrite decr_pos by (unfold SIZE_MAX in *; lia).
  destruct (N.eqb_spec (n - 1) 0), (N.eqb_spec n 1); try done; lia.
Qed.

Lemma modify_ok σ l b f :
  blocks σ !! l = Some b → live b = true →
  modify l f σ = Ok (tt, with_blocks (<[l := f b]> (blocks σ)) σ).
Proof. intros Hb Hl. run. by rewrite Hb, Hl. Qed.

Lemma assert_ok σ : assert true σ = Ok (tt, σ).
Proof. done. Qed.

Lemma delete_block_ok σ l b :
  blocks σ !! l = Some b → live b = true →
  ∃ σ', ControlBlockBase.delete_block l σ = Ok (tt, σ') ∧
    block_update σ σ' l (block_deleted b) ∧
    deallocate_calls σ' = S (deallocate_calls σ).
Proof.
  intros Hb Hl. unfold ControlBlockBase.delete_block.
  rewrite (bind_Ok_l _ _ _ _ _ (modify_ok _ _ _ _ Hb Hl)).
  eexists. by split.
Qed.

Lemma with_objects_id σ : with_objects (objects σ) σ = σ.
Proof. by destruct σ. Qed.

(** [delete_data] where the value can be destroyed, and where not. *)
Lemma delete_data_run σ l b objs' :
  blocks σ !! l = Some b → live b = true →
  objects_after_delete b (objects σ) = Some objs' →
  ControlBlockBase.delete_data l σ
  = Ok (tt, with_blocks (<[l := value_deleted b]> (blocks σ)) (with_objects objs' σ)).
Proof.
  intros Hb Hl Ho. unfold ControlBlockBase.delete_data, value_deleted,
    objects_after_delete in *.
  rewrite (bind_Ok_l _ _ _ _ _ (load_ok _ _ _ Hb Hl)).
  destruct (dyn b) as [deleter|[v|]] eqn:Hd; [| |done].
  - unfold get_objects, set_objects. run. rewrite Ho. simpl. by rewrite Hb, Hl.
  - injection Ho as <-. rewrite (modify_ok _ _ _ _ Hb Hl). by rewrite with_objects_id.
Qed.

Lemma delete_data_undefined σ l b :
  blocks σ !! l = Some b → live b = true →
  objects_after_delete b (objects σ) = None →
  ControlBlockBase.delete_data l σ = UndefinedBehavior.
Proof.
  intros Hb Hl Ho. unfold ControlBlockBase.delete_data, objects_after_delete in *.
  rewrite (bind_Ok_l _ _ _ _ _ (load_ok _ _ _ Hb Hl)).
  destruct (dyn b) as [deleter|[v|]] eqn:Hd; [|done|done].
  unfold get_objects. run. by rewrite Ho.
Qed.

Lemma delete_block_run σ l b :
  blocks σ !! l = Some b → live b = true →
  ControlBlockBase.delete_block l σ
  = Ok (tt, count_deallocate (with_blocks (<[l := block_deleted b]> (blocks σ)) σ)).
Proof.
  intros Hb Hl. unfold ControlBlockBase.delete_block.
  by rewrite (bind_Ok_l _ _ _ _ _ (modify_ok _ _ _ _ Hb Hl)).
Qed.

(** The outcome of [remove_strong_link] on a valid block, in full: the
    call is undefined exactly where it removes the last link of a value
    that cannot be destroyed. *)
Lemma remove_strong_link_outcome σ l b :
  blocks σ !! l = Some b → live b = true →
  0 < strong_count_ b → strong_count_ b ≤ SIZE_MAX →
  ControlBlockBase.remove_strong_link l σ
  = match (strong_count_ b =? 1), objects_after_delete b (objects σ) with
    | true, None => UndefinedBehavior
    | _, _ => Ok (tt, after_remove_strong σ l b)
    end.
Proof.
  intros Hb Hl Hpos Hmax. unfold ControlBlockBase.remove_strong_link.
  rewrite (bind_Ok_l _ _ _ _ _ (is_valid_ok _ _ _ Hb Hl)).
  rewrite (proj2 (N.ltb_lt _ _) Hpos).
  rewrite (bind_Ok_l _ _ _ _ _ (assert_ok _)).
  rewrite (bind_Ok_l _ _ _ _ _ (modify_ok _ _ _ _ Hb Hl)).
  rewrite decr_pos by (unfold SIZE_MAX in *; lia).
  unfold after_remove_strong.
  set (b1 := with_strong (strong_count_ b - 1) b).
  set (σ1 := with_blocks _ σ).
  assert (blocks σ1 !! l = Some b1) as Hb1 by apply lookup_insert_eq.
  assert (live b1 = true) as Hl1 by done.
  rewrite (bind_Ok_l _ _ _ _ _ (load_ok _ _ _ Hb1 Hl1)).
  change (strong_count_ b1) with (strong_count_ b - 1).
  destruct (N.eqb_spec (strong_count_ b) 1) as [E1|E1],
           (N.eqb_spec (strong_count_ b - 1) 0); try lia;
    [|by destruct (objects_after_delete b (objects σ))].
  assert (objects_after_delete b1 (objects σ1) = objects_after_delete b (objects σ))
    as Ho1 by done.
  destruct (objects_after_delete b (objects σ)) as [objs'|] eqn:Ho.
  2: { apply bind_undefined. by apply (delete_data_undefined _ _ _ Hb1 Hl1). }
  rewrite (bind_Ok_l _ _ _ _ _ (delete_data_run _ _ _ _ Hb1 Hl1 Ho1)).
  set (b2 := value_deleted b1).
  set (σ2 := with_blocks _ (with_objects _ σ1)).
  assert (blocks σ2 !! l = Some b2) as Hb2 by apply lookup_insert_eq.
  assert (live b2 = true) as Hl2
    by (unfold b2, value_deleted, live; simpl; destruct (dyn b); exact Hl).
  rewrite (bind_Ok_l _ _ _ _ _ (load_ok _ _ _ Hb2 Hl2)).
  assert (weak_count_ b2 = weak_count_ b) as ->
    by (unfold b2, value_deleted; simpl; by destruct (dyn b)).
  assert (σ2 = with_blocks (<[l := b2]> (blocks σ)) (with_objects objs' σ)) as Hσ2.
  { unfold σ2, σ1, with_blocks, with_objects. simpl.
    by rewrite insert_insert_eq. }
  simpl. destruct (weak_count_ b =? 0).
  - rewrite (delete_block_run _ _ _ Hb2 Hl2). f_equal. f_equal.
    rewrite Hσ2. unfold count_deallocate, with_blocks, with_objects. simpl.
    by rewrite insert_insert_eq.
  - simpl. by rewrite Hσ2.
Qed.

Lemma remove_strong_link_run σ l b :
  blocks σ !! l = Some b → live b = true →
  0 < strong_count_ b → strong_count_ b ≤ SIZE_MAX →
  (strong_count_ b = 1 → is_Some (objects_after_delete b (objects σ))) →
  ControlBlockBase.remove_strong_link l σ = Ok (tt, after_remove_strong σ l b).
Proof.
  intros Hb Hl Hpos Hmax Hv. rewrite (remove_strong_link_outcome σ l b) by done.
  destruct (N.eqb_spec (strong_count_ b) 1) as [E|E]; [|done].
  by destruct (Hv E) as [objs' ->].
Qed.

(** The last link of a value that cannot be destroyed: the deleter, or
    the destructor, is run on it all the same. *)
Lemma remove_strong_link_undefined σ l b :
  blocks σ !! l = Some b → live b = true →
  strong_count_ b = 1 → objects_after_delete b (objects σ) = None →
  ControlBlockBase.remove_strong_link l σ = UndefinedBehavior.
Proof.
  intros Hb Hl Hs Ho.
  rewrite (remove_strong_link_outcome σ l b) by (rewrite ?Hs; done).
  by rewrite Hs, Ho.
Qed.

(** The block and the counters that [remove_strong_link] leaves. *)
Lemma after_remove_strong_block σ l b :
  live b = true →
  ∃ b', block_update σ (after_remove_strong σ l b) l b' ∧
    strong_count_ b' = strong_count_ b - 1 ∧
    weak_count_ b' = weak_count_ b ∧
    data_ b' = data_ b ∧
    delete_data_calls b'
      = (delete_data_calls b + if (strong_count_ b =? 1)%N then 1 else 0)%nat ∧
    delete_block_calls b'
      = (if ((strong_count_ b =? 1) && (weak_count_ b =? 0))%N then 1 else 0)%nat.
Proof.
  intros Hl.
  assert (delete_block_calls b = 0%nat) as Hdb
    by (unfold live in Hl; by destruct (delete_block_calls b)).
  unfold after_remove_strong, block_update.
  destruct (strong_count_ b =? 1), (weak_count_ b =? 0); simpl;
    eexists; (split; [split; [|done]; try reflexivity|]);
    rewrite ?insert_insert_eq; try reflexivity;
    unfold value_deleted; simpl; destruct (dyn b); simpl; rewrite ?Hdb;
    repeat split; lia.
Qed.

(** What [remove_strong_link] does to a valid block, in full. *)
Lemma remove_strong_link_ok σ l b :
  blocks σ !! l = Some b → live b = true →
  0 < strong_count_ b → strong_count_ b ≤ SIZE_MAX →
  (strong_count_ b = 1 → is_Some (objects_after_delete b (objects σ))) →
  ∃ σ' b', ControlBlockBase.remove_strong_link l σ = Ok (tt, σ') ∧
    block_update σ σ' l b' ∧
    strong_count_ b' = strong_count_ b - 1 ∧
    weak_count_ b' = weak_count_ b ∧
    data_ b' = data_ b ∧
    delete_data_calls b'
      = (delete_data_calls b + if (strong_count_ b =? 1)%N then 1 else 0)%nat ∧
    delete_block_calls b'
      = (if ((strong_count_ b =? 1) && (weak_count_ b =? 0))%N then 1 else 0)%nat.
Proof.
  intros Hb Hl Hpos Hmax Hv.
  destruct (after_remove_strong_block σ l b Hl) as (b' & H).
  exists (after_remove_strong σ l b), b'.
  split; [by apply remove_strong_link_run|done].
Qed.

Lemma reset_empty σ p :
  shared_ptrs σ !! p = Some None → SharedPtr.reset p σ = Ok (tt, σ).
Proof.
  intros Hp. unfold SharedPtr.reset. run. rewrite Hp. simpl.
  by rewrite insert_id, with_shared_ptrs_id.
Qed.

(** [reset(); reset()] is [reset()], whatever the state. *)
Lemma reset_twice σ p :
  (SharedPtr.reset p;; SharedPtr.reset p) σ = SharedPtr.reset p σ.
Proof.
  destruct (SharedPtr.reset p σ) as [[[] σ']| | |] eqn:E;
    unfold mbind, M_bind; rewrite E; try done.
  apply reset_empty.
  assert (wp (SharedPtr.reset p) (λ _ σ', shared_ptrs σ' !! p = Some None) σ) as H.
  { unfold SharedPtr.reset. apply wp_bind. intros c σ1 _.
    apply wp_bind. intros _ σ2 _. apply wp_shared_set_ctl_block_. simpl.
    apply lookup_insert_eq. }
  by apply (H tt).
Qed.

(** C9: [p.reset()] on a SharedPtr that is empty, or holds a link on a
    valid block whose value, if this is its last link, has not been
    destroyed and can be, succeeds and leaves [p] empty ([get()] is
    null, [use_count()] is 0) and every other handle as it was.  An
    empty [p] changes nothing; otherwise the strong count of the block
    goes down by exactly one and nothing else changes, unless that was
    the last link: then the value is destroyed, once (the deleter is
    applied to the objects, or the embedded value ends), and the block
    is freed and its unit deallocated when there is no weak link
    either.  A second [reset()] changes nothing. *)
Theorem reset_spec (σ : state) (p : var) (c : option loc) :
  shared_ptrs σ !! p = Some c →
  (∀ l, c = Some l →
     ∃ b, blocks σ !! l = Some b ∧ live b = true ∧
          0 < strong_count_ b ∧ strong_count_ b ≤ SIZE_MAX ∧
          (strong_count_ b = 1 →
             delete_data_calls b = 0%nat ∧
             is_Some (objects_after_delete b (objects σ)))) →
  ∃ σ', SharedPtr.reset p σ = Ok (tt, σ') ∧
    shared_ptrs σ' = <[p := None]> (shared_ptrs σ) ∧
    weak_ptrs σ' = weak_ptrs σ ∧
    new_calls σ' = new_calls σ ∧
    allocate_calls σ' = allocate_calls σ ∧
    SharedPtr.get p σ' = Ok (nullptr, σ') ∧
    SharedPtr.use_count p σ' = Ok (0, σ') ∧
    match c with
    | None => σ' = σ
    | Some l =>
        ∃ b b', blocks σ !! l = Some b ∧
          blocks σ' = <[l := b']> (blocks σ) ∧
          strong_count_ b' = strong_count_ b - 1 ∧
          weak_count_ b' = weak_count_ b ∧
          data_ b' = data_ b ∧
          delete_data_calls b'
            = (delete_data_calls b + if (strong_count_ b =? 1)%N then 1 else 0)%nat ∧
          delete_block_calls b'
            = (if ((strong_count_ b =? 1) && (weak_count_ b =? 0))%N then 1 else 0)%nat ∧
          deallocate_calls σ'
            = (deallocate_calls σ
               + if ((strong_count_ b =? 1) && (weak_count_ b =? 0))%N then 1 else 0)%nat ∧
          if strong_count_ b =? 1
          then objects_after_delete b (objects σ) = Some (objects σ') ∧
               dyn b' = dyn (value_deleted b)
          else objects σ' = objects σ ∧ dyn b' = dyn b
    end ∧
    SharedPtr.reset p σ' = Ok (tt, σ').
Proof.
  intros Hp Hvalid. destruct c as [l|].
  - destruct (Hvalid l eq_refl) as (b & Hb & Hl & Hpos & Hmax & Hv).
    assert (delete_block_calls b = 0%nat) as Hdb
      by (unfold live in Hl; by destruct (delete_block_calls b)).
    set (σ1 := after_remove_strong σ l b).
    assert (ControlBlockBase.remove_strong_link l σ = Ok (tt, σ1)) as Hrun
      by (apply remove_strong_link_run; try done; intros E; by apply Hv).
    assert (shared_ptrs σ1 = shared_ptrs σ) as Hs1
      by (unfold σ1, after_remove_strong;
          by destruct (strong_count_ b =? 1), (weak_count_ b =? 0)).
    exists (with_shared_ptrs (<[p := None]> (shared_ptrs σ1)) σ1).
    split.
    { unfold SharedPtr.reset.
      rewrite (bind_Ok_l _ _ _ _ _ (shared_ctl_block_ok _ _ _ Hp)).
      by rewrite (bind_Ok_l _ _ _ _ _ Hrun). }
    split; [simpl; by rewrite Hs1|].
    split; [|split; [|split; [|split; [|split; [|split]]]]].
    + unfold σ1, after_remove_strong.
      by destruct (strong_count_ b =? 1), (weak_count_ b =? 0).
    + unfold σ1, after_remove_strong.
      by destruct (strong_count_ b =? 1), (weak_count_ b =? 0).
    + unfold σ1, after_remove_strong.
      by destruct (strong_count_ b =? 1), (weak_count_ b =? 0).
    + apply get_empty. simpl. apply lookup_insert_eq.
    + apply use_count_empty. simpl. apply lookup_insert_eq.
    + exists b. unfold σ1, after_remove_strong.
      destruct (N.eqb_spec (strong_count_ b) 1) as [E|E].
      * destruct (Hv E) as [Hdd [objs' Ho]]. rewrite Ho.
        destruct (weak_count_ b =? 0); simpl; eexists;
          (split; [done|]); (split; [rewrite ?insert_insert_eq; reflexivity|]);
          repeat split; try done;
          unfold value_deleted; simpl; destruct (dyn b); simpl; rewrite ?Hdb;
          try done; lia.
      * simpl. eexists. split; [done|]. split; [reflexivity|].
        simpl. rewrite Hdb. repeat split; lia.
    + apply reset_empty. simpl. apply lookup_insert_eq.
  - exists σ. rewrite (reset_empty _ _ Hp). rewrite insert_id by done.
    repeat split; auto using get_empty, use_count_empty.
Qed.

Lemma reset_spec_witness :
  ∃ σ', SharedPtr.reset "p" sole_owner_state = Ok (tt, σ') ∧
    shared_ptrs σ' = <[ "p" := None ]> (shared_ptrs sole_owner_state) ∧
    weak_ptrs σ' = weak_ptrs sole_owner_state ∧
    new_calls σ' = new_calls sole_owner_state ∧
    allocate_calls σ' = allocate_calls sole_owner_state ∧
    SharedPtr.get "p" σ' = Ok (nullptr, σ') ∧
    SharedPtr.use_count "p" σ' = Ok (0, σ') ∧
    (∃ b b', blocks sole_owner_state !! 1%positive = Some b ∧
       blocks σ' = <[ 1%positive := b' ]> (blocks sole_owner_state) ∧
       strong_count_ b' = strong_count_ b - 1 ∧
       weak_count_ b' = weak_count_ b ∧
       data_ b' = data_ b ∧
       delete_data_calls b'
         = (delete_data_calls b + if (strong_count_ b =? 1)%N then 1 else 0)%nat ∧
       delete_block_calls b'
         = (if ((strong_count_ b =? 1) && (weak_count_ b =? 0))%N then 1 else 0)%nat ∧
       deallocate_calls σ'
         = (deallocate_calls sole_owner_state
            + if ((strong_count_ b =? 1) && (weak_count_ b =? 0))%N then 1 else 0)%nat ∧
       if strong_count_ b =? 1
       then objects_after_delete b (objects sole_owner_state) = Some (objects σ') ∧
            dyn b' = dyn (value_deleted b)
       else objects σ' = objects sole_owner_state ∧ dyn b' = dyn b) ∧
    SharedPtr.reset "p" σ' = Ok (tt, σ').
Proof.
  apply (reset_spec sole_owner_state "p" (Some 1%positive)).
  - vm_compute. reflexivity.
  - intros l [= <-].
    exists (mkBlock (object 0) 1 0 (PtrControlBlock DefaultDelete) 0 0).
    split; [vm_compute; reflexivity|]. split; [reflexivity|].
    split; [vm_compute; reflexivity|]. split; [vm_compute; discriminate|].
    intros _. split; [reflexivity|]. vm_compute. eauto.
Defined.

(** The whole of [sole_owner_state] after [p.reset()]: the object is
    deleted and the block freed. *)
Example reset_sole_owner :
  SharedPtr.reset "p" sole_owner_state
  = Ok (tt, mkState
              {[ 1%positive := mkBlock (object 0) 0 0 (PtrControlBlock DefaultDelete) 1 1 ]}
              ∅ {[ "p" := None ]} ∅ 1 1 1).
Proof. vm_compute. reflexivity. Qed.

(** ** C1 *)

Example expire_prog_runs : expire_prog initial = Ok (tt, expired_state).
Proof. vm_compute. reflexivity. Qed.

Lemma add_strong_link_ok σ l b :
  blocks σ !! l = Some b → live b = true →
  ControlBlockBase.add_strong_link l σ
  = Ok (tt, with_blocks (<[l := with_strong (incr (strong_count_ b)) b]> (blocks σ)) σ).
Proof.
  intros Hb Hl.
  by apply (modify_ok σ l b (λ b, with_strong (incr (strong_count_ b)) b)).
Qed.

(** [lock()] on an empty WeakPtr returns an empty SharedPtr. *)
Lemma lock_empty σ w ret :
  weak_ptrs σ !! w = Some None →
  WeakPtr.lock w ret σ
  = Ok (tt, with_shared_ptrs (<[ret := None]> (shared_ptrs σ)) σ).
Proof. intros Hw. unfold WeakPtr.lock, SharedPtr.ctor_block. run. by rewrite Hw. Qed.

(** [lock()] on a WeakPtr with a block shares the block and adds one to
    its strong count, whether or not the count was 0. *)
Lemma lock_block σ w ret l b :
  weak_ptrs σ !! w = Some (Some l) → blocks σ !! l = Some b → live b = true →
  WeakPtr.lock w ret σ
  = Ok (tt, with_blocks (<[l := with_strong (incr (strong_count_ b)) b]> (blocks σ))
              (with_shared_ptrs (<[ret := Some l]> (shared_ptrs σ)) σ)).
Proof.
  intros Hw Hb Hl. unfold WeakPtr.lock, SharedPtr.ctor_block. run.
  rewrite Hw. simpl. by rewrite Hb, Hl.
Qed.

(** C1, at the input where the code departs from it: [w] is expired
    (the last SharedPtr of its block is gone and the value is deleted),
    and [w.lock()] returns a SharedPtr that is not empty: it holds the
    block, [use_count()] is 1 and [get()] is the pointer to the deleted
    value. *)
Theorem lock_on_expired_returns_owner :
  WeakPtr.expired "w" expired_state = Ok (true, expired_state) ∧
  ∃ σ', WeakPtr.lock "w" "s" expired_state = Ok (tt, σ') ∧
        shared_ptrs σ' !! "s" = Some (Some 1%positive) ∧
        SharedPtr.use_count "s" σ' = Ok (1, σ') ∧
        SharedPtr.get "s" σ' = Ok (object 0, σ') ∧
        objects σ' !! 0 = None.
Proof. split; [vm_compute; reflexivity|]. eexists. vm_compute. repeat split. Qed.

(** ** C3 *)

(** What [remove_weak_link] does to a block with a weak link. *)
Lemma remove_weak_link_ok σ l b :
  blocks σ !! l = Some b → live b = true →
  0 < weak_count_ b → weak_count_ b ≤ SIZE_MAX →
  ∃ σ' b', ControlBlockBase.remove_weak_link l σ = Ok (tt, σ') ∧
    block_update σ σ' l b' ∧
    strong_count_ b' = strong_count_ b ∧
    weak_count_ b' = weak_count_ b - 1 ∧
    delete_data_calls b' = delete_data_calls b ∧
    delete_block_calls b'
      = (if ((strong_count_ b =? 0) && (weak_count_ b =? 1))%N then 1 else 0)%nat.
Proof.
  intros Hb Hl Hpos Hmax.
  assert (delete_block_calls b = 0%nat) as Hdb
    by (unfold live in Hl; by destruct (delete_block_calls b)).
  unfold ControlBlockBase.remove_weak_link.
  rewrite (bind_Ok_l _ _ _ _ _ (is_valid_ok _ _ _ Hb Hl)).
  rewrite (bind_Ok_l _ _ _ _ _ (load_ok _ _ _ Hb Hl)).
  rewrite (proj2 (N.ltb_lt _ _) Hpos), orb_true_r.
  rewrite (bind_Ok_l _ _ _ _ _ (assert_ok _)).
  rewrite (bind_Ok_l _ _ _ _ _ (modify_ok _ _ _ _ Hb Hl)).
  set (b1 := with_weak (decr (weak_count_ b)) b).
  set (σ1 := with_blocks _ σ).
  assert (block_update σ σ1 l b1) as U1 by done.
  pose proof (block_update_lookup _ _ _ _ U1) as Hb1.
  assert (live b1 = true) as Hl1 by done.
  rewrite (bind_Ok_l _ _ _ _ _ (load_ok _ _ _ Hb1 Hl1)).
  change (strong_count_ b1) with (strong_count_ b).
  change (weak_count_ b1) with (decr (weak_count_ b)).
  rewrite decr_eq_0 by done.
  assert (decr (weak_count_ b) = weak_count_ b - 1) as Hw1
    by (apply decr_pos; unfold SIZE_MAX in *; lia).
  destruct ((strong_count_ b =? 0) && (weak_count_ b =? 1)) eqn:E.
  - destruct (delete_block_ok _ _ _ Hb1 Hl1) as (σ2 & Hrun2 & U2 & _).
    exists σ2, (block_deleted b1). split; [done|].
    split; [eauto using block_update_trans|].
    simpl. rewrite Hdb. by repeat split.
  - exists σ1, b1. split; [done|]. split; [done|].
    simpl. rewrite Hdb. by repeat split.
Qed.

(** Removing the last strong link while weak links remain destroys the
    value and keeps the block; removing the last weak link afterwards
    frees the block. *)
Lemma last_strong_then_last_weak σ l b :
  blocks σ !! l = Some b → live b = true →
  strong_count_ b = 1 → weak_count_ b = 1 →
  is_Some (objects_after_delete b (objects σ)) →
  ∃ σ1 b1 σ2 b2,
    ControlBlockBase.remove_strong_link l σ = Ok (tt, σ1) ∧
    blocks σ1 !! l = Some b1 ∧
    strong_count_ b1 = 0 ∧
    delete_data_calls b1 = S (delete_data_calls b) ∧
    delete_block_calls b1 = 0%nat ∧
    ControlBlockBase.remove_weak_link l σ1 = Ok (tt, σ2) ∧
    blocks σ2 !! l = Some b2 ∧
    weak_count_ b2 = 0 ∧
    delete_data_calls b2 = S (delete_data_calls b) ∧
    delete_block_calls b2 = 1%nat.
Proof.
  intros Hb Hl Hs Hw Hv.
  destruct (remove_strong_link_ok σ l b Hb Hl)
    as (σ1 & b1 & Hrun1 & U1 & Hs1 & Hw1 & _ & Hdd1 & Hdb1);
    [rewrite Hs; done|rewrite Hs; done|done|].
  rewrite Hs, Hw in *. simpl in *.
  pose proof (block_update_lookup _ _ _ _ U1) as Hb1.
  assert (live b1 = true) as Hl1 by (unfold live; by rewrite Hdb1).
  destruct (remove_weak_link_ok σ1 l b1 Hb1 Hl1)
    as (σ2 & b2 & Hrun2 & U2 & Hs2 & Hw2 & Hdd2 & Hdb2);
    [rewrite Hw1; done..|].
  rewrite Hs1, Hw1 in *. simpl in *.
  exists σ1, b1, σ2, b2. repeat split; try done.
  - lia.
  - by apply block_update_lookup in U2.
  - lia.
Qed.

(** The control block keeps C3's invariant along every run of its
    mutators in which each call is entitled; the proof is by induction on
    the run. *)
Lemma entitled_runs_keep_counts l σ σ' :
  reaches l σ σ' →
  ∀ b, blocks σ !! l = Some b → destroyed_as_counted b →
  ∃ b', blocks σ' !! l = Some b' ∧ destroyed_as_counted b'.
Proof.
  induction 1 as [σ|σ σ1 σ2 m b1 Hreach IH Hb1 Hl1 Hent Hcall]; intros b Hb Hok.
  - by exists b.
  - destruct (IH b Hb Hok) as (b1' & Hb1' & Hs & Hw & Hdd & Hdb).
    assert (b1' = b1) as -> by congruence. clear IH Hreach Hb Hok b.
    destruct m; simpl in Hent, Hcall.
    + apply andb_true_iff in Hent as [Hv%N.ltb_lt Hmax%N.ltb_lt].
      rewrite (add_strong_link_ok _ _ _ Hb1 Hl1) in Hcall. injection Hcall as <-.
      eexists. split; [apply lookup_insert_eq|].
      unfold destroyed_as_counted. simpl. rewrite incr_small by done.
      destruct (N.eqb_spec (strong_count_ b1) 0); [lia|].
      destruct (N.eqb_spec (strong_count_ b1 + 1) 0); [lia|].
      repeat split; (done || lia).
    + apply andb_true_iff in Hent as [Hv Hmax%N.ltb_lt].
      unfold ControlBlockBase.add_weak_link in Hcall.
      rewrite (modify_ok _ _ _ _ Hb1 Hl1) in Hcall. injection Hcall as <-.
      eexists. split; [apply lookup_insert_eq|].
      unfold destroyed_as_counted. simpl. rewrite incr_small by done.
      destruct (N.eqb_spec (weak_count_ b1 + 1) 0); [lia|].
      rewrite andb_false_r. rewrite Hdb.
      assert (live b1 = true → delete_block_calls b1 = 0%nat) as Hz
        by (unfold live; by destruct (delete_block_calls b1)).
      rewrite <- Hdb, (Hz Hl1). repeat split; (done || lia).
    + apply N.ltb_lt in Hent.
      rewrite (remove_strong_link_outcome _ _ _ Hb1 Hl1 Hent Hs) in Hcall.
      assert (σ2 = after_remove_strong σ1 l b1) as ->
        by (destruct (strong_count_ b1 =? 1),
                     (objects_after_delete b1 (objects σ1)); congruence).
      destruct (after_remove_strong_block σ1 l b1 Hl1)
        as (b' & U & Hs' & Hw' & _ & Hdd' & Hdb').
      exists b'. split; [by eapply block_update_lookup|].
      unfold destroyed_as_counted. rewrite Hs', Hw', Hdd', Hdb', Hdd.
      destruct (N.eqb_spec (strong_count_ b1) 0); [lia|].
      destruct (N.eqb_spec (strong_count_ b1) 1), (N.eqb_spec (strong_count_ b1 - 1) 0);
        try lia; repeat split; (done || lia).
    + apply N.ltb_lt in Hent.
      destruct (remove_weak_link_ok _ _ _ Hb1 Hl1 Hent Hw)
        as (σ' & b' & Hrun & U & Hs' & Hw' & Hdd' & Hdb').
      rewrite Hrun in Hcall. injection Hcall as <-.
      exists b'. split; [by eapply block_update_lookup|].
      unfold destroyed_as_counted. rewrite Hs', Hw', Hdd', Hdb', Hdd.
      destruct (N.eqb_spec (weak_count_ b1) 1), (N.eqb_spec (weak_count_ b1 - 1) 0);
        try lia; repeat split; (done || lia).
Qed.

(** A block that holds its first strong link satisfies the invariant. *)
Lemma first_link_destroyed_as_counted ptr deleter :
  destroyed_as_counted (with_strong 1 (PtrControlBlock.ctor ptr deleter)).
Proof. unfold destroyed_as_counted. simpl. repeat split; vm_compute; discriminate. Qed.

(** The call that [lock()] makes on an expired WeakPtr is not one of
    them. *)
Example lock_on_expired_not_entitled : entitled AddStrong dead_block = false.
Proof. reflexivity. Qed.

(** C3, at the input where the code departs from it: after
    [w.lock()] on the expired [w] the strong count of the block is 1
    although its value has been destroyed.  Releasing that SharedPtr
    passes the assertion of [remove_strong_link], brings the count to 0
    again and calls [delete_data] on the same block a second time: with
    [DefaultDelete] that is a second [delete] of the same pointer, which
    is undefined, and with a deleter that tolerates it the value has
    been destroyed twice. *)
Theorem value_destroyed_twice :
  (∃ σ1 b1,
     WeakPtr.lock "w" "s" expired_state = Ok (tt, σ1) ∧
     blocks σ1 !! 1%positive = Some b1 ∧
     strong_count_ b1 = 1 ∧ delete_data_calls b1 = 1%nat ∧
     ControlBlockBase.is_valid 1%positive σ1 = Ok (true, σ1) ∧
     ControlBlockBase.delete_data 1%positive
       (with_blocks (<[ 1%positive := with_strong 0 b1 ]> (blocks σ1)) σ1)
     = UndefinedBehavior ∧
     ControlBlockBase.remove_strong_link 1%positive σ1 = UndefinedBehavior ∧
     SharedPtr.reset "s" σ1 = UndefinedBehavior) ∧
  (∃ σ1 b1 σ2 b2,
     WeakPtr.lock "w" "s" expired_kept_state = Ok (tt, σ1) ∧
     blocks σ1 !! 1%positive = Some b1 ∧
     strong_count_ b1 = 1 ∧ delete_data_calls b1 = 1%nat ∧
     SharedPtr.reset "s" σ1 = Ok (tt, σ2) ∧
     blocks σ2 !! 1%positive = Some b2 ∧
     strong_count_ b2 = 0 ∧ delete_data_calls b2 = 2%nat ∧
     delete_block_calls b2 = 0%nat).
Proof.
  split.
  - exists (with_blocks {[ 1%positive := with_strong 1 dead_block ]}
             (with_shared_ptrs (<[ "s" := Some 1%positive ]> (shared_ptrs expired_state))
                expired_state)).
    exists (with_strong 1 dead_block).
    vm_compute. repeat split.
  - eexists. eexists (mkBlock (object 0) 1 1 (PtrControlBlock keep_object) 1 0).
    eexists. eexists (mkBlock (object 0) 0 1 (PtrControlBlock keep_object) 2 0).
    vm_compute. repeat split.
Qed.

(** ** C4 *)

(** C4 as stated fails.  The block that the raw-pointer constructor
    has just made is not valid in the sense of [is_valid()] (its strong
    count is 0), and the [add_strong_link] that the constructor calls on
    it returns normally; nor does the call abort on the block of
    [expired_state], whose value has been destroyed. *)
Lemma add_strong_link_without_validity :
  (ControlBlockBase.is_valid 1%positive new_block_state = Ok (false, new_block_state) ∧
   ControlBlockBase.add_strong_link 1%positive new_block_state
   = Ok (tt, with_blocks
               {[ 1%positive := with_strong 1 (PtrControlBlock.ctor (object 0) DefaultDelete) ]}
               new_block_state)) ∧
  (ControlBlockBase.is_valid 1%positive expired_state = Ok (false, expired_state) ∧
   ControlBlockBase.add_strong_link 1%positive expired_state ≠ AssertionFailed).
Proof. vm_compute. repeat split. discriminate. Qed.

(** The header SharedPtr.hpp does assert what C4 says. *)
Lemma SharedPtr_hpp_add_strong_link_asserts σ l b :
  blocks σ !! l = Some b → live b = true → strong_count_ b = 0 →
  SharedPtr_hpp.add_strong_link l σ = AssertionFailed.
Proof.
  intros Hb Hl Hs. unfold SharedPtr_hpp.add_strong_link.
  rewrite (bind_Ok_l _ _ _ _ _ (is_valid_ok _ _ _ Hb Hl)). by rewrite Hs.
Qed.

(** C4, amended: [add_strong_link()] carries no assertion and does not
    require a positive strong count: on a block whose value has not been
    destroyed, be it valid or just made with strong count 0, it returns
    normally and has incremented the strong count by one. *)
Theorem add_strong_link_increments (σ : state) (l : loc) (b : ControlBlockBase) :
  blocks σ !! l = Some b → live b = true →
  delete_data_calls b = 0%nat →
  strong_count_ b < SIZE_MAX →
  ControlBlockBase.add_strong_link l σ
  = Ok (tt, with_blocks (<[l := with_strong (strong_count_ b + 1) b]> (blocks σ)) σ).
Proof.
  intros Hb Hl _ Hs. rewrite <- (incr_small _ Hs). by apply add_strong_link_ok.
Qed.

Lemma add_strong_link_increments_witness :
  ControlBlockBase.add_strong_link 1%positive new_block_state
  = Ok (tt, with_blocks
              (<[1%positive := with_strong
                   (strong_count_ (PtrControlBlock.ctor (object 0) DefaultDelete) + 1)
                   (PtrControlBlock.ctor (object 0) DefaultDelete)]> (blocks new_block_state))
              new_block_state).
Proof.
  apply (add_strong_link_increments new_block_state 1%positive
           (PtrControlBlock.ctor (object 0) DefaultDelete)).
  - vm_compute. reflexivity.
  - vm_compute. reflexivity.
  - vm_compute. reflexivity.
  - vm_compute. reflexivity.
Defined.

(** ** C7 *)

Lemma wp_reset_handles this σ :
  wp (SharedPtr.reset this)
     (λ _ σ', shared_ptrs σ' = <[this := None]> (shared_ptrs σ)) σ.
Proof.
  unfold SharedPtr.reset. apply wp_bind, wp_shared_ctl_block_. intros [l|] Hh.
  - apply wp_bind, wp_remove_strong_link. intros b b' σ' _ _ _ _ _ (_ & Hs & _).
    apply wp_shared_set_ctl_block_. simpl. by rewrite Hs.
  - apply wp_bind, wp_ret, wp_shared_set_ctl_block_. done.
Qed.

Lemma wp_weak_reset_handles this other σ :
  weak_ptrs σ !! other = Some None →
  wp (WeakPtr.reset this) (λ _ σ', weak_ptrs σ' !! other = Some None) σ.
Proof.
  intros Ho. unfold WeakPtr.reset. apply wp_bind. intros c σ1.
  unfold WeakPtr.ctl_block_. destruct (weak_ptrs σ !! this) as [c'|] eqn:E; [|done].
  intros [= <- <-]. destruct c' as [l|].
  - apply wp_bind, wp_remove_weak_link. intros b b' σ' _ _ _ _ (_ & _ & Hw).
    intros [] ? [= <-]. simpl. rewrite Hw.
    destruct (decide (this = other)) as [->|Hne]; [congruence|].
    by rewrite lookup_insert_ne.
  - by apply wp_ret.
Qed.

Lemma assign_copy_U_empty_source σ this other r :
  shared_ptrs σ !! other = Some None →
  SharedPtr.assign_copy_U this other σ ≠ Ok r.
Proof.
  intros Ho Hrun. unfold SharedPtr.assign_copy_U in Hrun.
  apply bind_Ok in Hrun as ([] & σ1 & Hreset & Hrun).
  apply wp_reset_handles in Hreset.
  assert (shared_ptrs σ1 !! other = Some None) as Ho1.
  { rewrite Hreset. destruct (decide (this = other)) as [->|Hne].
    - apply lookup_insert_eq.
    - by rewrite lookup_insert_ne. }
  rewrite (bind_Ok_l _ _ _ _ _ (shared_ctl_block_ok _ _ _ Ho1)) in Hrun.
  run. discriminate.
Qed.

(** C7 as stated fails for the same-type overload: with an empty source
    handle, assigning it to itself is well defined and changes nothing. *)
Lemma assign_copy_self_empty_source :
  shared_ptrs expired_state !! "a" = Some None ∧
  SharedPtr.assign_copy "a" "a" expired_state = Ok (tt, expired_state).
Proof. vm_compute. split; reflexivity. Qed.

(** C7, amended: with an empty source handle, the template SharedPtr
    copy-assignment, the same-type SharedPtr copy-assignment between two
    distinct objects, and the member template
    [operator=(const WeakPtr<U>&)] of WeakPtr never return: having reset
    the destination they call [add_strong_link] or [add_weak_link]
    through the null block pointer of the source.  The same-type
    SharedPtr overload returns before any mutation when source and
    destination are one object.  A WeakPtr assignment [w = v] does not
    run the member template but the implicit copy assignment: it copies
    the null pointer and returns, and touches no block, not even the one
    [w] held.  Copy-construction accepts an empty source: SharedPtr
    tests the block pointer for null, and what copies a WeakPtr is the
    implicit copy constructor. *)
Theorem copy_assign_needs_source (σ : state) (this other wthis wother : var) :
  shared_ptrs σ !! other = Some None →
  weak_ptrs σ !! wother = Some None →
  (∀ r, SharedPtr.assign_copy_U this other σ ≠ Ok r) ∧
  (this ≠ other → ∀ r, SharedPtr.assign_copy this other σ ≠ Ok r) ∧
  (∀ r, WeakPtr.assign_copy_U wthis wother σ ≠ Ok r) ∧
  WeakPtr.assign_copy wthis wother σ
    = Ok (tt, with_weak_ptrs (<[wthis := None]> (weak_ptrs σ)) σ) ∧
  SharedPtr.assign_copy other other σ = Ok (tt, σ) ∧
  SharedPtr.ctor_copy this other σ
    = Ok (tt, with_shared_ptrs (<[this := None]> (shared_ptrs σ)) σ) ∧
  WeakPtr.ctor_copy wthis wother σ
    = Ok (tt, with_weak_ptrs (<[wthis := None]> (weak_ptrs σ)) σ).
Proof.
  intros Ho Hwo. repeat split.
  - intros r. by apply assign_copy_U_empty_source.
  - intros Hne r. unfold SharedPtr.assign_copy.
    rewrite bool_decide_eq_false_2 by done.
    by apply (assign_copy_U_empty_source σ this other r).
  - intros r Hrun. unfold WeakPtr.assign_copy_U in Hrun.
    apply bind_Ok in Hrun as ([] & σ1 & Hreset & Hrun).
    apply (wp_weak_reset_handles wthis wother σ Hwo) in Hreset.
    rewrite (bind_Ok_l _ _ _ _ _ (weak_ctl_block_ok _ _ _ Hreset)) in Hrun.
    run. discriminate.
  - unfold WeakPtr.assign_copy. run. by rewrite Hwo.
  - unfold SharedPtr.assign_copy. by rewrite bool_decide_eq_true_2.
  - unfold SharedPtr.ctor_copy, SharedPtr.ctor_block. run. by rewrite Ho.
  - unfold WeakPtr.ctor_copy. run. by rewrite Hwo.
Qed.

Lemma copy_assign_needs_source_witness :
  (∀ r, SharedPtr.assign_copy_U "b" "a" empty_handles_state ≠ Ok r) ∧
  ("b" ≠ "a" → ∀ r, SharedPtr.assign_copy "b" "a" empty_handles_state ≠ Ok r) ∧
  (∀ r, WeakPtr.assign_copy_U "w" "v" empty_handles_state ≠ Ok r) ∧
  WeakPtr.assign_copy "w" "v" empty_handles_state
    = Ok (tt, with_weak_ptrs (<[ "w" := None ]> (weak_ptrs empty_handles_state))
                empty_handles_state) ∧
  SharedPtr.ctor_copy "b" "a" empty_handles_state
    = Ok (tt, with_shared_ptrs (<[ "b" := None ]> (shared_ptrs empty_handles_state))
                empty_handles_state).
Proof.
  destruct (copy_assign_needs_source empty_handles_state "b" "a" "w" "v")
    as (H1 & H2 & H3 & H4 & _ & H6 & _).
  - vm_compute. reflexivity.
  - vm_compute. reflexivity.
  - repeat split; assumption.
Defined.

(** * Further properties of the handles *)

Lemma with_strong_id b : with_strong (strong_count_ b) b = b.
Proof. by destruct b. Qed.

Lemma with_blocks_id σ : with_blocks (blocks σ) σ = σ.
Proof. by destruct σ. Qed.

(** [remove_strong_link] below the last link: the count goes down and
    nothing else happens. *)
Lemma remove_strong_link_not_last σ l b :
  blocks σ !! l = Some b → live b = true →
  1 < strong_count_ b → strong_count_ b ≤ SIZE_MAX →
  ControlBlockBase.remove_strong_link l σ
  = Ok (tt, with_blocks (<[l := with_strong (strong_count_ b - 1) b]> (blocks σ)) σ).
Proof.
  intros Hb Hl Hpos Hmax. unfold ControlBlockBase.remove_strong_link.
  rewrite (bind_Ok_l _ _ _ _ _ (is_valid_ok _ _ _ Hb Hl)).
  rewrite (proj2 (N.ltb_lt 0 _)) by lia.
  rewrite (bind_Ok_l _ _ _ _ _ (assert_ok _)).
  rewrite (bind_Ok_l _ _ _ _ _ (modify_ok _ _ _ _ Hb Hl)).
  rewrite decr_pos by (unfold SIZE_MAX in *; lia).
  set (b1 := with_strong (strong_count_ b - 1) b).
  set (σ1 := with_blocks _ σ).
  assert (blocks σ1 !! l = Some b1) as Hb1 by apply lookup_insert_eq.
  rewrite (bind_Ok_l _ _ _ _ _ (load_ok _ _ _ Hb1 Hl)).
  change (strong_count_ b1) with (strong_count_ b - 1).
  destruct (N.eqb_spec (strong_count_ b - 1) 0); [lia|done].
Qed.

(** The constructor from a pointer to a block that is there. *)
Lemma ctor_block_run σ this l b :
  blocks σ !! l = Some b → live b = true →
  SharedPtr.ctor_block this (Some l) σ
  = Ok (tt, with_blocks (<[l := with_strong (incr (strong_count_ b)) b]> (blocks σ))
              (with_shared_ptrs (<[this := Some l]> (shared_ptrs σ)) σ)).
Proof. intros Hb Hl. unfold SharedPtr.ctor_block. run. by rewrite Hb, Hl. Qed.

(** X1: copy construction from a SharedPtr that holds a block shares the
    block: afterwards both handles report a use count one higher than
    before and the same pointer, and nothing is allocated or destroyed. *)
Theorem ctor_copy_shares (σ : state) (this other : var) (l : loc)
    (b : ControlBlockBase) :
  this ≠ other →
  shared_ptrs σ !! other = Some (Some l) →
  blocks σ !! l = Some b → live b = true →
  strong_count_ b < SIZE_MAX →
  ∃ σ', SharedPtr.ctor_copy this other σ = Ok (tt, σ') ∧
    SharedPtr.use_count this σ' = Ok (strong_count_ b + 1, σ') ∧
    SharedPtr.use_count other σ' = Ok (strong_count_ b + 1, σ') ∧
    SharedPtr.get this σ' = Ok (data_ b, σ') ∧
    SharedPtr.get other σ' = Ok (data_ b, σ') ∧
    objects σ' = objects σ ∧
    allocate_calls σ' = allocate_calls σ ∧
    deallocate_calls σ' = deallocate_calls σ.
Proof.
  intros Hne Ho Hb Hl Hmax. unfold SharedPtr.ctor_copy.
  rewrite (bind_Ok_l _ _ _ _ _ (shared_ctl_block_ok _ _ _ Ho)).
  unfold SharedPtr.ctor_block. run. rewrite Hb, Hl. simpl.
  rewrite incr_small by done. eexists. split; [reflexivity|].
  set (b' := with_strong (strong_count_ b + 1) b).
  assert (∀ bs : gmap loc ControlBlockBase, <[l := b']> bs !! l = Some b') as Hb'
    by (intros; apply lookup_insert_eq).
  repeat split; simpl.
  - eapply (use_count_ok _ _ l b'); simpl; [apply lookup_insert_eq|apply Hb'|done].
  - eapply (use_count_ok _ _ l b'); simpl; [|apply Hb'|done].
    by rewrite lookup_insert_ne.
  - eapply (get_ok _ _ l b'); simpl; [apply lookup_insert_eq|apply Hb'|done].
  - eapply (get_ok _ _ l b'); simpl; [|apply Hb'|done].
    by rewrite lookup_insert_ne.
Qed.

Lemma ctor_copy_shares_witness :
  ∃ σ', SharedPtr.ctor_copy "d" "a" two_block_state = Ok (tt, σ') ∧
    SharedPtr.use_count "d" σ' = Ok (3, σ') ∧
    SharedPtr.use_count "a" σ' = Ok (3, σ') ∧
    SharedPtr.get "d" σ' = Ok (object 0, σ').
Proof.
  destruct (ctor_copy_shares two_block_state "d" "a" 1%positive
              (mkBlock (object 0) 2 0 (PtrControlBlock DefaultDelete) 0 0))
    as (σ' & H1 & H2 & H3 & H4 & _); try (vm_compute; reflexivity).
  - discriminate.
  - exists σ'. repeat split; assumption.
Defined.

(** X2: move construction hands the block over: the new handle holds
    what the source held, the source is left empty, and the control
    blocks, the objects and the allocation counts are exactly as they
    were (the link that the constructor adds is the one that the reset of
    the source removes). *)
Theorem ctor_move_transfers (σ : state) (this other : var) (c : option loc) :
  this ≠ other →
  shared_ptrs σ !! other = Some c →
  (∀ l, c = Some l →
     ∃ b, blocks σ !! l = Some b ∧ live b = true ∧
          0 < strong_count_ b ∧ strong_count_ b < SIZE_MAX) →
  SharedPtr.ctor_move this other σ
  = Ok (tt, with_shared_ptrs (<[other := None]> (<[this := c]> (shared_ptrs σ))) σ).
Proof.
  intros Hne Ho Hvalid. unfold SharedPtr.ctor_move.
  rewrite (bind_Ok_l _ _ _ _ _ (shared_ctl_block_ok _ _ _ Ho)).
  destruct c as [l|].
  - destruct (Hvalid l eq_refl) as (b & Hb & Hl & Hpos & Hmax).
    rewrite (bind_Ok_l _ _ _ _ _ (ctor_block_run _ this _ _ Hb Hl)).
    unfold SharedPtr.reset. rewrite incr_small by done.
    set (σ1 := with_shared_ptrs (<[this := Some l]> (shared_ptrs σ)) σ).
    set (b2 := with_strong (strong_count_ b + 1) b).
    set (σ2 := with_blocks _ σ1).
    assert (live b2 = true) as Hl2 by done.
    assert (shared_ptrs σ2 !! other = Some (Some l)) as Ho2
      by (simpl; by rewrite lookup_insert_ne).
    rewrite (bind_Ok_l _ _ _ _ _ (shared_ctl_block_ok _ _ _ Ho2)).
    assert (blocks σ2 !! l = Some b2) as Hb2 by apply lookup_insert_eq.
    rewrite (bind_Ok_l _ _ _ _ _
               (remove_strong_link_not_last σ2 l b2 Hb2 Hl2 ltac:(simpl; lia)
                  ltac:(simpl; unfold SIZE_MAX in *; lia))).
    run. f_equal. f_equal. unfold with_blocks, with_shared_ptrs. simpl.
    rewrite insert_insert_eq.
    replace (strong_count_ b + 1 - 1) with (strong_count_ b) by lia.
    change (with_strong (strong_count_ b) b2) with (with_strong (strong_count_ b) b).
    rewrite with_strong_id, insert_id by done. by destruct σ.
  - unfold SharedPtr.ctor_block, SharedPtr.reset. run.
    rewrite lookup_insert_ne, Ho by done. done.
Qed.

Lemma ctor_move_transfers_witness :
  SharedPtr.ctor_move "d" "c" two_block_state
  = Ok (tt, with_shared_ptrs
              (<[ "c" := None ]> (<[ "d" := Some 2%positive ]>
                 (shared_ptrs two_block_state))) two_block_state).
Proof.
  apply (ctor_move_transfers two_block_state "d" "c" (Some 2%positive)).
  - discriminate.
  - vm_compute. reflexivity.
  - intros l [= <-].
    exists (mkBlock (object 1) 1 0 (PtrControlBlock DefaultDelete) 0 0).
    repeat split; vm_compute; reflexivity.
Defined.

(** [reset()] of a handle with a block, from the run of
    [remove_strong_link]. *)
Lemma reset_run σ h l σ1 :
  shared_ptrs σ !! h = Some (Some l) →
  ControlBlockBase.remove_strong_link l σ = Ok (tt, σ1) →
  SharedPtr.reset h σ
  = Ok (tt, with_shared_ptrs (<[h := None]> (shared_ptrs σ1)) σ1).
Proof.
  intros Hh Hrun. unfold SharedPtr.reset.
  rewrite (bind_Ok_l _ _ _ _ _ (shared_ctl_block_ok _ _ _ Hh)).
  by rewrite (bind_Ok_l _ _ _ _ _ Hrun).
Qed.

(** X3: copy assignment between two distinct SharedPtr objects that
    already share one block changes nothing at all: the link that the
    reset of the destination removes is not the last one, so nothing is
    destroyed, and the assignment adds it back. *)
Theorem assign_copy_same_block (σ : state) (this other : var) (l : loc)
    (b : ControlBlockBase) :
  this ≠ other →
  shared_ptrs σ !! this = Some (Some l) →
  shared_ptrs σ !! other = Some (Some l) →
  blocks σ !! l = Some b → live b = true →
  1 < strong_count_ b → strong_count_ b ≤ SIZE_MAX →
  SharedPtr.assign_copy this other σ = Ok (tt, σ) ∧
  SharedPtr.assign_copy_U this other σ = Ok (tt, σ).
Proof.
  intros Hne Ht Ho Hb Hl Hpos Hmax.
  assert (SharedPtr.assign_copy_U this other σ = Ok (tt, σ)) as HU.
  { unfold SharedPtr.assign_copy_U.
    rewrite (bind_Ok_l _ _ _ _ _
               (reset_run _ _ _ _ Ht
                  (remove_strong_link_not_last _ _ _ Hb Hl Hpos Hmax))).
    run. rewrite lookup_insert_ne, Ho by done. simpl.
    rewrite lookup_insert_eq. simpl. rewrite insert_insert_eq.
    change (live (with_strong (strong_count_ b - 1) b)) with (live b).
    rewrite Hl. simpl.
    rewrite incr_small by (unfold SIZE_MAX in *; lia).
    replace (strong_count_ b - 1 + 1) with (strong_count_ b) by lia.
    change (with_strong (strong_count_ b) (with_strong (strong_count_ b - 1) b))
      with (with_strong (strong_count_ b) b).
    rewrite with_strong_id. rewrite insert_insert_eq.
    rewrite !insert_id by done. f_equal. f_equal. by destruct σ. }
  split; [|done]. unfold SharedPtr.assign_copy.
  by rewrite bool_decide_eq_false_2.
Qed.

Lemma assign_copy_same_block_witness :
  SharedPtr.assign_copy "a" "b" two_block_state = Ok (tt, two_block_state) ∧
  SharedPtr.assign_copy_U "a" "b" two_block_state = Ok (tt, two_block_state).
Proof.
  apply (assign_copy_same_block two_block_state "a" "b" 1%positive
           (mkBlock (object 0) 2 0 (PtrControlBlock DefaultDelete) 0 0));
    try (vm_compute; reflexivity); discriminate.
Defined.

Lemma bind_assoc {A B C} (m : M A) (f : A → M B) (g : B → M C) σ :
  ((m ≫= f) ≫= g) σ = (m ≫= (λ a, f a ≫= g)) σ.
Proof. unfold mbind, M_bind. by destruct (m σ) as [[a σ1]| | |]. Qed.

Lemma bind_ext {A B} (m : M A) (f g : A → M B) σ :
  (∀ a σ1, m σ = Ok (a, σ1) → f a σ1 = g a σ1) →
  (m ≫= f) σ = (m ≫= g) σ.
Proof. intros H. unfold mbind, M_bind. destruct (m σ) as [[a σ1]| | |]; auto. Qed.

(** X4: between two distinct objects and from a source that holds a
    block, copy assignment is destruction of the destination followed by
    copy construction in its place, with the same outcome also when the
    destruction aborts or is undefined; the same holds for the template
    overload. *)
Theorem assign_copy_is_dtor_then_ctor (σ : state) (this other : var) (l : loc) :
  this ≠ other →
  shared_ptrs σ !! other = Some (Some l) →
  SharedPtr.assign_copy this other σ
  = (SharedPtr.dtor this;; SharedPtr.ctor_copy this other) σ ∧
  SharedPtr.assign_copy_U this other σ
  = (SharedPtr.dtor this;; SharedPtr.ctor_copy this other) σ.
Proof.
  intros Hne Ho.
  assert (SharedPtr.assign_copy_U this other σ
          = (SharedPtr.dtor this;; SharedPtr.ctor_copy this other) σ) as HU.
  { unfold SharedPtr.assign_copy_U, SharedPtr.dtor.
    rewrite bind_assoc. apply bind_ext. intros [] σ1 E.
    pose proof (wp_reset_handles this σ tt σ1 E) as Hs. simpl in Hs.
    assert (shared_ptrs σ1 !! other = Some (Some l)) as Ho1
      by (rewrite Hs; by rewrite lookup_insert_ne).
    rewrite (bind_Ok_l _ _ _ _ _ (shared_ctl_block_ok _ _ _ Ho1)).
    unfold SharedPtr.ctor_copy, SharedPtr.ctor_block. run.
    rewrite lookup_delete_ne, Ho1 by done. simpl.
    by rewrite insert_delete_eq. }
  split; [|done]. unfold SharedPtr.assign_copy.
  by rewrite bool_decide_eq_false_2.
Qed.

Lemma assign_copy_is_dtor_then_ctor_witness :
  SharedPtr.assign_copy "c" "a" two_block_state
  = (SharedPtr.dtor "c";; SharedPtr.ctor_copy "c" "a") two_block_state ∧
  SharedPtr.assign_copy_U "c" "a" two_block_state
  = (SharedPtr.dtor "c";; SharedPtr.ctor_copy "c" "a") two_block_state.
Proof.
  apply (assign_copy_is_dtor_then_ctor two_block_state "c" "a" 1%positive).
  - discriminate.
  - vm_compute. reflexivity.
Defined.

(** What that assignment does in [two_block_state]: [c] lets go of the
    last link of its block, whose value is deleted and which is freed, and
    joins the owners of the other block. *)
Example assign_copy_rebinds :
  ∃ σ', SharedPtr.assign_copy "c" "a" two_block_state = Ok (tt, σ') ∧
    SharedPtr.use_count "c" σ' = Ok (3, σ') ∧
    SharedPtr.get "c" σ' = Ok (object 0, σ') ∧
    objects σ' !! 1 = None ∧
    deallocate_calls σ' = 1%nat.
Proof. eexists. vm_compute. repeat split. Qed.

(** X5: move assignment into an empty SharedPtr from another object only
    exchanges the two block pointers: no control block is read, no count
    changes, and the source is left empty. *)
Theorem assign_move_into_empty (σ : state) (this other : var) (c : option loc) :
  this ≠ other →
  shared_ptrs σ !! this = Some None →
  shared_ptrs σ !! other = Some c →
  SharedPtr.assign_move this other σ
  = Ok (tt, with_shared_ptrs (<[other := None]> (<[this := c]> (shared_ptrs σ))) σ) ∧
  SharedPtr.assign_move_U this other σ
  = Ok (tt, with_shared_ptrs (<[other := None]> (<[this := c]> (shared_ptrs σ))) σ).
Proof.
  intros Hne Ht Ho.
  assert (SharedPtr.assign_move_U this other σ
          = Ok (tt, with_shared_ptrs
                      (<[other := None]> (<[this := c]> (shared_ptrs σ))) σ)) as HU.
  { unfold SharedPtr.assign_move_U.
    rewrite (bind_Ok_l _ _ _ _ _ (reset_empty _ _ Ht)).
    unfold SharedPtr.swap_ctl_block_. run. by rewrite Ht, Ho. }
  split; [|done]. unfold SharedPtr.assign_move.
  by rewrite bool_decide_eq_false_2.
Qed.

Lemma assign_move_into_empty_witness :
  SharedPtr.assign_move "e" "c" two_block_state
  = Ok (tt, with_shared_ptrs
              (<[ "c" := None ]> (<[ "e" := Some 2%positive ]>
                 (shared_ptrs two_block_state))) two_block_state) ∧
  SharedPtr.assign_move_U "e" "c" two_block_state
  = Ok (tt, with_shared_ptrs
              (<[ "c" := None ]> (<[ "e" := Some 2%positive ]>
                 (shared_ptrs two_block_state))) two_block_state).
Proof.
  apply (assign_move_into_empty two_block_state "e" "c" (Some 2%positive)).
  - discriminate.
  - vm_compute. reflexivity.
  - vm_compute. reflexivity.
Defined.

(** ** The removal of a link, run *)

Lemma remove_weak_link_run σ l b :
  blocks σ !! l = Some b → live b = true →
  0 < weak_count_ b → weak_count_ b ≤ SIZE_MAX →
  ControlBlockBase.remove_weak_link l σ = Ok (tt, after_remove_weak σ l b).
Proof.
  intros Hb Hl Hpos Hmax. unfold ControlBlockBase.remove_weak_link.
  rewrite (bind_Ok_l _ _ _ _ _ (is_valid_ok _ _ _ Hb Hl)).
  rewrite (bind_Ok_l _ _ _ _ _ (load_ok _ _ _ Hb Hl)).
  rewrite (proj2 (N.ltb_lt _ _) Hpos), orb_true_r.
  rewrite (bind_Ok_l _ _ _ _ _ (assert_ok _)).
  rewrite (bind_Ok_l _ _ _ _ _ (modify_ok _ _ _ _ Hb Hl)).
  rewrite decr_pos by (unfold SIZE_MAX in *; lia).
  unfold after_remove_weak.
  set (b1 := with_weak (weak_count_ b - 1) b).
  set (σ1 := with_blocks _ σ).
  assert (blocks σ1 !! l = Some b1) as Hb1 by apply lookup_insert_eq.
  assert (live b1 = true) as Hl1 by done.
  rewrite (bind_Ok_l _ _ _ _ _ (load_ok _ _ _ Hb1 Hl1)).
  change (strong_count_ b1) with (strong_count_ b).
  change (weak_count_ b1) with (weak_count_ b - 1).
  assert ((weak_count_ b - 1 =? 0) = (weak_count_ b =? 1)) as ->
    by (destruct (N.eqb_spec (weak_count_ b - 1) 0), (N.eqb_spec (weak_count_ b) 1);
        (done || lia)).
  destruct ((strong_count_ b =? 0) && (weak_count_ b =? 1)); [|done].
  rewrite (delete_block_run _ _ _ Hb1 Hl1). f_equal. f_equal.
  unfold count_deallocate, with_blocks, σ1. simpl. by rewrite insert_insert_eq.
Qed.

Lemma reset_undefined σ h l :
  shared_ptrs σ !! h = Some (Some l) →
  ControlBlockBase.remove_strong_link l σ = UndefinedBehavior →
  SharedPtr.reset h σ = UndefinedBehavior.
Proof.
  intros Hh Hrun. unfold SharedPtr.reset.
  rewrite (bind_Ok_l _ _ _ _ _ (shared_ctl_block_ok _ _ _ Hh)).
  by apply bind_undefined.
Qed.

Lemma dtor_run σ h l b :
  shared_ptrs σ !! h = Some (Some l) →
  blocks σ !! l = Some b → live b = true →
  0 < strong_count_ b → strong_count_ b ≤ SIZE_MAX →
  (strong_count_ b = 1 → is_Some (objects_after_delete b (objects σ))) →
  SharedPtr.dtor h σ
  = Ok (tt, with_shared_ptrs (delete h (shared_ptrs σ)) (after_remove_strong σ l b)).
Proof.
  intros Hh Hb Hl Hpos Hmax Hv. unfold SharedPtr.dtor.
  rewrite (bind_Ok_l _ _ _ _ _
             (reset_run _ _ _ _ Hh (remove_strong_link_run _ _ _ Hb Hl Hpos Hmax Hv))).
  unfold SharedPtr.destroy. f_equal. f_equal.
  assert (shared_ptrs (after_remove_strong σ l b) = shared_ptrs σ) as Hs.
  { unfold after_remove_strong.
    by destruct (strong_count_ b =? 1), (weak_count_ b =? 0). }
  unfold with_shared_ptrs. simpl. rewrite Hs. by rewrite delete_insert_eq.
Qed.

(** X6: a SharedPtr made from a raw pointer and destroyed again, with no
    copy and no WeakPtr taken in between.  Where the deleter applies to
    the pointer that was given, nothing is left behind: the deleter has
    been called once, on that pointer, the one control block that was
    allocated has been deallocated, and every other block and every
    handle is as before.  Where it does not apply (for [DefaultDelete]:
    the pointer is not to a live object made by [new]) the destructor
    runs into undefined behaviour. *)
Theorem ctor_ptr_then_dtor (σ : state) (this : var) (ptr : pointer)
    (deleter : Deleter) (alloc : Alloc) (l : loc) :
  alloc σ = Some l →
  shared_ptrs σ !! this = None →
  match deleter ptr (objects σ) with
  | Some objs' =>
      ∃ σ', (SharedPtr.ctor_ptr this ptr deleter alloc;; SharedPtr.dtor this) σ
            = Ok (tt, σ') ∧
        objects σ' = objs' ∧
        shared_ptrs σ' = shared_ptrs σ ∧
        weak_ptrs σ' = weak_ptrs σ ∧
        allocate_calls σ' = S (allocate_calls σ) ∧
        deallocate_calls σ' = S (deallocate_calls σ) ∧
        blocks σ' !! l = Some (mkBlock ptr 0 0 (PtrControlBlock deleter) 1 1) ∧
        ∀ l', l' ≠ l → blocks σ' !! l' = blocks σ !! l'
  | None =>
      (SharedPtr.ctor_ptr this ptr deleter alloc;; SharedPtr.dtor this) σ
      = UndefinedBehavior
  end.
Proof.
  intros Ha Hfresh.
  rewrite (bind_Ok_l _ _ _ _ _ (ctor_ptr_run _ this ptr deleter _ _ Ha)).
  set (σ1 := after_ctor_ptr σ this ptr deleter l).
  pose proof (after_ctor_ptr_block σ this ptr deleter l) as Hb.
  pose proof (after_ctor_ptr_handle σ this ptr deleter l) as Hh.
  assert (objects_after_delete (mkBlock ptr 1 0 (PtrControlBlock deleter) 0 0)
            (objects σ1) = deleter ptr (objects σ)) as Ho by done.
  destruct (deleter ptr (objects σ)) as [objs'|] eqn:Hd.
  - rewrite (dtor_run σ1 this l _ Hh Hb)
      by (done || (vm_compute; discriminate) || (rewrite Ho; eauto)).
    eexists. split; [reflexivity|]. unfold after_remove_strong. simpl.
    change (objects σ1) with (objects σ) in Ho. rewrite Ho. simpl.
    repeat split.
    + by apply delete_insert_id.
    + by rewrite lookup_insert_eq.
    + intros l' Hne. by rewrite !lookup_insert_ne.
  - unfold SharedPtr.dtor. apply bind_undefined.
    apply (reset_undefined σ1 this l Hh).
    by apply (remove_strong_link_undefined σ1 l _ Hb).
Qed.

Lemma ctor_ptr_then_dtor_witness :
  ∃ σ', (SharedPtr.ctor_ptr "q" (object 0) DefaultDelete std_allocator;;
         SharedPtr.dtor "q") two_block_state = Ok (tt, σ') ∧
    objects σ' = {[ 1 := 20%Z ]} ∧
    shared_ptrs σ' = shared_ptrs two_block_state ∧
    allocate_calls σ' = 3%nat ∧
    deallocate_calls σ' = 1%nat.
Proof.
  pose proof (ctor_ptr_then_dtor two_block_state "q" (object 0) DefaultDelete
                std_allocator 3%positive) as H.
  destruct (DefaultDelete (object 0) (objects two_block_state)) as [objs'|] eqn:E;
    [|vm_compute in E; discriminate].
  destruct H as (σ' & H1 & H2 & H3 & _ & H5 & H6 & _); try (vm_compute; reflexivity).
  exists σ'. repeat split; try assumption.
  rewrite H2. vm_compute in E. injection E as <-. vm_compute. reflexivity.
Defined.

Lemma allocate_shared_run σ ret alloc v l :
  alloc σ = Some l →
  AllocateShared ret alloc v σ
  = Ok (tt, with_blocks
              (<[l := mkBlock (embedded l) 1 0 (ValueControlBlock (Some v)) 0 0]>
                 (blocks σ))
              (with_shared_ptrs (<[ret := Some l]> (shared_ptrs σ))
                 (count_allocate σ))).
Proof.
  intros Ha. unfold AllocateShared, ValueControlBlock.make_block,
    ValueControlBlock.ctor, SharedPtr.ctor_block. run.
  rewrite Ha. simpl. rewrite !lookup_insert_eq. simpl.
  rewrite !lookup_insert_eq. simpl. by rewrite !insert_insert_eq.
Qed.

(** X7: the same for [AllocateShared]: the handle it returns, destroyed
    with no copy and no WeakPtr taken, has run the destructor of the
    embedded value once and deallocated the one unit that was allocated;
    the objects made by [new] and all other blocks and handles are
    untouched. *)
Theorem AllocateShared_then_dtor (σ : state) (ret : var) (alloc : Alloc)
    (v : T) (l : loc) :
  alloc σ = Some l →
  shared_ptrs σ !! ret = None →
  ∃ σ', (AllocateShared ret alloc v;; SharedPtr.dtor ret) σ = Ok (tt, σ') ∧
    objects σ' = objects σ ∧
    shared_ptrs σ' = shared_ptrs σ ∧
    weak_ptrs σ' = weak_ptrs σ ∧
    new_calls σ' = new_calls σ ∧
    allocate_calls σ' = S (allocate_calls σ) ∧
    deallocate_calls σ' = S (deallocate_calls σ) ∧
    blocks σ' !! l = Some (mkBlock (embedded l) 0 0 (ValueControlBlock None) 1 1) ∧
    ∀ l', l' ≠ l → blocks σ' !! l' = blocks σ !! l'.
Proof.
  intros Ha Hfresh.
  rewrite (bind_Ok_l _ _ _ _ _ (allocate_shared_run _ ret _ v _ Ha)).
  set (b := mkBlock (embedded l) 1 0 (ValueControlBlock (Some v)) 0 0).
  set (σ1 := with_blocks _ _).
  assert (blocks σ1 !! l = Some b) as Hb by apply lookup_insert_eq.
  assert (shared_ptrs σ1 !! ret = Some (Some l)) as Hh by apply lookup_insert_eq.
  rewrite (dtor_run σ1 ret l _ Hh Hb) by (done || (vm_compute; discriminate) || eauto).
  eexists. split; [reflexivity|]. unfold after_remove_strong. simpl.
  repeat split.
  - by apply delete_insert_id.
  - by rewrite lookup_insert_eq.
  - intros l' Hne. by rewrite !lookup_insert_ne.
Qed.

Lemma AllocateShared_then_dtor_witness :
  ∃ σ', (AllocateShared "q" std_allocator 7%Z;; SharedPtr.dtor "q") two_block_state
        = Ok (tt, σ') ∧
    objects σ' = objects two_block_state ∧
    shared_ptrs σ' = shared_ptrs two_block_state ∧
    allocate_calls σ' = 3%nat ∧
    deallocate_calls σ' = 1%nat.
Proof.
  destruct (AllocateShared_then_dtor two_block_state "q" std_allocator 7%Z 3%positive)
    as (σ' & H1 & H2 & H3 & _ & _ & H5 & H6 & _); try (vm_compute; reflexivity).
  exists σ'. repeat split; assumption.
Defined.

(** ** WeakPtr *)

Lemma weak_ctor_block_run σ this l b :
  blocks σ !! l = Some b → live b = true →
  WeakPtr.ctor_block this (Some l) σ
  = Ok (tt, with_blocks (<[l := with_weak (incr (weak_count_ b)) b]> (blocks σ))
              (with_weak_ptrs (<[this := Some l]> (weak_ptrs σ)) σ)).
Proof. intros Hb Hl. unfold WeakPtr.ctor_block. run. by rewrite Hb, Hl. Qed.

Lemma weak_reset_run σ h l σ1 :
  weak_ptrs σ !! h = Some (Some l) →
  ControlBlockBase.remove_weak_link l σ = Ok (tt, σ1) →
  WeakPtr.reset h σ
  = Ok (tt, with_weak_ptrs (<[h := None]> (weak_ptrs σ1)) σ1).
Proof.
  intros Hh Hrun. unfold WeakPtr.reset.
  rewrite (bind_Ok_l _ _ _ _ _ (weak_ctl_block_ok _ _ _ Hh)).
  by rewrite (bind_Ok_l _ _ _ _ _ Hrun).
Qed.

Lemma weak_reset_empty σ h :
  weak_ptrs σ !! h = Some None → WeakPtr.reset h σ = Ok (tt, σ).
Proof. intros Hh. unfold WeakPtr.reset. run. by rewrite Hh. Qed.

Lemma expired_ok σ w l b :
  weak_ptrs σ !! w = Some (Some l) → blocks σ !! l = Some b → live b = true →
  WeakPtr.expired w σ = Ok (negb (0 <? strong_count_ b), σ).
Proof.
  intros Hw Hb Hl. unfold WeakPtr.expired.
  rewrite (bind_Ok_l _ _ _ _ _ (weak_ctl_block_ok _ _ _ Hw)).
  by rewrite (bind_Ok_l _ _ _ _ _ (is_valid_ok _ _ _ Hb Hl)).
Qed.

(** X8: a WeakPtr taken from the only SharedPtr of a block whose value
    has not been destroyed, and can be, is not expired; when that
    SharedPtr is reset the value is destroyed, once, but the control
    block is kept and the WeakPtr reports expired; the reset of the
    WeakPtr then deallocates the block. *)
Theorem weak_ptr_outlives_value (σ : state) (a w : var) (l : loc)
    (b : ControlBlockBase) (objs' : gmap N T) :
  shared_ptrs σ !! a = Some (Some l) →
  weak_ptrs σ !! w = None →
  blocks σ !! l = Some b → live b = true →
  strong_count_ b = 1 → weak_count_ b = 0 →
  delete_data_calls b = 0%nat →
  objects_after_delete b (objects σ) = Some objs' →
  ∃ σ1 σ2 σ3 b2 b3,
    WeakPtr.ctor_owner w a σ = Ok (tt, σ1) ∧
    WeakPtr.expired w σ1 = Ok (false, σ1) ∧
    SharedPtr.reset a σ1 = Ok (tt, σ2) ∧
    WeakPtr.expired w σ2 = Ok (true, σ2) ∧
    objects σ2 = objs' ∧
    blocks σ2 !! l = Some b2 ∧ live b2 = true ∧
    delete_data_calls b2 = 1%nat ∧
    deallocate_calls σ2 = deallocate_calls σ ∧
    WeakPtr.reset w σ2 = Ok (tt, σ3) ∧
    objects σ3 = objs' ∧
    blocks σ3 !! l = Some b3 ∧ live b3 = false ∧
    delete_data_calls b3 = 1%nat ∧
    deallocate_calls σ3 = S (deallocate_calls σ) ∧
    weak_ptrs σ3 !! w = Some None.
Proof.
  intros Ha Hw Hb Hl Hs Hwk Hdd Ho.
  destruct b as [d s wk dy dd db]. simpl in Hs, Hwk, Hdd. subst s wk dd.
  set (dd := 0%nat) in *.
  assert (db = 0%nat) as -> by (unfold live in Hl; simpl in Hl; by destruct db).
  set (b0 := mkBlock d 1 0 dy dd 0) in *.
  (* WeakPtr w(a) *)
  set (b1 := mkBlock d 1 1 dy dd 0).
  set (σ1 := with_blocks (<[l := b1]> (blocks σ))
               (with_weak_ptrs (<[w := Some l]> (weak_ptrs σ)) σ)).
  assert (WeakPtr.ctor_owner w a σ = Ok (tt, σ1)) as R1.
  { unfold WeakPtr.ctor_owner.
    rewrite (bind_Ok_l _ _ _ _ _ (shared_ctl_block_ok _ _ _ Ha)).
    by rewrite (weak_ctor_block_run _ _ _ _ Hb Hl). }
  assert (blocks σ1 !! l = Some b1) as Hb1 by apply lookup_insert_eq.
  assert (weak_ptrs σ1 !! w = Some (Some l)) as Hw1 by apply lookup_insert_eq.
  (* a.reset() *)
  set (b2 := value_deleted (mkBlock d 0 1 dy dd 0)).
  set (σ2 := with_shared_ptrs (<[a := None]> (shared_ptrs σ))
               (with_blocks (<[l := b2]> (blocks σ))
                  (with_objects objs' σ1))).
  assert (SharedPtr.reset a σ1 = Ok (tt, σ2)) as R2.
  { rewrite (reset_run σ1 a l _ Ha
               (remove_strong_link_run σ1 l b1 Hb1 eq_refl eq_refl
                  ltac:(vm_compute; discriminate)
                  (λ _, ex_intro _ objs' Ho))).
    unfold after_remove_strong.
    change (objects_after_delete b1 (objects σ1))
      with (objects_after_delete b0 (objects σ)).
    rewrite Ho. unfold σ2, σ1. simpl.
    by rewrite insert_insert_eq. }
  assert (live b2 = true) as Hl2 by (unfold b2, value_deleted; by destruct dy).
  assert (strong_count_ b2 = 0 ∧ weak_count_ b2 = 1
          ∧ delete_data_calls b2 = S dd) as (Hs2 & Hwk2 & Hdd2)
    by (unfold b2, value_deleted; by destruct dy).
  assert (blocks σ2 !! l = Some b2) as Hb2 by apply lookup_insert_eq.
  assert (weak_ptrs σ2 !! w = Some (Some l)) as Hw2 by apply lookup_insert_eq.
  (* w.reset() *)
  set (σ3 := with_weak_ptrs (<[w := None]> (weak_ptrs σ2)) (after_remove_weak σ2 l b2)).
  assert (WeakPtr.reset w σ2 = Ok (tt, σ3)) as R3.
  { rewrite (weak_reset_run σ2 w l _ Hw2
               (remove_weak_link_run σ2 l b2 Hb2 Hl2
                  ltac:(rewrite Hwk2; done)
                  ltac:(rewrite Hwk2; vm_compute; discriminate))).
    unfold σ3, after_remove_weak. by rewrite Hs2, Hwk2. }
  exists σ1, σ2, σ3, b2, (block_deleted (with_weak 0 b2)).
  split; [done|]. split; [by rewrite (expired_ok _ _ _ _ Hw1 Hb1)|].
  split; [done|]. split; [by rewrite (expired_ok _ _ _ _ Hw2 Hb2 Hl2), Hs2|].
  repeat split; try done.
  - unfold σ3, after_remove_weak. by rewrite Hs2, Hwk2.
  - unfold σ3, after_remove_weak. rewrite Hs2, Hwk2. simpl.
    by rewrite lookup_insert_eq.
  - unfold σ3, after_remove_weak. by rewrite Hs2, Hwk2.
  - apply lookup_insert_eq.
Qed.

Lemma weak_ptr_outlives_value_witness :
  ∃ σ1 σ2 σ3,
    WeakPtr.ctor_owner "w" "a" value_owner_state = Ok (tt, σ1) ∧
    WeakPtr.expired "w" σ1 = Ok (false, σ1) ∧
    SharedPtr.reset "a" σ1 = Ok (tt, σ2) ∧
    WeakPtr.expired "w" σ2 = Ok (true, σ2) ∧
    deallocate_calls σ2 = 0%nat ∧
    WeakPtr.reset "w" σ2 = Ok (tt, σ3) ∧
    deallocate_calls σ3 = 1%nat.
Proof.
  destruct (weak_ptr_outlives_value value_owner_state "a" "w" 1%positive
              (mkBlock (embedded 1%positive) 1 0 (ValueControlBlock (Some 5%Z)) 0 0) ∅)
    as (σ1 & σ2 & σ3 & b2 & b3 & H1 & H2 & H3 & H4 & _ & _ & _ & _ & H9 & H10
        & _ & _ & _ & _ & H14 & _); try (vm_compute; reflexivity).
  exists σ1, σ2, σ3. repeat split; assumption.
Defined.

(** X9: [WeakPtr::reset()] is idempotent: in every state, resetting
    twice is resetting once, also when the reset aborts or is undefined. *)
Theorem weak_reset_twice (σ : state) (w : var) :
  (WeakPtr.reset w;; WeakPtr.reset w) σ = WeakPtr.reset w σ.
Proof.
  destruct (WeakPtr.reset w σ) as [[[] σ']| | |] eqn:E;
    unfold mbind, M_bind; rewrite E; try done.
  apply weak_reset_empty.
  assert (wp (WeakPtr.reset w) (λ _ σ', weak_ptrs σ' !! w = Some None) σ) as H.
  { unfold WeakPtr.reset. apply wp_bind. intros c σ1.
    unfold WeakPtr.ctl_block_. destruct (weak_ptrs σ !! w) as [c'|] eqn:Hw; [|done].
    intros [= <- <-]. destruct c' as [l|].
    - apply wp_bind. intros [] σ2 _ [] σ3 [= <-]. apply lookup_insert_eq.
    - by apply wp_ret. }
  by apply (H tt).
Qed.

(** ** [operator*] *)

Lemma read_inv p σ v σ' : read p σ = Ok (v, σ') → σ' = σ.
Proof.
  unfold read. destruct p as [|a|l]; [done| |].
  - destruct (objects σ !! a); [|done]. by intros [= _ <-].
  - destruct (blocks σ !! l) as [b|]; [|done].
    destruct (live b), (dyn b) as [|[v'|]]; try done. by intros [= _ <-].
Qed.

(** [*p = v] stores [v] behind [p] and leaves every count, every data
    pointer and every handle as it was. *)
Lemma write_read p v σ σ' :
  write p v σ = Ok (tt, σ') →
  read p σ' = Ok (v, σ') ∧
  shared_ptrs σ' = shared_ptrs σ ∧
  ∀ l b, blocks σ !! l = Some b →
    ∃ b', blocks σ' !! l = Some b' ∧ live b' = live b ∧
          strong_count_ b' = strong_count_ b ∧ data_ b' = data_ b.
Proof.
  unfold write, read. destruct p as [|a|l0]; [done| |].
  - destruct (objects σ !! a); [|done]. intros [= <-]. simpl.
    rewrite lookup_insert_eq. repeat split. intros l b Hb. by exists b.
  - destruct (blocks σ !! l0) as [b0|] eqn:Hb0; [|done].
    destruct (live b0) eqn:Hl0; [|by destruct (dyn b0)].
    destruct (dyn b0) as [|[v'|]] eqn:Hd0; try done.
    intros [= <-]. simpl. rewrite lookup_insert_eq. simpl.
    change (live (with_dyn (ValueControlBlock (Some v)) b0)) with (live b0).
    rewrite Hl0. repeat split. intros l b Hb.
    destruct (decide (l = l0)) as [->|Hne].
    + rewrite lookup_insert_eq. assert (b = b0) as -> by congruence.
      eexists. by repeat split.
    + rewrite lookup_insert_ne by done. by exists b.
Qed.

(** X10: [operator*] on an empty SharedPtr, or on one whose block has
    strong count 0, stops at its assertion, for a read as for an
    assignment through the reference. *)
Theorem deref_aborts (σ : state) (p : var) (c : option loc) (v : T) :
  shared_ptrs σ !! p = Some c →
  (c = None ∨
   ∃ l b, c = Some l ∧ blocks σ !! l = Some b ∧ live b = true ∧
          strong_count_ b = 0) →
  SharedPtr.deref p σ = AssertionFailed ∧
  SharedPtr.deref_assign p v σ = AssertionFailed.
Proof.
  intros Hp [->|(l & b & -> & Hb & Hl & Hs)];
    unfold SharedPtr.deref, SharedPtr.deref_assign;
    rewrite !(bind_Ok_l _ _ _ _ _ (shared_ctl_block_ok _ _ _ Hp)).
  - done.
  - rewrite bool_decide_eq_true_2 by done.
    rewrite !(bind_Ok_l _ _ _ _ _ (assert_ok _)).
    rewrite !(bind_Ok_l _ _ _ _ _ (is_valid_ok _ _ _ Hb Hl)).
    by rewrite Hs.
Qed.

Lemma deref_aborts_witness :
  SharedPtr.deref "e" two_block_state = AssertionFailed ∧
  SharedPtr.deref_assign "e" 1%Z two_block_state = AssertionFailed.
Proof.
  apply (deref_aborts two_block_state "e" None 1%Z).
  - vm_compute. reflexivity.
  - by left.
Defined.

(** X11: when [operator*] returns, the SharedPtr was not empty, its
    block was valid, the state is unchanged and the result is the value
    behind the pointer stored in the block. *)
Theorem deref_only_valid (σ σ' : state) (p : var) (v : T) :
  SharedPtr.deref p σ = Ok (v, σ') →
  σ' = σ ∧
  ∃ l b, shared_ptrs σ !! p = Some (Some l) ∧
         blocks σ !! l = Some b ∧ live b = true ∧
         0 < strong_count_ b ∧ read (data_ b) σ = Ok (v, σ).
Proof.
  revert v σ'. change (wp (SharedPtr.deref p) (λ v σ', σ' = σ ∧
    ∃ l b, shared_ptrs σ !! p = Some (Some l) ∧
           blocks σ !! l = Some b ∧ live b = true ∧
           0 < strong_count_ b ∧ read (data_ b) σ = Ok (v, σ)) σ).
  unfold SharedPtr.deref.
  apply wp_bind, wp_shared_ctl_block_. intros c Hc.
  apply wp_bind, wp_assert. intros _. destruct c as [l|]; [|apply wp_undefined].
  apply wp_bind, wp_is_valid. intros b Hb Hl.
  apply wp_bind, wp_assert. intros Hv%N.ltb_lt.
  apply wp_bind, wp_bind, wp_load. intros b' Hb' _. apply wp_ret.
  assert (b' = b) as -> by congruence.
  intros v σ' Hr. pose proof (read_inv _ _ _ _ Hr) as ->.
  split; [done|]. by exists l, b.
Qed.

Lemma deref_only_valid_witness :
  two_block_state = two_block_state ∧
  ∃ l b, shared_ptrs two_block_state !! "c" = Some (Some l) ∧
         blocks two_block_state !! l = Some b ∧ live b = true ∧
         0 < strong_count_ b ∧
         read (data_ b) two_block_state = Ok (20%Z, two_block_state).
Proof.
  apply (deref_only_valid two_block_state two_block_state "c" 20%Z).
  vm_compute. reflexivity.
Defined.

(** X12: what is assigned through [operator*] is what [operator*]
    reads afterwards: if [*p = v] returns, then [*p] returns [v] in the
    state it leaves. *)
Theorem deref_assign_then_deref (σ σ' : state) (p : var) (v : T) :
  SharedPtr.deref_assign p v σ = Ok (tt, σ') →
  SharedPtr.deref p σ' = Ok (v, σ').
Proof.
  intros Hrun.
  assert (wp (SharedPtr.deref_assign p v)
            (λ _ σ', ∃ l b, shared_ptrs σ !! p = Some (Some l) ∧
               blocks σ !! l = Some b ∧ live b = true ∧ 0 < strong_count_ b ∧
               write (data_ b) v σ = Ok (tt, σ')) σ) as H.
  { unfold SharedPtr.deref_assign.
    apply wp_bind, wp_shared_ctl_block_. intros c Hc.
    apply wp_bind, wp_assert. intros _. destruct c as [l|]; [|apply wp_undefined].
    apply wp_bind, wp_is_valid. intros b Hb Hl.
    apply wp_bind, wp_assert. intros Hv%N.ltb_lt.
    apply wp_bind, wp_bind, wp_load. intros b' Hb' _. apply wp_ret.
    assert (b' = b) as -> by congruence.
    intros [] σ2 Hw. by exists l, b. }
  destruct (H tt σ' Hrun) as (l & b & Hp & Hb & Hl & Hs & Hw).
  destruct (write_read _ _ _ _ Hw) as (Hr & Hsp & Hbs).
  destruct (Hbs l b Hb) as (b' & Hb' & Hl' & Hs' & Hd').
  eapply (deref_ok σ' p l b' v).
  - by rewrite Hsp.
  - done.
  - by rewrite Hl'.
  - by rewrite Hs'.
  - by rewrite Hd'.
Qed.

Lemma deref_assign_then_deref_witness :
  SharedPtr.deref "c"
    (with_objects (<[1 := 7%Z]> (objects two_block_state)) two_block_state)
  = Ok (7%Z, with_objects (<[1 := 7%Z]> (objects two_block_state)) two_block_state).
Proof.
  apply (deref_assign_then_deref two_block_state _ "c" 7%Z).
  vm_compute. reflexivity.
Defined.

(** ** WeakPtr never touches the value *)

Lemma value_untouched_refl σ : value_untouched σ σ.
Proof. repeat split. intros l b Hb. by exists b. Qed.

Lemma value_untouched_trans σ1 σ2 σ3 :
  value_untouched σ1 σ2 → value_untouched σ2 σ3 → value_untouched σ1 σ3.
Proof.
  intros (Ho & Hs & Hn & Ha & Hb) (Ho' & Hs' & Hn' & Ha' & Hb').
  repeat split; try congruence.
  intros l b3 H3. destruct (Hb' l b3 H3) as (b2 & H2 & E1 & E2 & E3 & E4).
  destruct (Hb l b2 H2) as (b1 & H1 & F1 & F2 & F3 & F4).
  exists b1. repeat split; congruence.
Qed.

Lemma vneutral_ret {A} (a : A) : value_neutral (mret a).
Proof. intros σ. apply wp_ret, value_untouched_refl. Qed.

Lemma vneutral_bind {A B} (m : M A) (f : A → M B) :
  value_neutral m → (∀ a, value_neutral (f a)) → value_neutral (m ≫= f).
Proof.
  intros Hm Hf σ. apply wp_bind. eapply wp_mono; [apply Hm|].
  intros a σ1 H1. eapply wp_mono; [apply Hf|].
  intros b σ2 H2. simpl in *. exact (value_untouched_trans _ _ _ H1 H2).
Qed.

Lemma vneutral_undefined {A} : value_neutral (@undefined A).
Proof. intros σ. apply wp_undefined. Qed.

Lemma vneutral_assert c : value_neutral (assert c).
Proof. intros σ. apply wp_assert. intros _. apply value_untouched_refl. Qed.

Lemma vneutral_load l : value_neutral (load l).
Proof. intros σ. apply wp_load. intros. apply value_untouched_refl. Qed.

(** An update of one block that keeps what concerns the value. *)
Lemma vneutral_modify l f :
  (∀ b, strong_count_ (f b) = strong_count_ b ∧ data_ (f b) = data_ b ∧
        dyn (f b) = dyn b ∧ delete_data_calls (f b) = delete_data_calls b) →
  value_neutral (modify l f).
Proof.
  intros Hf σ. apply wp_modify. intros b Hb Hl. repeat split. simpl.
  intros l' b' Hb'. destruct (decide (l' = l)) as [->|Hne].
  - rewrite lookup_insert_eq in Hb'. injection Hb' as <-. exists b.
    destruct (Hf b) as (? & ? & ? & ?). by repeat split.
  - rewrite lookup_insert_ne in Hb' by done. by exists b'.
Qed.

Lemma vneutral_deallocate l : value_neutral (deallocate l).
Proof. intros σ [] σ' [= <-]. repeat split. intros l' b Hb. by exists b. Qed.

Lemma vneutral_shared_ctl_block_ h : value_neutral (SharedPtr.ctl_block_ h).
Proof.
  intros σ. apply wp_shared_ctl_block_. intros. apply value_untouched_refl.
Qed.

Lemma vneutral_weak_ctl_block_ h : value_neutral (WeakPtr.ctl_block_ h).
Proof.
  intros σ c σ'. unfold WeakPtr.ctl_block_.
  destruct (weak_ptrs σ !! h); [|done]. intros [= <- <-].
  apply value_untouched_refl.
Qed.

Lemma vneutral_weak_set_ctl_block_ h c : value_neutral (WeakPtr.set_ctl_block_ h c).
Proof. intros σ [] σ' [= <-]. repeat split. intros l b Hb. by exists b. Qed.

Lemma vneutral_weak_destroy h : value_neutral (WeakPtr.destroy h).
Proof. intros σ [] σ' [= <-]. repeat split. intros l b Hb. by exists b. Qed.

Lemma vneutral_new_weak h m : value_neutral m → value_neutral (new_weak h m).
Proof.
  intros Hm σ. unfold new_weak. intros a σ'.
  destruct (weak_ptrs σ !! h); [done|]. apply Hm.
Qed.

Create HintDb vneutral.
#[export] Hint Resolve vneutral_ret vneutral_undefined vneutral_assert
  vneutral_load vneutral_deallocate vneutral_shared_ctl_block_
  vneutral_weak_ctl_block_ vneutral_weak_set_ctl_block_
  vneutral_weak_destroy : vneutral.

Ltac vneutral :=
  repeat first
    [ solve [eauto with vneutral]
    | apply vneutral_modify; intros ?; by repeat split
    | match goal with
      | |- value_neutral (match ?c with _ => _ end) => destruct c
      | |- value_neutral (if ?c then _ else _) => destruct c
      end
    | apply vneutral_bind; [|intros ?] ].

Lemma vneutral_add_weak_link l : value_neutral (ControlBlockBase.add_weak_link l).
Proof. unfold ControlBlockBase.add_weak_link. vneutral. Qed.

Lemma vneutral_remove_weak_link l :
  value_neutral (ControlBlockBase.remove_weak_link l).
Proof.
  unfold ControlBlockBase.remove_weak_link, ControlBlockBase.is_valid,
    ControlBlockBase.get_use_count, ControlBlockBase.delete_block.
  vneutral.
Qed.

(** X13: no operation of WeakPtr other than [lock()] touches the value:
    whatever it does, the managed objects, the SharedPtr objects and the
    allocation counts are as before, and every control block has kept its
    strong count, its data pointer, its deleter or embedded value, and
    has seen no call of [delete_data]. *)
Theorem weak_ops_leave_value (o : op) (σ σ' : state) :
  weak_only o = true →
  step o σ = Ok (tt, σ') →
  value_untouched σ σ'.
Proof.
  intros Ho Hrun.
  assert (value_neutral (step o)) as H; [|by apply (H σ tt σ')].
  pose proof vneutral_add_weak_link. pose proof vneutral_remove_weak_link.
  clear Hrun. destruct o; try done; simpl;
    try apply vneutral_new_weak;
    unfold WeakPtr.ctor_default, WeakPtr.ctor_owner, WeakPtr.ctor_copy,
      WeakPtr.ctor_move, WeakPtr.assign_copy, WeakPtr.assign_copy_U,
      WeakPtr.assign_move, WeakPtr.swap_ctl_block_, WeakPtr.dtor, WeakPtr.reset,
      WeakPtr.ctor_block;
    vneutral.
Qed.

Lemma weak_ops_leave_value_witness :
  value_untouched weak_state
    (with_weak_ptrs ∅
       (with_blocks
          {[ 1%positive := mkBlock (object 0) 2 0 (PtrControlBlock DefaultDelete) 0 0 ]}
          weak_state)).
Proof.
  apply (weak_ops_leave_value (WeakDtor "w") weak_state).
  - reflexivity.
  - vm_compute. reflexivity.
Defined.

(** * Both counts and the lifetime of a block *)

Section tracking.
Implicit Types (l : loc) (h : var) (c : option loc)
  (bs : gmap loc ControlBlockBase) (sp wp : gmap var (option loc)).

Lemma weak_handles_strong l wp : weak_handles l wp = strong_handles l wp.
Proof. done. Qed.

Lemma live_blocks_insert bs l b' :
  (live_blocks (<[l := b']> bs) + (if live_at bs l then 1 else 0)
   = live_blocks bs + (if live b' then 1 else 0))%nat.
Proof.
  unfold live_blocks, live_at. rewrite map_filter_insert. simpl.
  set (P := λ kv : loc * ControlBlockBase, live kv.2 = true).
  assert (match bs !! l with Some b => live b | None => false end
          = bool_decide (is_Some (filter P bs !! l))) as ->.
  { destruct (bs !! l) as [b|] eqn:Hb.
    - destruct (live b) eqn:Hl.
      + rewrite bool_decide_eq_true_2; [done|]. exists b.
        by apply map_lookup_filter_Some.
      + rewrite bool_decide_eq_false_2; [done|]. intros [b0 Hb0].
        apply map_lookup_filter_Some in Hb0 as [Hb0 Hl0].
        assert (b0 = b) as -> by congruence.
        change (live b = true) in Hl0. congruence.
    - rewrite bool_decide_eq_false_2; [done|]. intros [b0 Hb0].
      apply map_lookup_filter_Some in Hb0 as [Hb0 _]. congruence. }
  destruct (live b') eqn:Hl'.
  - rewrite decide_True by done. rewrite map_size_insert.
    destruct (filter P bs !! l) as [b|] eqn:E.
    + rewrite bool_decide_eq_true_2 by eauto. simpl. lia.
    + rewrite bool_decide_eq_false_2 by (by intros [? ?]). simpl. lia.
  - rewrite decide_False by (unfold P; simpl; congruence).
    rewrite map_filter_delete, map_size_delete.
    destruct (filter P bs !! l) as [b|] eqn:E.
    + assert (size (filter P bs) ≠ 0%nat)
        as Hne by (eapply map_size_ne_0_lookup_2; by rewrite E).
      rewrite bool_decide_eq_true_2 by eauto. lia.
    + rewrite bool_decide_eq_false_2 by (by intros [? ?]). simpl. lia.
Qed.

Lemma tracked_empty : tracked ∅ ∅ ∅.
Proof.
  split; try (intros l b; by rewrite lookup_empty).
  intros l. unfold weak_handles. rewrite !strong_handles_empty.
  fold (strong_handles l (∅ : gmap var (option loc))).
  rewrite strong_handles_empty. lia.
Qed.

(** The block at [l] is replaced and handles change: what is left to
    check is the block at [l]. *)
Lemma tracked_update bs sp wp l b' sp' wp' :
  tracked bs sp wp →
  (∀ l0, l0 ≠ l → strong_handles l0 sp' = strong_handles l0 sp) →
  (∀ l0, l0 ≠ l → weak_handles l0 wp' = weak_handles l0 wp) →
  (live b' = true →
     strong_count_ b' = N.of_nat (strong_handles l sp') ∧
     weak_count_ b' = N.of_nat (weak_handles l wp') ∧
     (0 < strong_handles l sp' + weak_handles l wp')%nat) →
  ((0 < strong_handles l sp' + weak_handles l wp')%nat → live b' = true) →
  tracked (<[l := b']> bs) sp' wp'.
Proof.
  intros [H1 H2 H3 H4] Hs Hw Hcount Hlive. split.
  - intros l0 b0. destruct (decide (l0 = l)) as [->|Hne].
    + rewrite lookup_insert_eq. intros [= <-] Hl. by apply Hcount.
    + rewrite lookup_insert_ne, Hs by done. apply H1.
  - intros l0 b0. destruct (decide (l0 = l)) as [->|Hne].
    + rewrite lookup_insert_eq. intros [= <-] Hl. by apply Hcount.
    + rewrite lookup_insert_ne, Hw by done. apply H2.
  - intros l0 b0. destruct (decide (l0 = l)) as [->|Hne].
    + rewrite lookup_insert_eq. intros [= <-] Hl. by apply Hcount.
    + rewrite lookup_insert_ne, Hs, Hw by done. apply H3.
  - intros l0 Hpos. destruct (decide (l0 = l)) as [->|Hne].
    + exists b'. rewrite lookup_insert_eq. auto.
    + rewrite lookup_insert_ne by done. apply H4. by rewrite <- Hs, <- Hw.
Qed.

(** Only handles change, and no count with them. *)
Lemma tracked_handles bs sp wp sp' wp' :
  tracked bs sp wp →
  (∀ l, strong_handles l sp' = strong_handles l sp) →
  (∀ l, weak_handles l wp' = weak_handles l wp) →
  tracked bs sp' wp'.
Proof.
  intros [H1 H2 H3 H4] Hs Hw. split.
  - intros l b. rewrite Hs. apply H1.
  - intros l b. rewrite Hw. apply H2.
  - intros l b. rewrite Hs, Hw. apply H3.
  - intros l. rewrite Hs, Hw. apply H4.
Qed.

Lemma tracked_shared_handle bs sp wp h l :
  tracked bs sp wp → sp !! h = Some (Some l) →
  ∃ b, bs !! l = Some b ∧ live b = true ∧
       strong_count_ b = N.of_nat (strong_handles l sp) ∧
       weak_count_ b = N.of_nat (weak_handles l wp) ∧
       (0 < strong_handles l sp)%nat.
Proof.
  intros Ht Hh. pose proof (strong_handles_pos _ _ _ Hh) as Hpos.
  destruct (tracked_live _ _ _ Ht l) as (b & Hb & Hl); [lia|].
  exists b. repeat split; auto.
  - by apply (tracked_strong _ _ _ Ht).
  - by apply (tracked_weak _ _ _ Ht).
Qed.

Lemma tracked_weak_handle bs sp wp h l :
  tracked bs sp wp → wp !! h = Some (Some l) →
  ∃ b, bs !! l = Some b ∧ live b = true ∧
       strong_count_ b = N.of_nat (strong_handles l sp) ∧
       weak_count_ b = N.of_nat (weak_handles l wp) ∧
       (0 < weak_handles l wp)%nat.
Proof.
  intros Ht Hh. pose proof (strong_handles_pos _ _ _ Hh) as Hpos.
  change (0 < weak_handles l wp)%nat in Hpos.
  destruct (tracked_live _ _ _ Ht l) as (b & Hb & Hl); [lia|].
  exists b. repeat split; auto.
  - by apply (tracked_strong _ _ _ Ht).
  - by apply (tracked_weak _ _ _ Ht).
Qed.

Lemma tracked_unused bs sp wp l :
  tracked bs sp wp → live_at bs l = false →
  strong_handles l sp = 0%nat ∧ weak_handles l wp = 0%nat.
Proof.
  intros Ht Hfree.
  destruct (decide (0 < strong_handles l sp + weak_handles l wp)%nat) as [Hpos|]; [|lia].
  destruct (tracked_live _ _ _ Ht l Hpos) as (b & Hb & Hl).
  unfold live_at in Hfree. rewrite Hb in Hfree. congruence.
Qed.

End tracking.

Section tracked_steps.
Implicit Types (l : loc) (h : var) (c : option loc).

Lemma Tracked_initial : Tracked 0 initial.
Proof. split; [apply tracked_empty|done]. Qed.

Lemma Tracked_mono n m σ : (n ≤ m)%nat → Tracked n σ → Tracked m σ.
Proof.
  intros Hle (Ht & Hb & Hs & Hw). split; [done|]. split; [done|]. split; lia.
Qed.

(** One block is replaced and handles change. *)
Lemma Tracked_step n n' σ σ' l b' :
  Tracked n σ →
  blocks σ' = <[l := b']> (blocks σ) →
  (∀ l0, l0 ≠ l → strong_handles l0 (shared_ptrs σ')
                  = strong_handles l0 (shared_ptrs σ)) →
  (∀ l0, l0 ≠ l → weak_handles l0 (weak_ptrs σ') = weak_handles l0 (weak_ptrs σ)) →
  (live b' = true →
     strong_count_ b' = N.of_nat (strong_handles l (shared_ptrs σ')) ∧
     weak_count_ b' = N.of_nat (weak_handles l (weak_ptrs σ')) ∧
     (0 < strong_handles l (shared_ptrs σ') + weak_handles l (weak_ptrs σ'))%nat) →
  ((0 < strong_handles l (shared_ptrs σ') + weak_handles l (weak_ptrs σ'))%nat →
   live b' = true) →
  (allocate_calls σ' + deallocate_calls σ
   + (if live_at (blocks σ) l then 1 else 0)
   = allocate_calls σ + deallocate_calls σ' + (if live b' then 1 else 0))%nat →
  (size (shared_ptrs σ') ≤ n')%nat → (size (weak_ptrs σ') ≤ n')%nat →
  Tracked n' σ'.
Proof.
  intros (Ht & Hbal & _ & _) Hb Hs Hw Hcount Hlive Hal Hss Hsw.
  split; [|split; [|done]].
  - rewrite Hb. by apply (tracked_update _ (shared_ptrs σ) (weak_ptrs σ)).
  - rewrite Hb. pose proof (live_blocks_insert (blocks σ) l b').
    destruct (live_at (blocks σ) l), (live b'); lia.
Qed.

(** Only handles change. *)
Lemma Tracked_handles_step n n' σ σ' :
  Tracked n σ →
  blocks σ' = blocks σ →
  (∀ l, strong_handles l (shared_ptrs σ') = strong_handles l (shared_ptrs σ)) →
  (∀ l, weak_handles l (weak_ptrs σ') = weak_handles l (weak_ptrs σ)) →
  allocate_calls σ' = allocate_calls σ →
  deallocate_calls σ' = deallocate_calls σ →
  (size (shared_ptrs σ') ≤ n')%nat → (size (weak_ptrs σ') ≤ n')%nat →
  Tracked n' σ'.
Proof.
  intros (Ht & Hbal & _ & _) Hb Hs Hw Ha Hd Hss Hsw.
  split; [|split; [|done]].
  - rewrite Hb. by apply (tracked_handles _ (shared_ptrs σ) (weak_ptrs σ)).
  - rewrite Hb, Ha, Hd. done.
Qed.

(** The block that [remove_strong_link] leaves. *)
Lemma after_remove_strong_facts σ l b :
  live b = true →
  ∃ b', blocks (after_remove_strong σ l b) = <[l := b']> (blocks σ) ∧
    shared_ptrs (after_remove_strong σ l b) = shared_ptrs σ ∧
    weak_ptrs (after_remove_strong σ l b) = weak_ptrs σ ∧
    allocate_calls (after_remove_strong σ l b) = allocate_calls σ ∧
    strong_count_ b' = strong_count_ b - 1 ∧
    weak_count_ b' = weak_count_ b ∧
    live b' = negb ((strong_count_ b =? 1) && (weak_count_ b =? 0)) ∧
    deallocate_calls (after_remove_strong σ l b)
    = (deallocate_calls σ
       + if ((strong_count_ b =? 1) && (weak_count_ b =? 0))%N then 1 else 0)%nat.
Proof.
  intros Hl. unfold after_remove_strong.
  assert (live (value_deleted (with_strong (strong_count_ b - 1) b)) = true) as Hl2
    by (unfold value_deleted, live; simpl; destruct (dyn b); exact Hl).
  assert (weak_count_ (value_deleted (with_strong (strong_count_ b - 1) b))
          = weak_count_ b) as Hw2
    by (unfold value_deleted; simpl; by destruct (dyn b)).
  assert (strong_count_ (value_deleted (with_strong (strong_count_ b - 1) b))
          = strong_count_ b - 1) as Hs2
    by (unfold value_deleted; simpl; by destruct (dyn b)).
  destruct (strong_count_ b =? 1), (weak_count_ b =? 0); simpl;
    eexists; (split; [reflexivity|]); repeat split; simpl; (done || lia).
Qed.

(** The block that [remove_weak_link] leaves. *)
Lemma after_remove_weak_facts σ l b :
  live b = true →
  ∃ b', blocks (after_remove_weak σ l b) = <[l := b']> (blocks σ) ∧
    shared_ptrs (after_remove_weak σ l b) = shared_ptrs σ ∧
    weak_ptrs (after_remove_weak σ l b) = weak_ptrs σ ∧
    allocate_calls (after_remove_weak σ l b) = allocate_calls σ ∧
    strong_count_ b' = strong_count_ b ∧
    weak_count_ b' = weak_count_ b - 1 ∧
    live b' = negb ((strong_count_ b =? 0) && (weak_count_ b =? 1)) ∧
    deallocate_calls (after_remove_weak σ l b)
    = (deallocate_calls σ
       + if ((strong_count_ b =? 0) && (weak_count_ b =? 1))%N then 1 else 0)%nat.
Proof.
  intros Hl. unfold after_remove_weak.
  destruct (strong_count_ b =? 0), (weak_count_ b =? 1); simpl;
    eexists; (split; [reflexivity|]); repeat split; simpl; (done || lia).
Qed.

Lemma live_at_Some σ l b :
  blocks σ !! l = Some b → live b = true → live_at (blocks σ) l = true.
Proof. intros Hb Hl. unfold live_at. by rewrite Hb. Qed.

Lemma live_at_inv σ l :
  live_at (blocks σ) l = true → ∃ b, blocks σ !! l = Some b ∧ live b = true.
Proof. unfold live_at. destruct (blocks σ !! l) as [b|]; [eauto|done]. Qed.

Variable n : nat.
Hypothesis bound : N.of_nat n ≤ SIZE_MAX.

Lemma undeletable_cases σ h l b :
  shared_ptrs σ !! h = Some (Some l) → blocks σ !! l = Some b → live b = true →
  (undeletable σ h = true ∧ strong_count_ b = 1 ∧
   objects_after_delete b (objects σ) = None) ∨
  (undeletable σ h = false ∧
   (strong_count_ b = 1 → is_Some (objects_after_delete b (objects σ)))).
Proof.
  intros Hh Hb Hl. unfold undeletable. rewrite Hh, Hb, Hl. simpl.
  destruct (N.eqb_spec (strong_count_ b) 1) as [E|E]; simpl.
  - destruct (objects_after_delete b (objects σ)); [right|left]; eauto.
  - right. split; [done|]. intros E'. by destruct E.
Qed.

Lemma undeletable_inv σ h :
  undeletable σ h = true →
  ∃ l b, shared_ptrs σ !! h = Some (Some l) ∧ blocks σ !! l = Some b ∧
         live b = true ∧ strong_count_ b = 1 ∧
         objects_after_delete b (objects σ) = None.
Proof.
  unfold undeletable.
  destruct (shared_ptrs σ !! h) as [[l|]|] eqn:Hh; try done.
  destruct (blocks σ !! l) as [b|] eqn:Hb; [|done].
  destruct (live b) eqn:Hl; [|done]. simpl.
  destruct (N.eqb_spec (strong_count_ b) 1) as [E|E]; [|done]. simpl.
  destruct (objects_after_delete b (objects σ)) eqn:Ho; [done|].
  intros _. exists l, b. by rewrite Hl.
Qed.

Lemma undeletable_empty σ h :
  shared_ptrs σ !! h = Some None → undeletable σ h = false.
Proof. intros Hh. unfold undeletable. by rewrite Hh. Qed.

(** [SharedPtr::reset()] on a handle that is there. *)
Lemma shared_reset_tracked σ h c :
  Tracked n σ → shared_ptrs σ !! h = Some c →
  if undeletable σ h then SharedPtr.reset h σ = UndefinedBehavior
  else ∃ σ', SharedPtr.reset h σ = Ok (tt, σ') ∧ Tracked n σ' ∧
        shared_ptrs σ' = <[h := None]> (shared_ptrs σ) ∧
        weak_ptrs σ' = weak_ptrs σ.
Proof using bound.
  intros HT Hh. destruct c as [l|].
  - pose proof HT as (Ht & Hbal & Hss & Hsw).
    destruct (tracked_shared_handle _ _ _ _ _ Ht Hh) as (b & Hb & Hl & Hs & Hw & Hpos).
    pose proof (strong_handles_le l (shared_ptrs σ)) as Hle.
    assert (0 < strong_count_ b) as Hpos' by lia.
    assert (strong_count_ b ≤ SIZE_MAX) as Hmax by lia.
    destruct (undeletable_cases σ h l b Hh Hb Hl) as [(-> & E1 & Ho)|[-> Hv]].
    { apply (reset_undefined σ h l Hh).
      by apply (remove_strong_link_undefined σ l b). }
    rewrite (reset_run σ h l _ Hh (remove_strong_link_run σ l b Hb Hl Hpos' Hmax Hv)).
    destruct (after_remove_strong_facts σ l b Hl)
      as (b' & Eb & Es & Ew & Ea & Hs' & Hw' & Hl' & Ed).
    eexists. split; [reflexivity|]. simpl. rewrite Es, Ew.
    split; [|done].
    pose proof (strong_handles_insert l h None (shared_ptrs σ)) as Hn.
    rewrite decide_True, decide_False in Hn by done.
    assert (live_at (blocks σ) l = true) as Hla by by eapply live_at_Some.
    eapply (Tracked_step n n σ _ l b'); [exact HT|simpl..].
    + done.
    + intros l0 Hne. apply strong_handles_insert_other; congruence.
    + by rewrite Ew.
    + intros Hlive. rewrite Hs', Hw', Ew.
      rewrite Hlive in Hl'. symmetry in Hl'. apply negb_true_iff in Hl'.
      destruct (N.eqb_spec (strong_count_ b) 1), (N.eqb_spec (weak_count_ b) 0);
        try done; repeat split; lia.
    + rewrite Ew. intros Hp. rewrite Hl'. apply negb_true_iff.
      destruct (N.eqb_spec (strong_count_ b) 1), (N.eqb_spec (weak_count_ b) 0);
        try done. lia.
    + rewrite Ea, Ed, Hla, Hl'.
      destruct ((strong_count_ b =? 1) && (weak_count_ b =? 0)); simpl; lia.
    + rewrite map_size_insert_Some by (by rewrite Hh). done.
    + by rewrite Ew.
  - rewrite (undeletable_empty _ _ Hh), (reset_empty _ _ Hh).
    exists σ. rewrite insert_id by done. auto.
Qed.

(** The SharedPtr constructor from a block pointer, on storage that
    holds no handle or an empty one. *)
Lemma shared_ctor_block_tracked σ h c n' :
  Tracked n σ →
  shared_ptrs σ !! h = None ∨ shared_ptrs σ !! h = Some None →
  (∀ l, c = Some l → live_at (blocks σ) l = true) →
  (n ≤ n')%nat → (size (<[h := c]> (shared_ptrs σ)) ≤ n')%nat →
  N.of_nat n' ≤ SIZE_MAX →
  ∃ σ', SharedPtr.ctor_block h c σ = Ok (tt, σ') ∧ Tracked n' σ' ∧
        shared_ptrs σ' = <[h := c]> (shared_ptrs σ) ∧
        weak_ptrs σ' = weak_ptrs σ.
Proof.
  intros HT Hh Hlive Hnn Hsz Hmax. destruct c as [l|].
  - destruct (live_at_inv _ _ (Hlive l eq_refl)) as (b & Hb & Hl).
    rewrite (ctor_block_run _ h _ _ Hb Hl).
    eexists. split; [reflexivity|]. split; [|done].
    pose proof HT as (Ht & Hbal & Hss & Hsw).
    pose proof (strong_handles_insert l h (Some l) (shared_ptrs σ)) as Hn.
    rewrite decide_False, decide_True in Hn by (done || (destruct Hh; congruence)).
    pose proof (strong_handles_le l (<[h := Some l]> (shared_ptrs σ))) as Hle.
    pose proof (tracked_strong _ _ _ Ht l b Hb Hl) as Hs.
    pose proof (tracked_weak _ _ _ Ht l b Hb Hl) as Hw.
    eapply (Tracked_step n n' σ _ l); [done|simpl..].
    + done.
    + intros l0 Hne. apply strong_handles_insert_other; destruct Hh; congruence.
    + done.
    + intros _. simpl. rewrite incr_small by lia. repeat split; lia.
    + done.
    + rewrite (live_at_Some _ _ _ Hb Hl).
      change (live (with_strong (incr (strong_count_ b)) b)) with (live b).
      by rewrite Hl.
    + done.
    + lia.
  - unfold SharedPtr.ctor_block. run.
    eexists. split; [reflexivity|]. split; [|done].
    pose proof HT as (Ht & Hbal & Hss & Hsw).
    eapply (Tracked_handles_step n n' σ); [exact HT|simpl..]; try done.
    + intros l. apply strong_handles_insert_other; destruct Hh; congruence.
    + lia.
Qed.

Lemma shared_swap_tracked σ this other c :
  Tracked n σ →
  shared_ptrs σ !! this = Some None → shared_ptrs σ !! other = Some c →
  ∃ σ', SharedPtr.swap_ctl_block_ this other σ = Ok (tt, σ') ∧ Tracked n σ' ∧
        weak_ptrs σ' = weak_ptrs σ.
Proof.
  intros HT Ht Ho. unfold SharedPtr.swap_ctl_block_. run. rewrite Ht, Ho. simpl.
  eexists. split; [reflexivity|]. split; [|done].
  pose proof HT as (Htr & Hbal & Hss & Hsw).
  eapply (Tracked_handles_step n n σ); [exact HT|simpl..]; try done.
  - intros l. destruct (decide (this = other)) as [<-|Hne].
    { assert (c = None) as -> by congruence.
      by rewrite insert_insert_eq, insert_id. }
    pose proof (strong_handles_insert l other None (<[this := c]> (shared_ptrs σ))) as H1.
    pose proof (strong_handles_insert l this c (shared_ptrs σ)) as H2.
    rewrite lookup_insert_ne, Ho in H1 by done. rewrite Ht in H2.
    rewrite (decide_False (P := None = Some l)) in H1 by done.
    rewrite (decide_False (P := Some None = Some (Some l))) in H2 by done.
    destruct (decide (c = Some l)) as [->|Hcl].
    + rewrite decide_True in H1 by done. lia.
    + rewrite decide_False in H1 by congruence. lia.
  - rewrite !map_size_insert_Some; [done|by rewrite Ht|].
    destruct (decide (this = other)) as [<-|Hne].
    + by rewrite lookup_insert_eq.
    + rewrite lookup_insert_ne by done. by rewrite Ho.
Qed.

Lemma shared_destroy_tracked σ h :
  Tracked n σ → shared_ptrs σ !! h = Some None →
  ∃ σ', SharedPtr.destroy h σ = Ok (tt, σ') ∧ Tracked n σ' ∧
        shared_ptrs σ' = delete h (shared_ptrs σ) ∧
        weak_ptrs σ' = weak_ptrs σ.
Proof.
  intros HT Hh. eexists. split; [reflexivity|]. split; [|done].
  pose proof HT as (Htr & Hbal & Hss & Hsw).
  eapply (Tracked_handles_step n n σ); [exact HT|simpl..]; try done.
  - intros l. pose proof (strong_handles_delete l h (shared_ptrs σ)) as H.
    rewrite Hh, decide_False in H by done. lia.
  - rewrite map_size_delete, Hh. simpl. lia.
Qed.

Lemma weak_handles_insert l h c wp :
  (weak_handles l (<[h := c]> wp)
   + (if decide (wp !! h = Some (Some l)) then 1 else 0))%nat
  = (weak_handles l wp + (if decide (c = Some l) then 1 else 0))%nat.
Proof. apply strong_handles_insert. Qed.

Lemma weak_handles_insert_other l h c wp :
  wp !! h ≠ Some (Some l) → c ≠ Some l →
  weak_handles l (<[h := c]> wp) = weak_handles l wp.
Proof. apply strong_handles_insert_other. Qed.

Lemma weak_handles_delete l h wp :
  (weak_handles l (delete h wp)
   + (if decide (wp !! h = Some (Some l)) then 1 else 0))%nat
  = weak_handles l wp.
Proof. apply strong_handles_delete. Qed.

Lemma weak_handles_le l wp : (weak_handles l wp ≤ size wp)%nat.
Proof. apply strong_handles_le. Qed.

(** [WeakPtr::reset()] on a handle that is there. *)
Lemma weak_reset_tracked σ h c :
  Tracked n σ → weak_ptrs σ !! h = Some c →
  ∃ σ', WeakPtr.reset h σ = Ok (tt, σ') ∧ Tracked n σ' ∧
        shared_ptrs σ' = shared_ptrs σ ∧
        weak_ptrs σ' = <[h := None]> (weak_ptrs σ).
Proof using bound.
  intros HT Hh. destruct c as [l|].
  - pose proof HT as (Ht & Hbal & Hss & Hsw).
    destruct (tracked_weak_handle _ _ _ _ _ Ht Hh) as (b & Hb & Hl & Hs & Hw & Hpos).
    pose proof (weak_handles_le l (weak_ptrs σ)) as Hle.
    assert (0 < weak_count_ b) as Hpos' by lia.
    assert (weak_count_ b ≤ SIZE_MAX) as Hmax by lia.
    rewrite (weak_reset_run σ h l _ Hh (remove_weak_link_run σ l b Hb Hl Hpos' Hmax)).
    destruct (after_remove_weak_facts σ l b Hl)
      as (b' & Eb & Es & Ew & Ea & Hs' & Hw' & Hl' & Ed).
    eexists. split; [reflexivity|]. simpl. rewrite Es, Ew.
    split; [|done].
    pose proof (weak_handles_insert l h None (weak_ptrs σ)) as Hn.
    rewrite decide_True, decide_False in Hn by done.
    assert (live_at (blocks σ) l = true) as Hla by by eapply live_at_Some.
    eapply (Tracked_step n n σ _ l b'); [exact HT|simpl..].
    + done.
    + by rewrite Es.
    + intros l0 Hne. rewrite ?Ew. apply weak_handles_insert_other; congruence.
    + intros Hlive. rewrite Hs', Hw', ?Es, ?Ew.
      rewrite Hlive in Hl'. symmetry in Hl'. apply negb_true_iff in Hl'.
      destruct (N.eqb_spec (strong_count_ b) 0), (N.eqb_spec (weak_count_ b) 1);
        try done; repeat split; lia.
    + rewrite ?Es, ?Ew. intros Hp. rewrite Hl'. apply negb_true_iff.
      destruct (N.eqb_spec (strong_count_ b) 0), (N.eqb_spec (weak_count_ b) 1);
        try done. lia.
    + rewrite Ea, Ed, Hla, Hl'.
      destruct ((strong_count_ b =? 0) && (weak_count_ b =? 1)); simpl; lia.
    + by rewrite Es.
    + rewrite ?Ew, map_size_insert_Some by (by rewrite Hh). done.
  - rewrite (weak_reset_empty _ _ Hh). exists σ. rewrite insert_id by done. auto.
Qed.

(** The WeakPtr constructor from a block pointer, on storage that holds
    no handle or an empty one. *)
Lemma weak_ctor_block_tracked σ h c n' :
  Tracked n σ →
  weak_ptrs σ !! h = None ∨ weak_ptrs σ !! h = Some None →
  (∀ l, c = Some l → live_at (blocks σ) l = true) →
  (n ≤ n')%nat → (size (<[h := c]> (weak_ptrs σ)) ≤ n')%nat →
  N.of_nat n' ≤ SIZE_MAX →
  ∃ σ', WeakPtr.ctor_block h c σ = Ok (tt, σ') ∧ Tracked n' σ' ∧
        shared_ptrs σ' = shared_ptrs σ ∧
        weak_ptrs σ' = <[h := c]> (weak_ptrs σ).
Proof.
  intros HT Hh Hlive Hnn Hsz Hmax. destruct c as [l|].
  - destruct (live_at_inv _ _ (Hlive l eq_refl)) as (b & Hb & Hl).
    rewrite (weak_ctor_block_run _ h _ _ Hb Hl).
    eexists. split; [reflexivity|]. split; [|done].
    pose proof HT as (Ht & Hbal & Hss & Hsw).
    pose proof (weak_handles_insert l h (Some l) (weak_ptrs σ)) as Hn.
    rewrite decide_False, decide_True in Hn by (done || (destruct Hh; congruence)).
    pose proof (weak_handles_le l (<[h := Some l]> (weak_ptrs σ))) as Hle.
    pose proof (tracked_strong _ _ _ Ht l b Hb Hl) as Hs.
    pose proof (tracked_weak _ _ _ Ht l b Hb Hl) as Hw.
    eapply (Tracked_step n n' σ _ l); [done|simpl..].
    + done.
    + done.
    + intros l0 Hne. apply weak_handles_insert_other; destruct Hh; congruence.
    + intros _. simpl. rewrite incr_small by lia. repeat split; lia.
    + done.
    + rewrite (live_at_Some _ _ _ Hb Hl).
      change (live (with_weak (incr (weak_count_ b)) b)) with (live b).
      by rewrite Hl.
    + lia.
    + done.
  - unfold WeakPtr.ctor_block. run.
    eexists. split; [reflexivity|]. split; [|done].
    pose proof HT as (Ht & Hbal & Hss & Hsw).
    eapply (Tracked_handles_step n n' σ); [exact HT|simpl..]; try done.
    + intros l. apply weak_handles_insert_other; destruct Hh; congruence.
    + lia.
Qed.

Lemma weak_swap_tracked σ this other c :
  Tracked n σ →
  weak_ptrs σ !! this = Some None → weak_ptrs σ !! other = Some c →
  ∃ σ', WeakPtr.swap_ctl_block_ this other σ = Ok (tt, σ') ∧ Tracked n σ' ∧
        shared_ptrs σ' = shared_ptrs σ.
Proof.
  intros HT Ht Ho. unfold WeakPtr.swap_ctl_block_. run. rewrite Ht, Ho. simpl.
  eexists. split; [reflexivity|]. split; [|done].
  pose proof HT as (Htr & Hbal & Hss & Hsw).
  eapply (Tracked_handles_step n n σ); [exact HT|simpl..]; try done.
  - intros l. destruct (decide (this = other)) as [<-|Hne].
    { assert (c = None) as -> by congruence.
      by rewrite insert_insert_eq, insert_id. }
    pose proof (weak_handles_insert l other None (<[this := c]> (weak_ptrs σ))) as H1.
    pose proof (weak_handles_insert l this c (weak_ptrs σ)) as H2.
    rewrite lookup_insert_ne, Ho in H1 by done. rewrite Ht in H2.
    rewrite (decide_False (P := None = Some l)) in H1 by done.
    rewrite (decide_False (P := Some None = Some (Some l))) in H2 by done.
    destruct (decide (c = Some l)) as [->|Hcl].
    + rewrite decide_True in H1 by done. lia.
    + rewrite decide_False in H1 by congruence. lia.
  - rewrite !map_size_insert_Some; [done|by rewrite Ht|].
    destruct (decide (this = other)) as [<-|Hne].
    + by rewrite lookup_insert_eq.
    + rewrite lookup_insert_ne by done. by rewrite Ho.
Qed.

Lemma weak_destroy_tracked σ h :
  Tracked n σ → weak_ptrs σ !! h = Some None →
  ∃ σ', WeakPtr.destroy h σ = Ok (tt, σ') ∧ Tracked n σ' ∧
        shared_ptrs σ' = shared_ptrs σ ∧
        weak_ptrs σ' = delete h (weak_ptrs σ).
Proof.
  intros HT Hh. eexists. split; [reflexivity|]. split; [|done].
  pose proof HT as (Htr & Hbal & Hss & Hsw).
  eapply (Tracked_handles_step n n σ); [exact HT|simpl..]; try done.
  - intros l. pose proof (weak_handles_delete l h (weak_ptrs σ)) as H.
    rewrite Hh, decide_False in H by done. lia.
  - rewrite map_size_delete, Hh. simpl. lia.
Qed.

Lemma sound_alloc_free σ alloc l :
  sound_alloc alloc → alloc σ = Some l → live_at (blocks σ) l = false.
Proof.
  intros Hs Ha. unfold live_at. destruct (blocks σ !! l) as [b|] eqn:Hb; [|done].
  by apply (Hs σ l b).
Qed.

(** A new block at [l], with its first SharedPtr at [h]. *)
Lemma new_block_tracked σ σ' h l b' :
  Tracked n σ →
  live_at (blocks σ) l = false → shared_ptrs σ !! h = None →
  blocks σ' = <[l := b']> (blocks σ) →
  shared_ptrs σ' = <[h := Some l]> (shared_ptrs σ) →
  weak_ptrs σ' = weak_ptrs σ →
  allocate_calls σ' = S (allocate_calls σ) →
  deallocate_calls σ' = deallocate_calls σ →
  live b' = true → strong_count_ b' = 1 → weak_count_ b' = 0 →
  Tracked (S n) σ'.
Proof.
  intros HT Hfree Hh Eb Es Ew Ea Ed Hl Hs Hw.
  pose proof HT as (Ht & Hbal & Hss & Hsw).
  destruct (tracked_unused _ _ _ _ Ht Hfree) as [Hs0 Hw0].
  pose proof (strong_handles_insert_fresh l h (Some l) _ Hh) as Hn.
  rewrite decide_True in Hn by done.
  eapply (Tracked_step n (S n) σ σ' l b'); [exact HT|..].
  - done.
  - intros l0 Hne. rewrite Es.
    apply strong_handles_insert_other; [rewrite Hh|]; congruence.
  - intros l0 Hne. by rewrite Ew.
  - intros _. rewrite Es, Ew, Hs, Hw. repeat split; lia.
  - done.
  - rewrite Ea, Ed, Hfree, Hl. lia.
  - rewrite Es, map_size_insert_None by done. lia.
  - rewrite Ew. lia.
Qed.

(** [SharedPtr(T*, Deleter, Alloc)] on new storage. *)
Lemma ctor_ptr_tracked σ this ptr deleter alloc l :
  Tracked n σ → sound_alloc alloc → alloc σ = Some l →
  shared_ptrs σ !! this = None →
  ∃ σ', SharedPtr.ctor_ptr this ptr deleter alloc σ = Ok (tt, σ') ∧
        Tracked (S n) σ'.
Proof.
  intros HT Hsound Ha Hh. rewrite (ctor_ptr_run _ _ _ _ _ _ Ha).
  eexists. split; [reflexivity|].
  eapply (new_block_tracked σ _ this l
            (with_strong 1 (PtrControlBlock.ctor ptr deleter)));
    [done|by eapply sound_alloc_free|done| |reflexivity..].
  unfold after_ctor_ptr. simpl. apply insert_insert_eq.
Qed.

(** [AllocateShared] into new storage. *)
Lemma AllocateShared_tracked σ ret alloc v l :
  Tracked n σ → sound_alloc alloc → alloc σ = Some l →
  shared_ptrs σ !! ret = None →
  ∃ σ', AllocateShared ret alloc v σ = Ok (tt, σ') ∧ Tracked (S n) σ'.
Proof.
  intros HT Hsound Ha Hh. rewrite (allocate_shared_run _ _ _ _ _ Ha).
  eexists. split; [reflexivity|].
  eapply (new_block_tracked σ _ ret l);
    [done|by eapply sound_alloc_free|done|reflexivity..].
Qed.

End tracked_steps.

(** * Programs: every call that is ready runs, and keeps the counts *)

Section ready_calls.
Implicit Types (m : gmap var (option loc)) (h : var) (c : option loc).

Lemma handle_at_true m h : handle_at m h = true → ∃ c, m !! h = Some c.
Proof. unfold handle_at. destruct (m !! h) as [c|]; [eauto|done]. Qed.

Lemma handle_at_false m h : handle_at m h = false → m !! h = None.
Proof. unfold handle_at. by destruct (m !! h). Qed.

Lemma handle_at_Some m h c : m !! h = Some c → handle_at m h = true.
Proof. unfold handle_at. by intros ->. Qed.

Lemma handle_at_None m h : m !! h = None → handle_at m h = false.
Proof. unfold handle_at. by intros ->. Qed.

Lemma holds_block_true m h : holds_block m h = true → ∃ l, m !! h = Some (Some l).
Proof. unfold holds_block. destruct (m !! h) as [[l|]|]; by eauto. Qed.

Lemma holds_block_Some m h l : m !! h = Some (Some l) → holds_block m h = true.
Proof. unfold holds_block. by intros ->. Qed.

Lemma new_shared_run σ this (ctor : M unit) :
  shared_ptrs σ !! this = None → new_shared this ctor σ = ctor σ.
Proof. intros H. unfold new_shared. by rewrite H. Qed.

Lemma new_weak_run σ this (ctor : M unit) :
  weak_ptrs σ !! this = None → new_weak this ctor σ = ctor σ.
Proof. intros H. unfold new_weak. by rewrite H. Qed.

Lemma new_shared_inv σ this (ctor : M unit) r :
  new_shared this ctor σ = Ok r → shared_ptrs σ !! this = None ∧ ctor σ = Ok r.
Proof. unfold new_shared. by destruct (shared_ptrs σ !! this). Qed.

Lemma new_weak_inv σ this (ctor : M unit) r :
  new_weak this ctor σ = Ok r → weak_ptrs σ !! this = None ∧ ctor σ = Ok r.
Proof. unfold new_weak. by destruct (weak_ptrs σ !! this). Qed.

Lemma shared_ctl_inv σ h c σ1 :
  SharedPtr.ctl_block_ h σ = Ok (c, σ1) → shared_ptrs σ !! h = Some c ∧ σ1 = σ.
Proof.
  unfold SharedPtr.ctl_block_. destruct (shared_ptrs σ !! h); [|done].
  by intros [= -> ->].
Qed.

Lemma weak_ctl_inv σ h c σ1 :
  WeakPtr.ctl_block_ h σ = Ok (c, σ1) → weak_ptrs σ !! h = Some c ∧ σ1 = σ.
Proof.
  unfold WeakPtr.ctl_block_. destruct (weak_ptrs σ !! h); [|done].
  by intros [= -> ->].
Qed.

Lemma shared_reset_inv σ h r :
  SharedPtr.reset h σ = Ok r → handle_at (shared_ptrs σ) h = true.
Proof.
  unfold SharedPtr.reset. intros H.
  apply bind_Ok in H as (c & σ1 & Hc & _). apply shared_ctl_inv in Hc as [Hc _].
  by eapply handle_at_Some.
Qed.

Lemma weak_reset_inv σ h r :
  WeakPtr.reset h σ = Ok r → handle_at (weak_ptrs σ) h = true.
Proof.
  unfold WeakPtr.reset. intros H.
  apply bind_Ok in H as (c & σ1 & Hc & _). apply weak_ctl_inv in Hc as [Hc _].
  by eapply handle_at_Some.
Qed.

Lemma size_insert_le m h c : (size (<[h := c]> m) ≤ S (size m))%nat.
Proof. rewrite map_size_insert. destruct (m !! h); simpl; lia. Qed.

Lemma tracked_shared_live k σ h c :
  Tracked k σ → shared_ptrs σ !! h = Some c →
  ∀ l, c = Some l → live_at (blocks σ) l = true.
Proof.
  intros (Ht & _) Hh l ->.
  destruct (tracked_shared_handle _ _ _ _ _ Ht Hh) as (b & Hb & Hl & _).
  by eapply live_at_Some.
Qed.

Lemma tracked_weak_live k σ h c :
  Tracked k σ → weak_ptrs σ !! h = Some c →
  ∀ l, c = Some l → live_at (blocks σ) l = true.
Proof.
  intros (Ht & _) Hh l ->.
  destruct (tracked_weak_handle _ _ _ _ _ Ht Hh) as (b & Hb & Hl & _).
  by eapply live_at_Some.
Qed.

Variable n : nat.
Hypothesis bound : N.of_nat (S n) ≤ SIZE_MAX.

Lemma bound_pred : N.of_nat n ≤ SIZE_MAX.
Proof using bound. lia. Qed.

(** *** SharedPtr *)

Lemma shared_ctor_new_tracked σ this c :
  Tracked n σ → shared_ptrs σ !! this = None →
  (∀ l, c = Some l → live_at (blocks σ) l = true) →
  ∃ σ', SharedPtr.ctor_block this c σ = Ok (tt, σ') ∧ Tracked (S n) σ' ∧
        shared_ptrs σ' = <[this := c]> (shared_ptrs σ) ∧
        weak_ptrs σ' = weak_ptrs σ.
Proof using bound.
  intros HT Hh Hlive.
  apply (shared_ctor_block_tracked n bound_pred σ this c (S n));
    [done|by left|done|lia| |done].
  destruct HT as (_ & _ & Hs & _).
  pose proof (size_insert_le (shared_ptrs σ) this c). lia.
Qed.

Lemma shared_ctor_copy_tracked σ this other c :
  Tracked n σ → shared_ptrs σ !! this = None → shared_ptrs σ !! other = Some c →
  ∃ σ', SharedPtr.ctor_copy this other σ = Ok (tt, σ') ∧ Tracked (S n) σ'.
Proof using bound.
  intros HT Hh Ho. unfold SharedPtr.ctor_copy.
  rewrite (bind_Ok_l _ _ _ _ _ (shared_ctl_block_ok σ other c Ho)).
  destruct (shared_ctor_new_tracked σ this c HT Hh) as (σ' & E & HT' & _).
  { by eapply tracked_shared_live. }
  eauto.
Qed.

Lemma shared_ctor_move_tracked σ this other c :
  Tracked n σ → shared_ptrs σ !! this = None → shared_ptrs σ !! other = Some c →
  ∃ σ', SharedPtr.ctor_move this other σ = Ok (tt, σ') ∧ Tracked (S n) σ'.
Proof using bound.
  intros HT Hh Ho. unfold SharedPtr.ctor_move.
  rewrite (bind_Ok_l _ _ _ _ _ (shared_ctl_block_ok σ other c Ho)).
  destruct (shared_ctor_new_tracked σ this c HT Hh) as (σ1 & E1 & HT1 & Es1 & _).
  { by eapply tracked_shared_live. }
  rewrite (bind_Ok_l _ _ _ _ _ E1).
  assert (shared_ptrs σ1 !! other = Some c) as Ho1.
  { rewrite Es1, lookup_insert_ne; [done|congruence]. }
  pose proof (shared_reset_tracked (S n) bound σ1 other c HT1 Ho1) as Hr.
  assert (undeletable σ1 other = false) as Hu.
  { destruct (undeletable σ1 other) eqn:E; [|done].
    apply undeletable_inv in E as (l & b & Hl1 & Hb1 & Hlv & Hs1 & _).
    assert (c = Some l) as -> by congruence.
    destruct HT1 as (Ht1 & _).
    pose proof (tracked_strong _ _ _ Ht1 l b Hb1 Hlv) as Hcount.
    rewrite Es1, (strong_handles_insert_fresh l this (Some l) _ Hh),
      decide_True in Hcount by done.
    pose proof (strong_handles_pos _ _ _ Ho). lia. }
  rewrite Hu in Hr. destruct Hr as (σ2 & E2 & HT2 & _). eauto.
Qed.

(** The assignment of the block of [other] to an empty [*this]. *)
Lemma shared_rebind_tracked σ this other l :
  Tracked n σ → shared_ptrs σ !! this = Some None →
  shared_ptrs σ !! other = Some (Some l) →
  ∃ σ', (c ← SharedPtr.ctl_block_ other;
         SharedPtr.set_ctl_block_ this c;;
         match c with
         | Some l => ControlBlockBase.add_strong_link l
         | None => undefined
         end) σ = Ok (tt, σ') ∧ Tracked n σ'.
Proof using bound.
  intros HT Hh Ho.
  rewrite (bind_Ok_l _ _ _ _ _ (shared_ctl_block_ok σ other _ Ho)).
  destruct (shared_ctor_block_tracked n bound_pred σ this (Some l) n)
    as (σ' & E & HT' & _); [done|by right| |lia| |apply bound_pred|by eauto].
  - by eapply tracked_shared_live.
  - rewrite map_size_insert_Some by (by rewrite Hh). apply HT.
Qed.

Lemma shared_assign_copy_U_tracked σ this other c l :
  Tracked n σ → this ≠ other → shared_ptrs σ !! this = Some c →
  shared_ptrs σ !! other = Some (Some l) →
  if undeletable σ this
  then SharedPtr.assign_copy_U this other σ = UndefinedBehavior
  else ∃ σ', SharedPtr.assign_copy_U this other σ = Ok (tt, σ') ∧ Tracked n σ'.
Proof using bound.
  intros HT Hne Hh Ho. unfold SharedPtr.assign_copy_U.
  pose proof (shared_reset_tracked n bound_pred σ this c HT Hh) as Hr.
  destruct (undeletable σ this); [by apply bind_undefined|].
  destruct Hr as (σ1 & E1 & HT1 & Es1 & _).
  rewrite (bind_Ok_l _ _ _ _ _ E1).
  apply (shared_rebind_tracked σ1 this other l HT1).
  - by rewrite Es1, lookup_insert_eq.
  - by rewrite Es1, lookup_insert_ne.
Qed.

Lemma shared_assign_move_U_tracked σ this other c c' :
  Tracked n σ → shared_ptrs σ !! this = Some c → shared_ptrs σ !! other = Some c' →
  if undeletable σ this
  then SharedPtr.assign_move_U this other σ = UndefinedBehavior
  else ∃ σ', SharedPtr.assign_move_U this other σ = Ok (tt, σ') ∧ Tracked n σ'.
Proof using bound.
  intros HT Hh Ho. unfold SharedPtr.assign_move_U.
  pose proof (shared_reset_tracked n bound_pred σ this c HT Hh) as Hr.
  destruct (undeletable σ this); [by apply bind_undefined|].
  destruct Hr as (σ1 & E1 & HT1 & Es1 & _).
  rewrite (bind_Ok_l _ _ _ _ _ E1).
  assert (∃ c1, shared_ptrs σ1 !! other = Some c1) as [c1 Ho1].
  { rewrite Es1. destruct (decide (this = other)) as [->|Hne].
    - rewrite lookup_insert_eq. eauto.
    - rewrite lookup_insert_ne by done. eauto. }
  destruct (shared_swap_tracked n bound_pred σ1 this other c1 HT1) as (σ2 & E2 & HT2 & _);
    [by rewrite Es1, lookup_insert_eq|done|by eauto].
Qed.

Lemma shared_reset_keeps σ this c :
  Tracked n σ → shared_ptrs σ !! this = Some c →
  if undeletable σ this
  then SharedPtr.reset this σ = UndefinedBehavior
  else ∃ σ', SharedPtr.reset this σ = Ok (tt, σ') ∧ Tracked n σ'.
Proof using bound.
  intros HT Hh.
  pose proof (shared_reset_tracked n bound_pred σ this c HT Hh) as Hr.
  destruct (undeletable σ this); [done|].
  destruct Hr as (σ1 & E1 & HT1 & _). eauto.
Qed.

Lemma shared_dtor_tracked σ this c :
  Tracked n σ → shared_ptrs σ !! this = Some c →
  if undeletable σ this
  then SharedPtr.dtor this σ = UndefinedBehavior
  else ∃ σ', SharedPtr.dtor this σ = Ok (tt, σ') ∧ Tracked n σ'.
Proof using bound.
  intros HT Hh. unfold SharedPtr.dtor.
  pose proof (shared_reset_tracked n bound_pred σ this c HT Hh) as Hr.
  destruct (undeletable σ this); [by apply bind_undefined|].
  destruct Hr as (σ1 & E1 & HT1 & Es1 & _).
  rewrite (bind_Ok_l _ _ _ _ _ E1).
  destruct (shared_destroy_tracked n bound_pred σ1 this HT1) as (σ2 & E2 & HT2 & _);
    [by rewrite Es1, lookup_insert_eq|by eauto].
Qed.

(** *** WeakPtr *)

Lemma weak_ctor_new_tracked σ this c :
  Tracked n σ → weak_ptrs σ !! this = None →
  (∀ l, c = Some l → live_at (blocks σ) l = true) →
  ∃ σ', WeakPtr.ctor_block this c σ = Ok (tt, σ') ∧ Tracked (S n) σ' ∧
        shared_ptrs σ' = shared_ptrs σ ∧
        weak_ptrs σ' = <[this := c]> (weak_ptrs σ).
Proof using bound.
  intros HT Hh Hlive.
  apply (weak_ctor_block_tracked n bound_pred σ this c (S n));
    [done|by left|done|lia| |done].
  destruct HT as (_ & _ & _ & Hs).
  pose proof (size_insert_le (weak_ptrs σ) this c). lia.
Qed.

Lemma weak_ctor_owner_tracked σ this owner c :
  Tracked n σ → weak_ptrs σ !! this = None → shared_ptrs σ !! owner = Some c →
  ∃ σ', WeakPtr.ctor_owner this owner σ = Ok (tt, σ') ∧ Tracked (S n) σ'.
Proof using bound.
  intros HT Hh Ho. unfold WeakPtr.ctor_owner.
  rewrite (bind_Ok_l _ _ _ _ _ (shared_ctl_block_ok σ owner c Ho)).
  destruct (weak_ctor_new_tracked σ this c HT Hh) as (σ' & E & HT' & _).
  { by eapply tracked_shared_live. }
  eauto.
Qed.

Lemma weak_lock_tracked σ this ret c :
  Tracked n σ → shared_ptrs σ !! ret = None → weak_ptrs σ !! this = Some c →
  ∃ σ', WeakPtr.lock this ret σ = Ok (tt, σ') ∧ Tracked (S n) σ'.
Proof using bound.
  intros HT Hh Ho. unfold WeakPtr.lock.
  rewrite (bind_Ok_l _ _ _ _ _ (weak_ctl_block_ok σ this c Ho)).
  destruct (shared_ctor_new_tracked σ ret c HT Hh) as (σ' & E & HT' & _).
  { by eapply tracked_weak_live. }
  eauto.
Qed.

Lemma weak_ctor_move_tracked σ this other c :
  Tracked n σ → weak_ptrs σ !! this = None → weak_ptrs σ !! other = Some c →
  ∃ σ', WeakPtr.ctor_move this other σ = Ok (tt, σ') ∧ Tracked (S n) σ'.
Proof using bound.
  intros HT Hh Ho. unfold WeakPtr.ctor_move.
  rewrite (bind_Ok_l _ _ _ _ _ (weak_ctl_block_ok σ other c Ho)).
  destruct (weak_ctor_new_tracked σ this c HT Hh) as (σ1 & E1 & HT1 & _ & Ew1).
  { by eapply tracked_weak_live. }
  rewrite (bind_Ok_l _ _ _ _ _ E1).
  assert (weak_ptrs σ1 !! other = Some c) as Ho1.
  { rewrite Ew1, lookup_insert_ne; [done|congruence]. }
  destruct (weak_reset_tracked (S n) bound σ1 other c HT1 Ho1) as (σ2 & E2 & HT2 & _).
  eauto.
Qed.

Lemma weak_rebind_tracked σ this other l :
  Tracked n σ → weak_ptrs σ !! this = Some None →
  weak_ptrs σ !! other = Some (Some l) →
  ∃ σ', (c ← WeakPtr.ctl_block_ other;
         WeakPtr.set_ctl_block_ this c;;
         match c with
         | Some l => ControlBlockBase.add_weak_link l
         | None => undefined
         end) σ = Ok (tt, σ') ∧ Tracked n σ'.
Proof using bound.
  intros HT Hh Ho.
  rewrite (bind_Ok_l _ _ _ _ _ (weak_ctl_block_ok σ other _ Ho)).
  destruct (weak_ctor_block_tracked n bound_pred σ this (Some l) n)
    as (σ' & E & HT' & _); [done|by right| |lia| |apply bound_pred|by eauto].
  - by eapply tracked_weak_live.
  - rewrite map_size_insert_Some by (by rewrite Hh). apply HT.
Qed.

Lemma weak_assign_copy_U_tracked σ this other c l :
  Tracked n σ → this ≠ other → weak_ptrs σ !! this = Some c →
  weak_ptrs σ !! other = Some (Some l) →
  ∃ σ', WeakPtr.assign_copy_U this other σ = Ok (tt, σ') ∧ Tracked n σ'.
Proof using bound.
  intros HT Hne Hh Ho. unfold WeakPtr.assign_copy_U.
  destruct (weak_reset_tracked n bound_pred σ this c HT Hh) as (σ1 & E1 & HT1 & _ & Ew1).
  rewrite (bind_Ok_l _ _ _ _ _ E1).
  apply (weak_rebind_tracked σ1 this other l HT1).
  - by rewrite Ew1, lookup_insert_eq.
  - by rewrite Ew1, lookup_insert_ne.
Qed.

Lemma weak_assign_move_tracked σ this other c c' :
  Tracked n σ → weak_ptrs σ !! this = Some c → weak_ptrs σ !! other = Some c' →
  ∃ σ', WeakPtr.assign_move this other σ = Ok (tt, σ') ∧ Tracked n σ'.
Proof using bound.
  intros HT Hh Ho. unfold WeakPtr.assign_move.
  destruct (weak_reset_tracked n bound_pred σ this c HT Hh) as (σ1 & E1 & HT1 & _ & Ew1).
  rewrite (bind_Ok_l _ _ _ _ _ E1).
  assert (∃ c1, weak_ptrs σ1 !! other = Some c1) as [c1 Ho1].
  { rewrite Ew1. destruct (decide (this = other)) as [->|Hne].
    - rewrite lookup_insert_eq. eauto.
    - rewrite lookup_insert_ne by done. eauto. }
  destruct (weak_swap_tracked n bound_pred σ1 this other c1 HT1) as (σ2 & E2 & HT2 & _);
    [by rewrite Ew1, lookup_insert_eq|done|by eauto].
Qed.

Lemma weak_dtor_tracked σ this c :
  Tracked n σ → weak_ptrs σ !! this = Some c →
  ∃ σ', WeakPtr.dtor this σ = Ok (tt, σ') ∧ Tracked n σ'.
Proof using bound.
  intros HT Hh. unfold WeakPtr.dtor.
  destruct (weak_reset_tracked n bound_pred σ this c HT Hh) as (σ1 & E1 & HT1 & _ & Ew1).
  rewrite (bind_Ok_l _ _ _ _ _ E1).
  destruct (weak_destroy_tracked n bound_pred σ1 this HT1) as (σ2 & E2 & HT2 & _);
    [by rewrite Ew1, lookup_insert_eq|by eauto].
Qed.

(** *** Every call that is ready runs, or releases what it cannot *)

Lemma ctor_new_tracked σ this v deleter alloc :
  Tracked n σ → sound_alloc alloc → shared_ptrs σ !! this = None →
  match operator_new v σ with
  | Ok (_, σ1) => match alloc σ1 with Some _ => true | None => false end
  | _ => false
  end = true →
  ∃ σ', (ptr ← operator_new v; SharedPtr.ctor_ptr this ptr deleter alloc) σ
        = Ok (tt, σ') ∧ Tracked (S n) σ'.
Proof using bound.
  intros HT Hsound Hh Ha. unfold operator_new in *.
  set (σ1 := count_new _) in *.
  destruct (alloc σ1) as [l|] eqn:E; [|done].
  rewrite (bind_Ok_l _ (λ ptr, SharedPtr.ctor_ptr this ptr deleter alloc) σ
             (object (fresh (dom (objects σ)))) σ1) by done.
  by apply (ctor_ptr_tracked n bound_pred σ1 this _ deleter alloc l).
Qed.

Lemma step_tracked σ o :
  Tracked n σ → sound_op o → no_weak_copy o = true → ready o σ = true →
  if releasable o σ
  then ∃ σ', step o σ = Ok (tt, σ') ∧ Tracked (S n) σ'
  else step o σ = UndefinedBehavior.
Proof using bound.
  assert (∀ (m : M unit) σ0,
            (∃ σ', m σ0 = Ok (tt, σ') ∧ Tracked n σ') →
            ∃ σ', m σ0 = Ok (tt, σ') ∧ Tracked (S n) σ') as up.
  { intros m σ0 (σ' & E & HT'). exists σ'. split; [done|].
    apply (Tracked_mono n (S n)); [lia|done]. }
  assert (∀ (m : M unit) σ0 (u : bool),
            (if u then m σ0 = UndefinedBehavior
             else ∃ σ', m σ0 = Ok (tt, σ') ∧ Tracked n σ') →
            if negb u then ∃ σ', m σ0 = Ok (tt, σ') ∧ Tracked (S n) σ'
            else m σ0 = UndefinedBehavior) as rel.
  { intros m σ0 [|] H; simpl; [done|by apply up]. }
  intros HT Hsound Hweak Hr. unfold releasable.
  destruct o; simpl in Hsound, Hweak, Hr; simpl; try done;
    repeat match goal with
      | H : _ && _ = true |- _ => apply andb_true_iff in H as [? ?]
      end;
    repeat match goal with
      | H : negb (handle_at _ _) = true |- _ =>
          apply negb_true_iff, handle_at_false in H
      | H : handle_at _ _ = true |- _ => apply handle_at_true in H as [? H]
      | H : holds_block _ _ = true |- _ => apply holds_block_true in H as [? H]
      | H : bool_decide _ = true |- _ => apply bool_decide_eq_true in H
      end;
    rewrite ?new_shared_run, ?new_weak_run by done.
  - destruct (shared_ctor_new_tracked σ this None HT) as (σ' & E & HT' & _);
      [done|done|by eauto].
  - destruct (alloc σ) as [l|] eqn:Ha; [|done].
    by eapply ctor_ptr_tracked; [apply bound_pred|..].
  - by apply ctor_new_tracked.
  - destruct (alloc σ) as [l|] eqn:Ha; [|done].
    by eapply AllocateShared_tracked; [apply bound_pred|..].
  - by eapply shared_ctor_copy_tracked.
  - by eapply shared_ctor_move_tracked.
  - unfold SharedPtr.assign_copy. destruct (decide (this = other)) as [->|Hne].
    + rewrite !bool_decide_eq_true_2 by done. apply up. by exists σ.
    + rewrite !bool_decide_eq_false_2 by done.
      rewrite bool_decide_eq_false_2 in Hr by done. simpl in Hr.
      apply andb_true_iff in Hr as [H1 H2].
      apply handle_at_true in H1 as [c H1]. apply holds_block_true in H2 as [l H2].
      apply rel. by apply (shared_assign_copy_U_tracked σ this other c l).
  - unfold SharedPtr.assign_move. destruct (decide (this = other)) as [->|Hne].
    + rewrite !bool_decide_eq_true_2 by done. apply up. by exists σ.
    + rewrite !bool_decide_eq_false_2 by done.
      rewrite bool_decide_eq_false_2 in Hr by done. simpl in Hr.
      apply andb_true_iff in Hr as [H1 H2].
      apply handle_at_true in H1 as [c H1]. apply handle_at_true in H2 as [c' H2].
      apply rel. by apply (shared_assign_move_U_tracked σ this other c c').
  - apply rel. by eapply shared_assign_copy_U_tracked.
  - apply rel. by eapply shared_assign_move_U_tracked.
  - apply rel. by eapply shared_reset_keeps.
  - apply rel. by eapply shared_dtor_tracked.
  - destruct (weak_ctor_new_tracked σ this None HT) as (σ' & E & HT' & _);
      [done|done|by eauto].
  - by eapply weak_ctor_owner_tracked.
  - by eapply weak_ctor_move_tracked.
  - apply up. by eapply weak_assign_copy_U_tracked.
  - apply up. by eapply weak_assign_move_tracked.
  - apply up. destruct (weak_reset_tracked n bound_pred σ this _ HT Hr)
      as (σ' & E & HT' & _). eauto.
  - apply up. by eapply weak_dtor_tracked.
  - by eapply weak_lock_tracked.
Qed.

End ready_calls.

Section failing_calls.
Implicit Types (h : var) (c : option loc).

Variable n : nat.
Hypothesis bound : N.of_nat n ≤ SIZE_MAX.

Lemma undefined_tail_inv {A} (m : M A) σ r :
  (m ≫= λ _, undefined (A := unit)) σ = Ok r → False.
Proof. intros H. by apply bind_Ok in H as (a & σ1 & _ & H). Qed.

Lemma allocate_inv alloc σ r :
  allocate alloc σ = Ok r → (match alloc σ with Some _ => true | None => false end) = true.
Proof. unfold allocate. by destruct (alloc σ). Qed.

Lemma shared_assign_copy_U_inv σ this other r :
  Tracked n σ → SharedPtr.assign_copy_U this other σ = Ok r →
  this ≠ other ∧ handle_at (shared_ptrs σ) this = true ∧
  holds_block (shared_ptrs σ) other = true.
Proof using bound.
  intros HT H. unfold SharedPtr.assign_copy_U in H.
  apply bind_Ok in H as (u & σ1 & E1 & H).
  pose proof (shared_reset_inv _ _ _ E1) as Hh.
  destruct (handle_at_true _ _ Hh) as [c0 Hc0].
  pose proof (shared_reset_tracked n bound σ this c0 HT Hc0) as Hr.
  destruct (undeletable σ this); [congruence|].
  destruct Hr as (σ1' & E1' & _ & Es1 & _).
  assert (σ1' = σ1) as -> by congruence.
  apply bind_Ok in H as (c & σ2 & Ec & H). apply shared_ctl_inv in Ec as [Ec ->].
  destruct c as [l|]; [|by apply undefined_tail_inv in H].
  rewrite Es1 in Ec. destruct (decide (this = other)) as [->|Hne].
  { by rewrite lookup_insert_eq in Ec. }
  rewrite lookup_insert_ne in Ec by done.
  repeat split; [done|done|by eapply holds_block_Some].
Qed.

Lemma shared_assign_move_U_inv σ this other r :
  Tracked n σ → SharedPtr.assign_move_U this other σ = Ok r →
  handle_at (shared_ptrs σ) this = true ∧ handle_at (shared_ptrs σ) other = true.
Proof using bound.
  intros HT H. unfold SharedPtr.assign_move_U in H.
  apply bind_Ok in H as (u & σ1 & E1 & H).
  pose proof (shared_reset_inv _ _ _ E1) as Hh. split; [done|].
  destruct (handle_at_true _ _ Hh) as [c0 Hc0].
  pose proof (shared_reset_tracked n bound σ this c0 HT Hc0) as Hr.
  destruct (undeletable σ this); [congruence|].
  destruct Hr as (σ1' & E1' & _ & Es1 & _).
  assert (σ1' = σ1) as -> by congruence.
  unfold SharedPtr.swap_ctl_block_ in H.
  apply bind_Ok in H as (a & σ2 & Ea & H). apply shared_ctl_inv in Ea as [Ea ->].
  apply bind_Ok in H as (b & σ2 & Eb & H). apply shared_ctl_inv in Eb as [Eb ->].
  rewrite Es1 in Eb. destruct (decide (this = other)) as [<-|Hne]; [done|].
  rewrite lookup_insert_ne in Eb by done. by eapply handle_at_Some.
Qed.

Lemma weak_assign_copy_U_inv σ this other r :
  Tracked n σ → WeakPtr.assign_copy_U this other σ = Ok r →
  this ≠ other ∧ handle_at (weak_ptrs σ) this = true ∧
  holds_block (weak_ptrs σ) other = true.
Proof using bound.
  intros HT H. unfold WeakPtr.assign_copy_U in H.
  apply bind_Ok in H as (u & σ1 & E1 & H).
  pose proof (weak_reset_inv _ _ _ E1) as Hh.
  destruct (handle_at_true _ _ Hh) as [c0 Hc0].
  destruct (weak_reset_tracked n bound σ this c0 HT Hc0) as (σ1' & E1' & _ & _ & Ew1).
  assert (σ1' = σ1) as -> by congruence.
  apply bind_Ok in H as (c & σ2 & Ec & H). apply weak_ctl_inv in Ec as [Ec ->].
  destruct c as [l|]; [|by apply undefined_tail_inv in H].
  rewrite Ew1 in Ec. destruct (decide (this = other)) as [->|Hne].
  { by rewrite lookup_insert_eq in Ec. }
  rewrite lookup_insert_ne in Ec by done.
  repeat split; [done|done|by eapply holds_block_Some].
Qed.

Lemma weak_assign_move_inv σ this other r :
  Tracked n σ → WeakPtr.assign_move this other σ = Ok r →
  handle_at (weak_ptrs σ) this = true ∧ handle_at (weak_ptrs σ) other = true.
Proof using bound.
  intros HT H. unfold WeakPtr.assign_move in H.
  apply bind_Ok in H as (u & σ1 & E1 & H).
  pose proof (weak_reset_inv _ _ _ E1) as Hh. split; [done|].
  destruct (handle_at_true _ _ Hh) as [c0 Hc0].
  destruct (weak_reset_tracked n bound σ this c0 HT Hc0) as (σ1' & E1' & _ & _ & Ew1).
  assert (σ1' = σ1) as -> by congruence.
  unfold WeakPtr.swap_ctl_block_ in H.
  apply bind_Ok in H as (a & σ2 & Ea & H). apply weak_ctl_inv in Ea as [Ea ->].
  apply bind_Ok in H as (b & σ2 & Eb & H). apply weak_ctl_inv in Eb as [Eb ->].
  rewrite Ew1 in Eb. destruct (decide (this = other)) as [<-|Hne]; [done|].
  rewrite lookup_insert_ne in Eb by done. by eapply handle_at_Some.
Qed.

(** A call that runs was ready. *)
Lemma step_ready σ o r :
  Tracked n σ → no_weak_copy o = true → step o σ = Ok r → ready o σ = true.
Proof using bound.
  intros HT Hweak H. destruct o; simpl in H, Hweak; simpl; try done;
    try (apply new_shared_inv in H as [Hn H]; rewrite (handle_at_None _ _ Hn); simpl);
    try (apply new_weak_inv in H as [Hn H]; rewrite (handle_at_None _ _ Hn); simpl).
  - done.
  - unfold SharedPtr.ctor_ptr, PtrControlBlock.make_block in H.
    apply bind_Ok in H as (l & σ1 & H & _). apply bind_Ok in H as (l' & σ2 & H & _).
    by eapply allocate_inv.
  - apply bind_Ok in H as (ptr & σ1 & Hnew & H).
    unfold operator_new in Hnew. injection Hnew as <- <-.
    unfold SharedPtr.ctor_ptr, PtrControlBlock.make_block in H.
    apply bind_Ok in H as (l & σ2 & H & _). apply bind_Ok in H as (l' & σ3 & H & _).
    by eapply allocate_inv.
  - unfold AllocateShared, ValueControlBlock.make_block in H.
    apply bind_Ok in H as (l & σ1 & H & _). apply bind_Ok in H as (l' & σ2 & H & _).
    by eapply allocate_inv.
  - unfold SharedPtr.ctor_copy in H. apply bind_Ok in H as (c & σ1 & H & _).
    apply shared_ctl_inv in H as [H _]. by eapply handle_at_Some.
  - unfold SharedPtr.ctor_move in H. apply bind_Ok in H as (c & σ1 & H & _).
    apply shared_ctl_inv in H as [H _]. by eapply handle_at_Some.
  - unfold SharedPtr.assign_copy in H. destruct (bool_decide (this = other)); [done|].
    destruct (shared_assign_copy_U_inv σ this other r HT H) as (_ & -> & ->). done.
  - unfold SharedPtr.assign_move in H. destruct (bool_decide (this = other)); [done|].
    destruct (shared_assign_move_U_inv σ this other r HT H) as (-> & ->). done.
  - destruct (shared_assign_copy_U_inv σ this other r HT H) as (Hne & -> & ->).
    by rewrite bool_decide_eq_true_2.
  - destruct (shared_assign_move_U_inv σ this other r HT H) as (-> & ->). done.
  - by eapply shared_reset_inv.
  - unfold SharedPtr.dtor in H. apply bind_Ok in H as (u & σ1 & H & _).
    by eapply shared_reset_inv.
  - done.
  - unfold WeakPtr.ctor_owner in H. apply bind_Ok in H as (c & σ1 & H & _).
    apply shared_ctl_inv in H as [H _]. by eapply handle_at_Some.
  - unfold WeakPtr.ctor_move in H. apply bind_Ok in H as (c & σ1 & H & _).
    apply weak_ctl_inv in H as [H _]. by eapply handle_at_Some.
  - destruct (weak_assign_copy_U_inv σ this other r HT H) as (Hne & -> & ->).
    by rewrite bool_decide_eq_true_2.
  - destruct (weak_assign_move_inv σ this other r HT H) as (-> & ->). done.
  - by eapply weak_reset_inv.
  - unfold WeakPtr.dtor in H. apply bind_Ok in H as (u & σ1 & H & _).
    by eapply weak_reset_inv.
  - unfold WeakPtr.lock in H. apply bind_Ok in H as (c & σ1 & H & _).
    apply weak_ctl_inv in H as [H _]. by eapply handle_at_Some.
Qed.

End failing_calls.

(** Every program that copies no WeakPtr keeps the handles tracked. *)
Lemma Tracked_exec ops : ∀ n σ σ',
  N.of_nat (n + length ops) ≤ SIZE_MAX →
  Forall sound_op ops → forallb no_weak_copy ops = true →
  Tracked n σ → exec ops σ = Ok (tt, σ') →
  Tracked (n + length ops) σ'.
Proof.
  induction ops as [|o ops IH]; intros n σ σ' Hb Hs Hw HT Hex; simpl in *.
  - injection Hex as <-. by rewrite Nat.add_0_r.
  - apply bind_Ok in Hex as (u & σ1 & E1 & E2).
    apply Forall_cons in Hs as [Ho Hs].
    apply andb_true_iff in Hw as [Hwo Hw].
    assert (N.of_nat n ≤ SIZE_MAX) as Hn by lia.
    assert (N.of_nat (S n) ≤ SIZE_MAX) as HSn by lia.
    pose proof (step_ready n Hn σ o _ HT Hwo E1) as Hr.
    pose proof (step_tracked n HSn σ o HT Ho Hwo Hr) as Hstep.
    destruct (releasable o σ); [|congruence].
    destruct Hstep as (σ1' & E1' & HT1).
    assert (σ1' = σ1) as -> by congruence.
    replace (n + S (length ops))%nat with (S n + length ops)%nat by lia.
    apply (IH (S n) σ1 σ'); [lia|done|done|done|done].
Qed.

Lemma Tracked_program ops σ :
  Forall sound_op ops → forallb no_weak_copy ops = true →
  N.of_nat (length ops) ≤ SIZE_MAX →
  exec ops initial = Ok (tt, σ) → Tracked (length ops) σ.
Proof.
  intros Hs Hw Hn Hex.
  by apply (Tracked_exec ops 0 initial σ Hn Hs Hw Tracked_initial).
Qed.

(** ** Properties of every program that copies no WeakPtr

    The programs are the sequences of operations that run to their end
    from the empty program state, are shorter than the range of size_t,
    use allocators that hand out unused storage, and make no copy of a
    WeakPtr by its implicit copy constructor or copy assignment
    operator (which take no weak link, see below). *)

(** X14: after such a program the weak count of every control block
    that has not been freed is the number of live WeakPtr objects that
    point at it. *)
Theorem weak_count_is_number_of_weak_ptrs (ops : list op) (σ : state)
    (l : loc) (b : ControlBlockBase) :
  Forall sound_op ops →
  forallb no_weak_copy ops = true →
  N.of_nat (length ops) ≤ SIZE_MAX →
  exec ops initial = Ok (tt, σ) →
  blocks σ !! l = Some b → live b = true →
  weak_count_ b = N.of_nat (weak_handles l (weak_ptrs σ)).
Proof.
  intros Hs Hw Hn Hex Hb Hl.
  destruct (Tracked_program ops σ Hs Hw Hn Hex) as (Ht & _).
  by apply (tracked_weak _ _ _ Ht l b).
Qed.

Lemma weak_count_is_number_of_weak_ptrs_witness :
  blocks sample_state !! 1%positive
  = Some (mkBlock (object 0) 2 1 (PtrControlBlock DefaultDelete) 0 0) ∧
  weak_count_ (mkBlock (object 0) 2 1 (PtrControlBlock DefaultDelete) 0 0)
  = N.of_nat (weak_handles 1%positive (weak_ptrs sample_state)).
Proof.
  split; [vm_compute; reflexivity|].
  refine (weak_count_is_number_of_weak_ptrs sample_ops sample_state 1%positive
            _ _ _ _ _ _ _).
  - repeat constructor; apply std_allocator_sound.
  - reflexivity.
  - vm_compute. discriminate.
  - vm_compute. reflexivity.
  - vm_compute. reflexivity.
  - reflexivity.
Defined.

(** X15: in the state such a program ends in, no SharedPtr and no
    WeakPtr points at a control block that was freed: the block of every
    handle that is not empty is still there. *)
Theorem no_handle_on_freed_block (ops : list op) (σ : state) (h : var) (l : loc) :
  Forall sound_op ops →
  forallb no_weak_copy ops = true →
  N.of_nat (length ops) ≤ SIZE_MAX →
  exec ops initial = Ok (tt, σ) →
  shared_ptrs σ !! h = Some (Some l) ∨ weak_ptrs σ !! h = Some (Some l) →
  ∃ b, blocks σ !! l = Some b ∧ live b = true.
Proof.
  intros Hs Hw Hn Hex Hh.
  destruct (Tracked_program ops σ Hs Hw Hn Hex) as (Ht & _).
  destruct Hh as [Hh|Hh].
  - destruct (tracked_shared_handle _ _ _ _ _ Ht Hh) as (b & Hb & Hl & _). eauto.
  - destruct (tracked_weak_handle _ _ _ _ _ Ht Hh) as (b & Hb & Hl & _). eauto.
Qed.

Lemma no_handle_on_freed_block_witness :
  weak_ptrs survivor_state !! "w" = Some (Some 1%positive) ∧
  ∃ b, blocks survivor_state !! 1%positive = Some b ∧ live b = true.
Proof.
  split; [vm_compute; reflexivity|].
  refine (no_handle_on_freed_block survivor_ops survivor_state "w" 1%positive
            _ _ _ _ _).
  - repeat constructor; apply std_allocator_sound.
  - reflexivity.
  - vm_compute. discriminate.
  - vm_compute. reflexivity.
  - right. vm_compute. reflexivity.
Defined.

(** X16: a block that has not been freed is pointed at by a SharedPtr
    or a WeakPtr, so nothing leaks: when such a program ends with every
    SharedPtr and every WeakPtr empty or destroyed, each unit that was
    allocated for a control block has been deallocated. *)
Theorem released_handles_free_every_block (ops : list op) (σ : state) :
  Forall sound_op ops →
  forallb no_weak_copy ops = true →
  N.of_nat (length ops) ≤ SIZE_MAX →
  exec ops initial = Ok (tt, σ) →
  (∀ h l, shared_ptrs σ !! h ≠ Some (Some l)) →
  (∀ h l, weak_ptrs σ !! h ≠ Some (Some l)) →
  deallocate_calls σ = allocate_calls σ ∧
  ∀ l b, blocks σ !! l = Some b → live b = false.
Proof.
  intros Hs Hw Hn Hex Hsp Hwp.
  destruct (Tracked_program ops σ Hs Hw Hn Hex) as (Ht & Hbal & _).
  assert (∀ l b, blocks σ !! l = Some b → live b = false) as Hfree.
  { intros l b Hb. destruct (live b) eqn:Hl; [|done].
    pose proof (tracked_used _ _ _ Ht l b Hb Hl) as Hpos.
    assert (strong_handles l (shared_ptrs σ) = 0%nat) as H1
      by (apply strong_handles_none; intros h; apply Hsp).
    assert (weak_handles l (weak_ptrs σ) = 0%nat) as H2
      by (apply strong_handles_none; intros h; apply Hwp).
    lia. }
  split; [|done].
  assert (live_blocks (blocks σ) = 0%nat) as Hz.
  { unfold live_blocks. apply map_size_empty_iff, map_empty. intros l.
    apply map_lookup_filter_None. right. intros b Hb Hl. simpl in Hl.
    rewrite (Hfree l b Hb) in Hl. done. }
  lia.
Qed.

Lemma released_handles_free_every_block_witness :
  deallocate_calls released_state = allocate_calls released_state ∧
  ∀ l b, blocks released_state !! l = Some b → live b = false.
Proof.
  assert (shared_ptrs released_state = ∅) as Es by (vm_compute; reflexivity).
  assert (weak_ptrs released_state = ∅) as Ew by (vm_compute; reflexivity).
  refine (released_handles_free_every_block release_ops released_state _ _ _ _ _ _).
  - repeat constructor; apply std_allocator_sound.
  - reflexivity.
  - vm_compute. discriminate.
  - vm_compute. reflexivity.
  - intros h l. rewrite Es, lookup_empty. discriminate.
  - intros h l. rewrite Ew, lookup_empty. discriminate.
Defined.

Example released_counts :
  allocate_calls released_state = 2%nat ∧ deallocate_calls released_state = 2%nat ∧
  new_calls released_state = 1%nat ∧ objects released_state = ∅.
Proof. vm_compute. repeat split. Qed.



(** X18: in the state such a program ends in, [expired()] on a WeakPtr
    that holds a block returns true exactly when no live SharedPtr
    points at that block. *)
Theorem expired_iff_no_owner (ops : list op) (σ : state) (w : var) (l : loc) :
  Forall sound_op ops →
  forallb no_weak_copy ops = true →
  N.of_nat (length ops) ≤ SIZE_MAX →
  exec ops initial = Ok (tt, σ) →
  weak_ptrs σ !! w = Some (Some l) →
  WeakPtr.expired w σ
  = Ok (bool_decide (strong_handles l (shared_ptrs σ) = 0%nat), σ).
Proof.
  intros Hs Hwc Hn Hex Hw.
  destruct (Tracked_program ops σ Hs Hwc Hn Hex) as (Ht & _).
  destruct (tracked_weak_handle _ _ _ _ _ Ht Hw) as (b & Hb & Hl & Hsc & _).
  rewrite (expired_ok σ w l b Hw Hb Hl), Hsc. do 2 f_equal.
  destruct (strong_handles l (shared_ptrs σ)) as [|k].
  - by rewrite bool_decide_eq_true_2.
  - rewrite bool_decide_eq_false_2 by done.
    apply negb_false_iff, N.ltb_lt. lia.
Qed.

Lemma expired_iff_no_owner_witness :
  WeakPtr.expired "w" survivor_state
  = Ok (bool_decide (strong_handles 1%positive (shared_ptrs survivor_state) = 0%nat),
        survivor_state).
Proof.
  refine (expired_iff_no_owner survivor_ops survivor_state "w" 1%positive _ _ _ _ _).
  - repeat constructor; apply std_allocator_sound.
  - reflexivity.
  - vm_compute. discriminate.
  - vm_compute. reflexivity.
  - vm_compute. reflexivity.
Defined.

Example survivor_expired :
  WeakPtr.expired "w" survivor_state = Ok (true, survivor_state) ∧
  WeakPtr.expired "w" sample_state = Ok (false, sample_state).
Proof. vm_compute. split; reflexivity. Qed.

(** ** The implicit copies of a WeakPtr

    WeakPtr declares member templates for copying, and a template is
    never the copy constructor or the copy assignment operator; what
    [WeakPtr<T> w2(w)] and [w2 = w] run are the implicit ones, which
    copy the block pointer and take no weak link. *)

(** The member template that no program runs would have kept the value
    alone as well. *)
Lemma ctor_copy_U_leaves_value this other :
  value_neutral (new_weak this (WeakPtr.ctor_copy_U this other)).
Proof.
  pose proof vneutral_add_weak_link.
  apply vneutral_new_weak. unfold WeakPtr.ctor_copy_U, WeakPtr.ctor_block.
  vneutral.
Qed.

Lemma weak_ctor_copy_run σ this other c :
  weak_ptrs σ !! other = Some c →
  WeakPtr.ctor_copy this other σ
  = Ok (tt, with_weak_ptrs (<[this := c]> (weak_ptrs σ)) σ).
Proof. intros Ho. unfold WeakPtr.ctor_copy. run. by rewrite Ho. Qed.

(** With a SharedPtr alive, the assertion of [remove_weak_link] holds
    whatever the weak count is: at weak count 0 the count wraps. *)
Lemma remove_weak_link_underflow σ l b :
  blocks σ !! l = Some b → live b = true →
  0 < strong_count_ b → weak_count_ b = 0 →
  ControlBlockBase.remove_weak_link l σ
  = Ok (tt, with_blocks (<[l := with_weak SIZE_MAX b]> (blocks σ)) σ).
Proof.
  intros Hb Hl Hpos Hw. unfold ControlBlockBase.remove_weak_link.
  rewrite (bind_Ok_l _ _ _ _ _ (is_valid_ok _ _ _ Hb Hl)).
  rewrite (bind_Ok_l _ _ _ _ _ (load_ok _ _ _ Hb Hl)).
  rewrite (proj2 (N.ltb_lt _ _) Hpos). simpl.
  rewrite (bind_Ok_l _ _ _ _ _ (assert_ok _)).
  rewrite (bind_Ok_l _ _ _ _ _ (modify_ok _ _ _ _ Hb Hl)).
  rewrite Hw. change (decr 0) with SIZE_MAX.
  set (b1 := with_weak SIZE_MAX b).
  set (σ1 := with_blocks _ σ).
  assert (blocks σ1 !! l = Some b1) as Hb1 by apply lookup_insert_eq.
  assert (live b1 = true) as Hl1 by done.
  rewrite (bind_Ok_l _ _ _ _ _ (load_ok _ _ _ Hb1 Hl1)).
  change (strong_count_ b1) with (strong_count_ b).
  destruct (N.eqb_spec (strong_count_ b) 0); [lia|done].
Qed.

(** X19: a copy of a WeakPtr is not counted, so it can outlive the
    control block.  With the last SharedPtr [a] of a block and one
    WeakPtr [w] on it (weak count 1), [WeakPtr<T> w2(w)] leaves the
    weak count at 1; [a.reset()] then destroys the value and
    [w.reset()] frees the block although [w2] still points at it, and
    every use of [w2] from there on ([expired()], [lock()], [reset()],
    its destructor) reads the freed block. *)
Theorem weak_copy_dangles (σ : state) (a w w2 s : var) (l : loc)
    (b : ControlBlockBase) (objs' : gmap N T) :
  shared_ptrs σ !! a = Some (Some l) →
  weak_ptrs σ !! w = Some (Some l) →
  weak_ptrs σ !! w2 = None →
  blocks σ !! l = Some b → live b = true →
  strong_count_ b = 1 → weak_count_ b = 1 →
  objects_after_delete b (objects σ) = Some objs' →
  ∃ σ1 σ2 σ3 b3,
    step (WeakCopy w2 w) σ = Ok (tt, σ1) ∧
    blocks σ1 = blocks σ ∧
    weak_ptrs σ1 = <[w2 := Some l]> (weak_ptrs σ) ∧
    SharedPtr.reset a σ1 = Ok (tt, σ2) ∧
    WeakPtr.reset w σ2 = Ok (tt, σ3) ∧
    weak_ptrs σ3 !! w2 = Some (Some l) ∧
    blocks σ3 !! l = Some b3 ∧ live b3 = false ∧
    deallocate_calls σ3 = S (deallocate_calls σ) ∧
    WeakPtr.expired w2 σ3 = UndefinedBehavior ∧
    WeakPtr.lock w2 s σ3 = UndefinedBehavior ∧
    WeakPtr.reset w2 σ3 = UndefinedBehavior ∧
    WeakPtr.dtor w2 σ3 = UndefinedBehavior.
Proof.
  intros Ha Hw Hw2 Hb Hl Hs Hwk Ho.
  assert (w2 ≠ w) as Hne by congruence.
  destruct b as [d sc wk dy dd db]. simpl in Hs, Hwk. subst sc wk.
  assert (db = 0%nat) as -> by (unfold live in Hl; simpl in Hl; by destruct db).
  set (b0 := mkBlock d 1 1 dy dd 0) in *.
  (* WeakPtr<T> w2(w) *)
  set (σ1 := with_weak_ptrs (<[w2 := Some l]> (weak_ptrs σ)) σ).
  assert (step (WeakCopy w2 w) σ = Ok (tt, σ1)) as R1.
  { simpl. rewrite (new_weak_run _ _ _ Hw2). by apply weak_ctor_copy_run. }
  assert (weak_ptrs σ1 !! w = Some (Some l)) as Hw1
    by (simpl; by rewrite lookup_insert_ne).
  (* a.reset() *)
  set (b2 := value_deleted (mkBlock d 0 1 dy dd 0)).
  set (σ2 := with_shared_ptrs (<[a := None]> (shared_ptrs σ))
               (with_blocks (<[l := b2]> (blocks σ)) (with_objects objs' σ1))).
  assert (SharedPtr.reset a σ1 = Ok (tt, σ2)) as R2.
  { rewrite (reset_run σ1 a l _ Ha
               (remove_strong_link_run σ1 l b0 Hb eq_refl eq_refl
                  ltac:(vm_compute; discriminate)
                  (λ _, ex_intro _ objs' Ho))).
    unfold after_remove_strong.
    change (objects_after_delete b0 (objects σ1))
      with (objects_after_delete b0 (objects σ)).
    rewrite Ho. reflexivity. }
  assert (live b2 = true) as Hl2 by (unfold b2, value_deleted; by destruct dy).
  assert (strong_count_ b2 = 0 ∧ weak_count_ b2 = 1) as (Hs2 & Hwk2)
    by (unfold b2, value_deleted; by destruct dy).
  assert (blocks σ2 !! l = Some b2) as Hb2 by apply lookup_insert_eq.
  assert (weak_ptrs σ2 !! w = Some (Some l)) as Hw2' by exact Hw1.
  (* w.reset() *)
  set (σ3 := with_weak_ptrs (<[w := None]> (weak_ptrs σ2)) (after_remove_weak σ2 l b2)).
  assert (WeakPtr.reset w σ2 = Ok (tt, σ3)) as R3.
  { rewrite (weak_reset_run σ2 w l _ Hw2'
               (remove_weak_link_run σ2 l b2 Hb2 Hl2
                  ltac:(rewrite Hwk2; done)
                  ltac:(rewrite Hwk2; vm_compute; discriminate))).
    unfold σ3, after_remove_weak. by rewrite Hs2, Hwk2. }
  set (b3 := block_deleted (with_weak 0 b2)).
  assert (weak_ptrs σ3 !! w2 = Some (Some l)) as Hw3.
  { unfold σ3. simpl. rewrite lookup_insert_ne by done. apply lookup_insert_eq. }
  assert (blocks σ3 !! l = Some b3) as Hb3.
  { unfold σ3, after_remove_weak. rewrite Hs2, Hwk2. simpl.
    by rewrite lookup_insert_eq. }
  assert (live b3 = false) as Hl3 by done.
  assert (load l σ3 = UndefinedBehavior) as Hload
    by (unfold load; by rewrite Hb3, Hl3).
  assert (ControlBlockBase.is_valid l σ3 = UndefinedBehavior) as Hvalid.
  { unfold ControlBlockBase.is_valid, ControlBlockBase.get_use_count.
    by do 2 apply bind_undefined. }
  assert (WeakPtr.reset w2 σ3 = UndefinedBehavior) as Hreset.
  { unfold WeakPtr.reset.
    rewrite (bind_Ok_l _ _ _ _ _ (weak_ctl_block_ok _ _ _ Hw3)).
    apply bind_undefined. unfold ControlBlockBase.remove_weak_link.
    by apply bind_undefined. }
  exists σ1, σ2, σ3, b3.
  split; [done|]. split; [done|]. split; [done|]. split; [done|].
  split; [done|]. split; [done|]. split; [done|]. split; [done|].
  split; [unfold σ3, after_remove_weak; by rewrite Hs2, Hwk2|].
  split; [|split; [|split; [done|]]].
  - unfold WeakPtr.expired.
    rewrite (bind_Ok_l _ _ _ _ _ (weak_ctl_block_ok _ _ _ Hw3)).
    by apply bind_undefined.
  - unfold WeakPtr.lock.
    rewrite (bind_Ok_l _ _ _ _ _ (weak_ctl_block_ok _ _ _ Hw3)).
    unfold SharedPtr.ctor_block.
    assert (SharedPtr.set_ctl_block_ s (Some l) σ3
            = Ok (tt, with_shared_ptrs (<[s := Some l]> (shared_ptrs σ3)) σ3)) as E
      by done.
    rewrite (bind_Ok_l _ _ _ _ _ E).
    unfold ControlBlockBase.add_strong_link, modify. apply bind_undefined.
    unfold load.
    change (blocks (with_shared_ptrs (<[s := Some l]> (shared_ptrs σ3)) σ3))
      with (blocks σ3).
    by rewrite Hb3, Hl3.
  - unfold WeakPtr.dtor. by apply bind_undefined.
Qed.

Lemma weak_copy_dangles_witness :
  ∃ σ1 σ2 σ3,
    step (WeakCopy "w2" "w") weak_owner_state = Ok (tt, σ1) ∧
    SharedPtr.reset "a" σ1 = Ok (tt, σ2) ∧
    WeakPtr.reset "w" σ2 = Ok (tt, σ3) ∧
    weak_ptrs σ3 !! "w2" = Some (Some 1%positive) ∧
    deallocate_calls σ3 = 1%nat ∧
    WeakPtr.expired "w2" σ3 = UndefinedBehavior ∧
    WeakPtr.dtor "w2" σ3 = UndefinedBehavior.
Proof.
  destruct (weak_copy_dangles weak_owner_state "a" "w" "w2" "s" 1%positive
              (mkBlock (object 0) 1 1 (PtrControlBlock DefaultDelete) 0 0) ∅)
    as (σ1 & σ2 & σ3 & b3 & H1 & _ & _ & H4 & H5 & H6 & _ & _ & H9 & H10 & _ & _ & H13);
    try (vm_compute; reflexivity).
  exists σ1, σ2, σ3. repeat split; assumption.
Defined.

(** X20: for the same reason a copied WeakPtr leaks the block.  With
    the last SharedPtr [a] of a block and one WeakPtr [w] on it, the
    copy [w2] and then the destructors of [w2], [w] and [a] all run to
    their end: the second WeakPtr destructor finds weak count 0, passes
    the assertion because [a] is alive, and wraps the count to
    SIZE_MAX; the destructor of [a] destroys the value and, with a weak
    count that is not 0, keeps the block.  No handle is left and the
    unit is never deallocated. *)
Theorem weak_copy_leaks (σ : state) (a w w2 : var) (l : loc)
    (b : ControlBlockBase) (objs' : gmap N T) :
  shared_ptrs σ !! a = Some (Some l) →
  weak_ptrs σ !! w = Some (Some l) →
  weak_ptrs σ !! w2 = None →
  blocks σ !! l = Some b → live b = true →
  strong_count_ b = 1 → weak_count_ b = 1 →
  objects_after_delete b (objects σ) = Some objs' →
  ∃ σ' b',
    exec [WeakCopy w2 w; WeakDtor w2; WeakDtor w; SharedDtor a] σ = Ok (tt, σ') ∧
    shared_ptrs σ' = delete a (shared_ptrs σ) ∧
    weak_ptrs σ' = delete w (weak_ptrs σ) ∧
    objects σ' = objs' ∧
    blocks σ' !! l = Some b' ∧ live b' = true ∧
    strong_count_ b' = 0 ∧ weak_count_ b' = SIZE_MAX ∧
    delete_data_calls b' = S (delete_data_calls b) ∧
    allocate_calls σ' = allocate_calls σ ∧
    deallocate_calls σ' = deallocate_calls σ.
Proof.
  intros Ha Hw Hw2 Hb Hl Hs Hwk Ho.
  assert (w2 ≠ w) as Hne by congruence.
  destruct b as [d sc wk dy dd db]. simpl in Hs, Hwk. subst sc wk.
  assert (db = 0%nat) as -> by (unfold live in Hl; simpl in Hl; by destruct db).
  set (b0 := mkBlock d 1 1 dy dd 0) in *.
  (* WeakPtr<T> w2(w) *)
  set (σ1 := with_weak_ptrs (<[w2 := Some l]> (weak_ptrs σ)) σ).
  assert (step (WeakCopy w2 w) σ = Ok (tt, σ1)) as R1.
  { simpl. rewrite (new_weak_run _ _ _ Hw2). by apply weak_ctor_copy_run. }
  assert (weak_ptrs σ1 !! w2 = Some (Some l)) as Hw21 by apply lookup_insert_eq.
  (* ~w2 *)
  set (b1 := mkBlock d 1 0 dy dd 0).
  set (σ2 := with_weak_ptrs (weak_ptrs σ) (with_blocks (<[l := b1]> (blocks σ)) σ)).
  assert (step (WeakDtor w2) σ1 = Ok (tt, σ2)) as R2.
  { simpl. unfold WeakPtr.dtor.
    rewrite (bind_Ok_l _ _ _ _ _
               (weak_reset_run σ1 w2 l _ Hw21
                  (remove_weak_link_run σ1 l b0 Hb Hl eq_refl
                     ltac:(vm_compute; discriminate)))).
    unfold WeakPtr.destroy, after_remove_weak, σ2. simpl.
    by rewrite !delete_insert_eq, (delete_id _ _ Hw2). }
  assert (blocks σ2 !! l = Some b1) as Hb1 by apply lookup_insert_eq.
  (* ~w *)
  set (b2 := mkBlock d 1 SIZE_MAX dy dd 0).
  set (σ3 := with_weak_ptrs (delete w (weak_ptrs σ))
               (with_blocks (<[l := b2]> (blocks σ)) σ)).
  assert (step (WeakDtor w) σ2 = Ok (tt, σ3)) as R3.
  { simpl. unfold WeakPtr.dtor.
    rewrite (bind_Ok_l _ _ _ _ _
               (weak_reset_run σ2 w l _ Hw
                  (remove_weak_link_underflow σ2 l b1 Hb1 eq_refl eq_refl eq_refl))).
    unfold WeakPtr.destroy, σ3, σ2. simpl.
    do 2 f_equal. unfold with_weak_ptrs, with_blocks. simpl.
    by rewrite insert_insert_eq, delete_insert_eq. }
  assert (blocks σ3 !! l = Some b2) as Hb2 by apply lookup_insert_eq.
  (* ~a *)
  set (b3 := value_deleted (mkBlock d 0 SIZE_MAX dy dd 0)).
  assert (objects_after_delete b2 (objects σ3) = Some objs') as Ho3 by exact Ho.
  assert (step (SharedDtor a) σ3
          = Ok (tt, with_shared_ptrs (delete a (shared_ptrs σ3))
                      (after_remove_strong σ3 l b2))) as R4.
  { simpl. apply (dtor_run σ3 a l b2 Ha Hb2 eq_refl eq_refl).
    - vm_compute. discriminate.
    - intros _. eauto. }
  exists (with_shared_ptrs (delete a (shared_ptrs σ3)) (after_remove_strong σ3 l b2)), b3.
  split.
  { simpl. rewrite (bind_Ok_l _ _ _ _ _ R1), (bind_Ok_l _ _ _ _ _ R2),
      (bind_Ok_l _ _ _ _ _ R3), (bind_Ok_l _ _ _ _ _ R4). done. }
  unfold after_remove_strong. rewrite Ho3.
  change (strong_count_ b2 =? 1) with true.
  change (weak_count_ b2 =? 0) with false. cbv iota. simpl.
  repeat split.
  - by rewrite lookup_insert_eq.
  - unfold b3, value_deleted. by destruct dy.
  - unfold b3, value_deleted. by destruct dy.
  - unfold b3, value_deleted. by destruct dy.
  - unfold b3, value_deleted. by destruct dy.
Qed.

Lemma weak_copy_leaks_witness :
  ∃ σ',
    exec [WeakCopy "w2" "w"; WeakDtor "w2"; WeakDtor "w"; SharedDtor "a"]
      weak_owner_state = Ok (tt, σ') ∧
    shared_ptrs σ' = ∅ ∧ weak_ptrs σ' = ∅ ∧
    allocate_calls σ' = 1%nat ∧ deallocate_calls σ' = 0%nat.
Proof.
  destruct (weak_copy_leaks weak_owner_state "a" "w" "w2" 1%positive
              (mkBlock (object 0) 1 1 (PtrControlBlock DefaultDelete) 0 0) ∅)
    as (σ' & b' & H1 & H2 & H3 & _ & _ & _ & _ & _ & _ & H10 & H11);
    try (vm_compute; reflexivity).
  exists σ'. split; [exact H1|].
  split; [rewrite H2; vm_compute; reflexivity|].
  split; [rewrite H3; vm_compute; reflexivity|].
  split; assumption.
Defined.
